(** * EventuateClient: subscription client of the Eventuate event store

    A shallow embedding of [src/modules/EventuateClient.js] together with
    the collaborators its behaviour depends on.

    - JavaScript values are an inductive type; the objects that the
      client uses as tables ([this.subscriptions], [this.receipts]) are
      the lists of their own properties, in the order of creation, with
      what assignment, [hasOwnProperty] and [for ... in] make of them.
    - The client instance and everything it shares with its closures
      (promises, Stomp objects, ack trackers, observers, timers, the
      promise job queue) live in one [World] record; every method and
      every event handler is a computation in a state-and-exception
      monad over that record.
    - Everything the client does to the outside (calls on the Stomp
      object, calls of user callbacks, [setTimeout]) is appended to a
      chronological [trace].

    The modules [./stomp/AckOrderTracker] and [./Encryption] are not part
    of the available sources; they are modelled from the specification
    and marked as such. *)

From Stdlib Require Import ZArith Lia Ascii String.
From stdpp Require Import base option list strings pretty gmap fin_maps.

Set Warnings "-register-all".
Local Open Scope Z_scope.

(** ** JavaScript values and completions *)

(** Errors that the embedded code can raise or construct. *)
Inductive JsError :=
| TypeError
| SyntaxError
| InvariantViolation (msg : string)
| Error (msg : string).

(** The outcome of evaluating a piece of JavaScript: a value, or an
    exception that was thrown. *)
Inductive completion (A : Type) :=
| Normal (a : A)
| Throw (e : JsError).
Arguments Normal {A} a.
Arguments Throw {A} e.

(** A JSON number literal denotes [mantissa * 10 ^ exponent10]; rounding
    to a double is not modelled (the client only tests numbers for
    truthiness and otherwise passes them through). *)
Record number := { mantissa : Z; exponent10 : Z }.

Inductive value :=
| VUndefined
| VNull
| VBool (b : bool)
| VNumber (n : number)
| VString (s : string)
| VArray (elems : list value)
| VObject (fields : list (string * value)).

(** [!!v] of JavaScript. *)
Definition truthy (v : value) : bool :=
  match v with
  | VUndefined | VNull => false
  | VBool b => b
  | VNumber n => negb (mantissa n =? 0)
  | VString s => negb (String.eqb s EmptyString)
  | VArray _ | VObject _ => true
  end.

Inductive jstype := TUndefined | TObject | TBoolean | TNumber | TString.

(** [typeof v]. *)
Definition typeof (v : value) : jstype :=
  match v with
  | VUndefined => TUndefined
  | VNull | VArray _ | VObject _ => TObject
  | VBool _ => TBoolean
  | VNumber _ => TNumber
  | VString _ => TString
  end.

(** Own fields of an object literal, first binding of a key. *)
Fixpoint field (k : string) (fs : list (string * value)) : value :=
  match fs with
  | [] => VUndefined
  | (k', v) :: fs' => if String.eqb k k' then v else field k fs'
  end.

(** [v.k] for the property names the client reads ([id], [eventType],
    [eventData], [receiptHandle], ...): none of them is inherited from a
    prototype, so on anything but an object literal the read gives
    [undefined]; on [null] and [undefined] it throws. *)
Definition get (v : value) (k : string) : completion value :=
  match v with
  | VUndefined | VNull => Throw TypeError
  | VObject fs => Normal (field k fs)
  | _ => Normal VUndefined
  end.

(** Decimal spelling of an array index. *)
Definition index_key (i : nat) : string := pretty (N.of_nat i).

(** [Object.keys(v)] under ES2015 (the file loads [babel-polyfill]):
    the argument is coerced to an object, [null] and [undefined] throw. *)
Definition Object_keys (v : value) : completion (list string) :=
  match v with
  | VUndefined | VNull => Throw TypeError
  | VBool _ | VNumber _ => Normal []
  | VString s => Normal (index_key <$> seq 0 (String.length s))
  | VArray l => Normal (index_key <$> seq 0 (length l))
  | VObject fs => Normal (fs.*1)
  end.

(** [Object.assign({}, v)] for an object or an array [v]. *)
Definition Object_assign_empty (v : value) : value :=
  match v with
  | VObject fs => VObject fs
  | VArray l => VObject (zip (index_key <$> seq 0 (length l)) l)
  | _ => VObject []
  end.

(** The host functions the client calls but does not define. *)
Class Host := {
  (** [JSON.parse] on a string; [None] is a thrown [SyntaxError]. *)
  JSON_parse : string -> option value;
  (** The [ToString] coercion [JSON.parse] and property lookup apply to
      an argument that is not a string. *)
  ToString : value -> string;
  (** [unEscapeStr] of [./specialChars]. *)
  unEscapeStr : string -> string
}.

Definition to_string {host : Host} (v : value) : string :=
  match v with
  | VString s => s
  | _ => ToString v
  end.

(** ** Plain objects used as tables

    [this.subscriptions] and [this.receipts] are object literals that
    the client fills by assignment, tests with [hasOwnProperty] and
    walks with [for ... in].  A table is the list of its own
    properties, in the order they were created. *)

Module Table.

Definition t (V : Type) : Type := list (string * V).

(** The number a string of decimal digits spells. *)
Fixpoint digits_value (acc : N) (s : string) : option N :=
  match s with
  | EmptyString => Some acc
  | String c s' =>
      let n := N_of_ascii c in
      if (48 <=? n)%N && (n <=? 57)%N
      then digits_value (acc * 10 + (n - 48))%N s'
      else None
  end.

(** A property name that is an array index: the canonical spelling of
    an integer below [2^32 - 1]. *)
Definition array_index (k : string) : option N :=
  match k with
  | EmptyString => None
  | _ =>
      match digits_value 0 k with
      | Some n =>
          if String.eqb (pretty n) k && (n <? 4294967295)%N
          then Some n else None
      | None => None
      end
  end.

Section Table.
Context {V : Type}.

(** [{}]. *)
Definition empty : t V := [].

(** The own property [k]. *)
Fixpoint lookup (k : string) (tb : t V) : option V :=
  match tb with
  | [] => None
  | (k', v) :: tb' => if String.eqb k k' then Some v else lookup k tb'
  end.

(** Writing the own property [k]: a property that is there keeps its
    place, a new one goes last. *)
Fixpoint put (k : string) (v : V) (tb : t V) : t V :=
  match tb with
  | [] => [(k, v)]
  | (k', v') :: tb' =>
      if String.eqb k k' then (k, v) :: tb' else (k', v') :: put k v tb'
  end.

(** [tb[k] = v].  Under the name [__proto__] the assignment replaces
    the prototype of the table and creates no own property; the client
    reads a table through [hasOwnProperty] only, and the prototype,
    which has no property [hasOwnProperty] of its own either way, does
    not show there. *)
Definition assign (k : string) (v : V) (tb : t V) : t V :=
  if String.eqb k "__proto__" then tb else put k v tb.

(** [tb.hasOwnProperty(k)]: an own property named [hasOwnProperty]
    shadows the method, and what is called then is not a function. *)
Definition hasOwnProperty (tb : t V) (k : string) : completion bool :=
  match lookup "hasOwnProperty" tb with
  | Some _ => Throw TypeError
  | None =>
      match lookup k tb with
      | Some _ => Normal true
      | None => Normal false
      end
  end.

(** Puts an indexed property into a list sorted by index. *)
Fixpoint insert_sorted (x : N * (string * V)) (l : list (N * (string * V)))
  : list (N * (string * V)) :=
  match l with
  | [] => [x]
  | y :: l' => if (x.1 <=? y.1)%N then x :: l else y :: insert_sorted x l'
  end.

(** The own properties in the order [for ... in] visits them in V8:
    those named by an array index first, in ascending order, then the
    others in the order of their creation.  The loop also visits the
    enumerable properties of a prototype put in place through
    [__proto__]; the client guards the body of its loops with
    [hasOwnProperty], which skips them. *)
Definition for_in (tb : t V) : list (string * V) :=
  (foldr insert_sorted []
     (omap (fun kv => (fun n => (n, kv)) <$> array_index kv.1) tb)).*2
  ++ filter (fun kv => array_index kv.1 = None) tb.

End Table.

End Table.

(** ** AckOrderTracker *)

Module AckOrderTracker.

(** Modelled from the spec: the module [./stomp/AckOrderTracker] is
    imported by the client but its source is not available.  The state
    is an ordered queue of [{token, completed}] in arrival order. *)
Record entry := { token : string; completed : bool }.

Definition t := list entry.

(** Modelled from the spec: [new AckOrderTracker()] of the missing
    module, an empty queue. *)
Definition empty : t := [].

(** Modelled from the spec: [add(token)] of the missing module appends
    the token with [completed = false] to the tail of the queue. *)
Definition add (tok : string) (q : t) : t :=
  q ++ [{| token := tok; completed := false |}].

(** Modelled from the spec: the first step of [ack(token)] of the
    missing module marks the matching queue entry completed; an
    unknown token changes nothing. *)
Fixpoint mark (tok : string) (q : t) : t :=
  match q with
  | [] => []
  | e :: q' =>
      if String.eqb (token e) tok
      then {| token := token e; completed := true |} :: q'
      else e :: mark tok q'
  end.

(** Modelled from the spec: the scan of [ack(token)] of the missing
    module collects the prefix of contiguously completed entries and
    stops at the first entry that is not completed. *)
Fixpoint release (q : t) : list string * t :=
  match q with
  | [] => ([], [])
  | e :: q' =>
      if completed e
      then let '(out, rest) := release q' in (token e :: out, rest)
      else ([], q)
  end.

(** Modelled from the spec: [ack(token)] of the missing module; the
    result is the release list and the queue that stays buffered. *)
Definition ack (tok : string) (q : t) : list string * t :=
  release (mark tok q).

(** A history of calls on one tracker. *)
Inductive call :=
| Add (tok : string)
| Ack (tok : string).

(** The tokens that arrived, in arrival order. *)
Definition arrivals (cs : list call) : list string :=
  omap (fun c => match c with Add tok => Some tok | Ack _ => None end) cs.

(** Plays a history; the result is the release list of every [ack] of
    the history, in call order, and the final queue. *)
Fixpoint play (cs : list call) (q : t) : list (list string) * t :=
  match cs with
  | [] => ([], q)
  | Add tok :: cs' => play cs' (add tok q)
  | Ack tok :: cs' =>
      let '(out, q') := ack tok q in
      let '(outs, q'') := play cs' q' in
      (out :: outs, q'')
  end.

End AckOrderTracker.

(** ** The client instance and the world around it *)

(** User callbacks are opaque functions of the application; the model
    identifies each by a number and records every call made to it.  A
    callback is taken to return, and not to call the client from
    inside. *)
Definition Callback := nat.

(** The arguments of one call of a subscribe callback:
    [callback(error)], where [None] is [undefined], or
    [callback(null, receiptId)]. *)
Inductive CallbackArgs :=
| CbError (reason : option JsError)
| CbReceipt (receiptId : string).

(** [options] of [subscribe]. *)
Record Options := {
  o_durability : value;
  o_readFrom : value;
  o_progressNotifications : value
}.

(** [destinationObj] of [addSubscription], before it is serialised and
    escaped into the [destination] header. *)
Record Destination := {
  d_entityTypesAndEvents : value;
  d_subscriberId : string;
  d_space : option value;
  d_options : option Options
}.

Record Headers := {
  h_id : string;
  h_receipt : string;
  h_destination : Destination
}.

(** The closure [messageCallback] captures the ack tracker of its
    [subscribe] call and the observer of its [observable.subscribe]
    call. *)
Record MessageCallback := { mc_tracker : nat; mc_observer : nat }.

Record Subscription := {
  subscriberId : string;
  entityTypesAndEvents : value;
  messageCallback : MessageCallback;
  headers : Headers
}.

Record Receipt := { clientSubscribeCallback : Callback }.

(** The fields of [this] that the subscription side of the client
    reads or writes. *)
Record Client := {
  apiKey_id : string;
  apiKey_secret : string;
  stompHost : string;
  stompPort : Z;
  spaceName : value;
  subscriptions : Table.t Subscription;
  receipts : Table.t Receipt;
  reconnectInterval : Z;
  reconnectIntervalStart : Z;
  stompClient : option nat;
  connectionCount : nat;
  _connPromise : option nat;
  closed : bool
}.

(** The decoded event [makeEvent] builds. *)
Record Event := {
  eventId : value;
  eventType : value;
  entityId : value;
  swimlane : value;
  eventData : value;
  eventToken : value;
  ack : string
}.

Inductive MakeEventResult :=
| ResEvent (event : Event)
| ResError (error : JsError).

(** What an Rx observer is told. *)
Inductive Notification :=
| OnNext (event : Event)
| OnError (error : JsError).

(** The observer handed to the function given to
    [Rx.Observable.create]: Rx 4 wraps the application's observer so
    that nothing is passed on once the sequence has ended. *)
Record Observer := { isStopped : bool }.

(** The two places that wait on the connection promise. *)
Inductive Reaction :=
| RSubscribe (sid : string) (callback : Callback)
| RReconnect.

Inductive PromiseState :=
| Pending
| Fulfilled
| Rejected (reason : option JsError).

Record Promise := { state : PromiseState; reactions : list Reaction }.

Record Job := { j_reaction : Reaction; j_outcome : PromiseState }.

(** Everything observable from outside the client, in the order it
    happens. *)
Inductive Effect :=
| NewStomp (stomp : nat)
| StompConnect (stomp : nat)
| StompSubscribe (stomp : nat) (h : Headers)
| StompAck (stomp : nat) (tok : string)
| StompDisconnect (stomp : nat)
| SetTimeout (delay : Z)
| CallCallback (cb : Callback) (args : CallbackArgs)
| TrackerAdd (tracker : nat) (tok : string)
| MakeEvent (eventStr : string)
| Delivered (observer : nat) (n : Notification)
| LoggedError
| Threw (e : JsError).

Record World := {
  client : Client;
  promises : list Promise;
  (** the Stomp objects built so far; entry [k] is the promise whose
      [resolve] the handlers of object [k] close over *)
  stomps : list nat;
  trackers : list AckOrderTracker.t;
  observers : list Observer;
  jobs : list Job;
  (** the delays of the [setTimeout] callbacks that have not run yet *)
  timers : list Z;
  trace : list Effect
}.

(** The constructor, for the given configuration; it leaves [closed]
    unset, which reads as false. *)
Definition new_client (id secret host : string) (port : Z) (space : value)
  : Client :=
  {| apiKey_id := id; apiKey_secret := secret;
     stompHost := host; stompPort := port; spaceName := space;
     subscriptions := Table.empty; receipts := Table.empty;
     reconnectInterval := 500; reconnectIntervalStart := 500;
     stompClient := None; connectionCount := 0;
     _connPromise := None; closed := false |}.

Definition new_world (c : Client) : World :=
  {| client := c; promises := []; stomps := []; trackers := [];
     observers := []; jobs := []; timers := []; trace := [] |}.

(** ** Field updates *)

Definition set_subscriptions (x : Table.t Subscription) (c : Client) : Client :=
  {| apiKey_id := apiKey_id c; apiKey_secret := apiKey_secret c;
     stompHost := stompHost c; stompPort := stompPort c;
     spaceName := spaceName c;
     subscriptions := x; receipts := receipts c;
     reconnectInterval := reconnectInterval c;
     reconnectIntervalStart := reconnectIntervalStart c;
     stompClient := stompClient c; connectionCount := connectionCount c;
     _connPromise := _connPromise c; closed := closed c |}.

Definition set_receipts (x : Table.t Receipt) (c : Client) : Client :=
  {| apiKey_id := apiKey_id c; apiKey_secret := apiKey_secret c;
     stompHost := stompHost c; stompPort := stompPort c;
     spaceName := spaceName c;
     subscriptions := subscriptions c; receipts := x;
     reconnectInterval := reconnectInterval c;
     reconnectIntervalStart := reconnectIntervalStart c;
     stompClient := stompClient c; connectionCount := connectionCount c;
     _connPromise := _connPromise c; closed := closed c |}.

Definition set_reconnectInterval (x : Z) (c : Client) : Client :=
  {| apiKey_id := apiKey_id c; apiKey_secret := apiKey_secret c;
     stompHost := stompHost c; stompPort := stompPort c;
     spaceName := spaceName c;
     subscriptions := subscriptions c; receipts := receipts c;
     reconnectInterval := x;
     reconnectIntervalStart := reconnectIntervalStart c;
     stompClient := stompClient c; connectionCount := connectionCount c;
     _connPromise := _connPromise c; closed := closed c |}.

Definition set_stompClient (x : option nat) (c : Client) : Client :=
  {| apiKey_id := apiKey_id c; apiKey_secret := apiKey_secret c;
     stompHost := stompHost c; stompPort := stompPort c;
     spaceName := spaceName c;
     subscriptions := subscriptions c; receipts := receipts c;
     reconnectInterval := reconnectInterval c;
     reconnectIntervalStart := reconnectIntervalStart c;
     stompClient := x; connectionCount := connectionCount c;
     _connPromise := _connPromise c; closed := closed c |}.

Definition set_connectionCount (x : nat) (c : Client) : Client :=
  {| apiKey_id := apiKey_id c; apiKey_secret := apiKey_secret c;
     stompHost := stompHost c; stompPort := stompPort c;
     spaceName := spaceName c;
     subscriptions := subscriptions c; receipts := receipts c;
     reconnectInterval := reconnectInterval c;
     reconnectIntervalStart := reconnectIntervalStart c;
     stompClient := stompClient c; connectionCount := x;
     _connPromise := _connPromise c; closed := closed c |}.

Definition set_connPromise (x : option nat) (c : Client) : Client :=
  {| apiKey_id := apiKey_id c; apiKey_secret := apiKey_secret c;
     stompHost := stompHost c; stompPort := stompPort c;
     spaceName := spaceName c;
     subscriptions := subscriptions c; receipts := receipts c;
     reconnectInterval := reconnectInterval c;
     reconnectIntervalStart := reconnectIntervalStart c;
     stompClient := stompClient c; connectionCount := connectionCount c;
     _connPromise := x; closed := closed c |}.

Definition set_closed (x : bool) (c : Client) : Client :=
  {| apiKey_id := apiKey_id c; apiKey_secret := apiKey_secret c;
     stompHost := stompHost c; stompPort := stompPort c;
     spaceName := spaceName c;
     subscriptions := subscriptions c; receipts := receipts c;
     reconnectInterval := reconnectInterval c;
     reconnectIntervalStart := reconnectIntervalStart c;
     stompClient := stompClient c; connectionCount := connectionCount c;
     _connPromise := _connPromise c; closed := x |}.

Definition set_client (x : Client) (w : World) : World :=
  {| client := x; promises := promises w; stomps := stomps w;
     trackers := trackers w; observers := observers w; jobs := jobs w;
     timers := timers w; trace := trace w |}.

Definition set_promises (x : list Promise) (w : World) : World :=
  {| client := client w; promises := x; stomps := stomps w;
     trackers := trackers w; observers := observers w; jobs := jobs w;
     timers := timers w; trace := trace w |}.

Definition set_stomps (x : list nat) (w : World) : World :=
  {| client := client w; promises := promises w; stomps := x;
     trackers := trackers w; observers := observers w; jobs := jobs w;
     timers := timers w; trace := trace w |}.

Definition set_trackers (x : list AckOrderTracker.t) (w : World) : World :=
  {| client := client w; promises := promises w; stomps := stomps w;
     trackers := x; observers := observers w; jobs := jobs w;
     timers := timers w; trace := trace w |}.

Definition set_observers (x : list Observer) (w : World) : World :=
  {| client := client w; promises := promises w; stomps := stomps w;
     trackers := trackers w; observers := x; jobs := jobs w;
     timers := timers w; trace := trace w |}.

Definition set_jobs (x : list Job) (w : World) : World :=
  {| client := client w; promises := promises w; stomps := stomps w;
     trackers := trackers w; observers := observers w; jobs := x;
     timers := timers w; trace := trace w |}.

Definition set_timers (x : list Z) (w : World) : World :=
  {| client := client w; promises := promises w; stomps := stomps w;
     trackers := trackers w; observers := observers w; jobs := jobs w;
     timers := x; trace := trace w |}.

Definition set_trace (x : list Effect) (w : World) : World :=
  {| client := client w; promises := promises w; stomps := stomps w;
     trackers := trackers w; observers := observers w; jobs := jobs w;
     timers := timers w; trace := x |}.

(** ** The state-and-exception monad

    A computation reads and writes the world and either returns or
    throws; what it wrote before throwing stays written. *)

Definition M (A : Type) : Type := World -> completion A * World.

Definition ret {A} (a : A) : M A := fun w => (Normal a, w).

Definition bind {A B} (m : M A) (k : A -> M B) : M B :=
  fun w =>
    match m w with
    | (Normal a, w') => k a w'
    | (Throw e, w') => (Throw e, w')
    end.

Definition throw {A} (e : JsError) : M A := fun w => (Throw e, w).

Definition gets {A} (f : World -> A) : M A := fun w => (Normal (f w), w).

Definition modify (f : World -> World) : M unit := fun w => (Normal tt, f w).

(** Code that touches no state. *)
Definition lift {A} (c : completion A) : M A := fun w => (c, w).

(** [try { m } catch (e) { h e }]. *)
Definition catch {A} (m : M A) (h : JsError -> M A) : M A :=
  fun w =>
    match m w with
    | (Normal a, w') => (Normal a, w')
    | (Throw e, w') => h e w'
    end.

Declare Scope js_scope.
Delimit Scope js_scope with js.
Notation "x <- m ;; k" := (bind m (fun x => k))
  (at level 20, m at level 99, k at level 200, only parsing) : js_scope.
Notation "m ;; k" := (bind m (fun _ => k))
  (at level 100, k at level 200, only parsing) : js_scope.

(** The same for code that touches no state. *)
Definition cbind {A B} (m : completion A) (k : A -> completion B) : completion B :=
  match m with
  | Normal a => k a
  | Throw e => Throw e
  end.

Declare Scope completion_scope.
Delimit Scope completion_scope with cpl.
Notation "x <- m ;; k" := (cbind m (fun x => k))
  (at level 20, m at level 99, k at level 200, only parsing) : completion_scope.

Definition emit (e : Effect) : M unit :=
  modify (fun w => set_trace (trace w ++ [e]) w).

Definition modify_client (f : Client -> Client) : M unit :=
  modify (fun w => set_client (f (client w)) w).

(** [l.forEach(f)]. *)
Fixpoint forEach {A} (f : A -> M unit) (l : list A) : M unit :=
  match l with
  | [] => ret tt
  | x :: l' => (f x ;; forEach f l')%js
  end.

(** ** Promises, as far as the client uses them *)

(** [new Promise(...)]: a fresh pending promise. *)
Definition new_promise : M nat :=
  (p <- gets (fun w => length (promises w)) ;;
   modify (fun w =>
     set_promises (promises w ++ [{| state := Pending; reactions := [] |}]) w) ;;
   ret p)%js.

(** [resolve()] and [reject(reason)]: a pending promise is settled and
    a job is queued for each waiting reaction; a settled promise stays
    as it is. *)
Definition settle (p : nat) (s : PromiseState) : M unit :=
  modify (fun w =>
    match promises w !! p with
    | Some pr =>
        match state pr with
        | Pending =>
            set_jobs
              (jobs w ++
               ((fun r => {| j_reaction := r; j_outcome := s |}) <$> reactions pr))
              (set_promises
                 (<[p := {| state := s; reactions := [] |}]> (promises w)) w)
        | _ => w
        end
    | None => w
    end).

(** [p.then(onFulfilled, onRejected)]: on a pending promise the
    reaction waits; on a settled one its job is queued at once. *)
Definition then_ (p : nat) (r : Reaction) : M unit :=
  modify (fun w =>
    match promises w !! p with
    | Some pr =>
        match state pr with
        | Pending =>
            set_promises
              (<[p := {| state := Pending; reactions := reactions pr ++ [r] |}]>
                 (promises w)) w
        | s => set_jobs (jobs w ++ [{| j_reaction := r; j_outcome := s |}]) w
        end
    | None => w
    end).

(** ** Rx observers *)

(** [observer.onNext(event)]: passed on unless the sequence has ended. *)
Definition observer_onNext (o : nat) (ev : Event) : M unit :=
  (obs <- gets observers ;;
   match obs !! o with
   | Some ob =>
       if isStopped ob then ret tt
       else emit (Delivered o (OnNext ev))
   | None => ret tt
   end)%js.

(** [observer.onError(error)]: ends the sequence, once. *)
Definition observer_onError (o : nat) (e : JsError) : M unit :=
  (obs <- gets observers ;;
   match obs !! o with
   | Some ob =>
       if isStopped ob then ret tt
       else
         modify (set_observers (<[o := {| isStopped := true |}]> obs)) ;;
         emit (Delivered o (OnError e))
   | None => ret tt
   end)%js.

(** ** The methods of [EventuateClient] *)

(** The events a Stomp object emits. *)
Record Frame := { f_ack : string; f_body : list string }.

Inductive StompEvent :=
| socketConnected
| connected
| disconnected
| message (frame : Frame)
| receipt (receiptId : string)
| error.

(** What [subscribe] hands back: the tracker that [acknowledge] closes
    over, and the arguments that the function given to
    [Rx.Observable.create] closes over. *)
Record Handle := {
  hd_subscriberId : string;
  hd_filter : value;
  hd_options : option Options;
  hd_callback : Callback;
  hd_tracker : nat
}.

Inductive SubscribeResult :=
| CallbackReturned
| Subscribed (h : Handle).

Section Methods.
Context {host : Host}.

Local Open Scope js_scope.

(** [makeEvent(eventStr, ack)], the body of its [try]. *)
Definition makeEvent_try (eventStr : string) (ack : string) : completion Event :=
  (parsed <- match JSON_parse eventStr with
             | Some v => Normal v
             | None => Throw SyntaxError
             end ;;
   eventId <- get parsed "id" ;;
   eventType <- get parsed "eventType" ;;
   entityId <- get parsed "entityId" ;;
   eventDataStr <- get parsed "eventData" ;;
   swimlane <- get parsed "swimlane" ;;
   eventToken <- get parsed "eventToken" ;;
   eventData <- match JSON_parse (to_string eventDataStr) with
                | Some v => Normal v
                | None => Throw SyntaxError
                end ;;
   Normal {| eventId := eventId; eventType := eventType;
             entityId := entityId; swimlane := swimlane;
             eventData := eventData; eventToken := eventToken;
             ack := ack |})%cpl.

(** [makeEvent(eventStr, ack)]. *)
Definition makeEvent (eventStr : string) (ack : string) : MakeEventResult :=
  match makeEvent_try eventStr ack with
  | Normal event => ResEvent event
  | Throw err => ResError err
  end.

(** The callback given to [events.every] in [checkEvents]. *)
Definition checkEvent (e : value) : completion bool :=
  (eventType <- get e "eventType" ;;
   eventData <- get e "eventData" ;;
   if negb (truthy eventType) || negb (truthy eventData) then Normal false
   else
     match typeof eventData with
     | TString =>
         match JSON_parse (to_string eventData) with
         | None => Normal false
         | Some ed =>
             keys <- Object_keys ed ;;
             if (length keys =? 0)%nat then Normal false else Normal true
         end
     | TObject =>
         keys <- Object_keys (Object_assign_empty eventData) ;;
         if (length keys =? 0)%nat then Normal false else Normal true
     | _ => Normal false
     end)%cpl.

(** [l.every(f)] for a callback that may throw. *)
Fixpoint every (f : value -> completion bool) (l : list value) : completion bool :=
  match l with
  | [] => Normal true
  | x :: l' => (b <- f x ;; if b then every f l' else Normal false)%cpl
  end.

(** [checkEvents(events)]. *)
Definition checkEvents (events : value) : completion bool :=
  match events with
  | VArray l => if (length l =? 0)%nat then Normal false else every checkEvent l
  | _ => Normal false
  end.

(** [invariant(port && host && login && passcode && heartBeat && timeout, ...)]
    of [connectToStompServer]; [heartBeat] and [timeout] are constants. *)
Definition stomp_parameters_ok (c : Client) : bool :=
  negb (stompPort c =? 0)%Z && negb (String.eqb (stompHost c) EmptyString)
  && negb (String.eqb (apiKey_id c) EmptyString) && negb (String.eqb (apiKey_secret c) EmptyString).

(** The function given to [new Promise] in [connectToStompServer]; an
    exception thrown in it rejects the promise. *)
Definition connect_executor (p : nat) : M unit :=
  c <- gets client ;;
  if closed c then settle p (Rejected None)
  else if negb (stomp_parameters_ok c)
  then settle p (Rejected (Some (InvariantViolation "Incorrect STOMP connection parameters")))
  else
    s <- gets (fun w => length (stomps w)) ;;
    modify (fun w => set_stomps (stomps w ++ [p]) w) ;;
    emit (NewStomp s) ;;
    modify_client (set_stompClient (Some s)) ;;
    emit (StompConnect s).

(** [connectToStompServer()]; the result is the promise returned. *)
Definition connectToStompServer : M nat :=
  c <- gets client ;;
  match _connPromise c with
  | Some p => ret p
  | None =>
      p <- new_promise ;;
      connect_executor p ;;
      modify_client (set_connPromise (Some p)) ;;
      ret p
  end.

(** [reconnectStompServer(interval)]: the callback is parked in
    [timers] until the timer fires. *)
Definition reconnectStompServer (interval : Z) : M unit :=
  modify (fun w => set_timers (timers w ++ [interval]) w) ;;
  emit (SetTimeout interval).

(** [addReceipt(receipt, clientSubscribeCallback)], for the names
    [addSubscription] gives a receipt: they start with [receipt-id-],
    so that [this.receipts[receipt]] reads an own property or nothing.
    An entry that is there has its callback replaced, a new one goes
    last. *)
Definition addReceipt (r : string) (cb : Callback) : M unit :=
  modify_client (fun c =>
    set_receipts
      (Table.assign r {| clientSubscribeCallback := cb |} (receipts c)) c).

(** [addSubscription(...)]; [uniqueId] is what [uuid.v1()] returned,
    dashes removed.  The empty object the first lines put under a name
    that reads [undefined] is replaced by the last assignment before
    anything reads it, and takes the place in the table that this
    assignment gives the name anyway; where the name does not read
    [undefined] nothing is put there. *)
Definition addSubscription (sid : string) (f : value) (mc : MessageCallback)
    (o : option Options) (cb : Callback) (uniqueId : string) : M unit :=
  c <- gets client ;;
  let destination :=
    {| d_entityTypesAndEvents := f; d_subscriberId := sid;
       d_space := if truthy (spaceName c) then Some (spaceName c) else None;
       d_options := o |} in
  let id := "subscription-id-" +:+ uniqueId in
  let r := "receipt-id-" +:+ uniqueId in
  addReceipt r cb ;;
  modify_client (fun c =>
    set_subscriptions
      (Table.assign sid
         {| subscriberId := sid; entityTypesAndEvents := f;
            messageCallback := mc;
            headers := {| h_id := id; h_receipt := r;
                          h_destination := destination |} |}
         (subscriptions c)) c).

(** [doClientSubscribe(subscriberId)]. *)
Definition doClientSubscribe (sid : string) : M unit :=
  c <- gets client ;;
  own <- lift (Table.hasOwnProperty (subscriptions c) sid) ;;
  if negb own then emit LoggedError
  else
    match Table.lookup sid (subscriptions c), stompClient c with
    | Some sub, Some s => emit (StompSubscribe s (headers sub))
    | _, _ => throw TypeError
    end.

(** [disconnect()]. *)
Definition disconnect : M unit :=
  modify_client (set_closed true) ;;
  c <- gets client ;;
  match _connPromise c with
  | None => throw (InvariantViolation "Disconnect without connection promise spotted.")
  | Some _ =>
      match stompClient c with
      | Some s => emit (StompDisconnect s)
      | None => ret tt
      end
  end.

(** [ackOrderTracker.add(token)] on the tracker object [t]. *)
Definition tracker_add (t : nat) (tok : string) : M unit :=
  ts <- gets trackers ;;
  match ts !! t with
  | Some q => modify (set_trackers (<[t := AckOrderTracker.add tok q]> ts))
  | None => ret tt
  end ;;
  emit (TrackerAdd t tok).

(** [ackOrderTracker.ack(token)] on the tracker object [t]. *)
Definition tracker_ack (t : nat) (tok : string) : M (list string) :=
  ts <- gets trackers ;;
  match ts !! t with
  | Some q =>
      modify (set_trackers (<[t := (AckOrderTracker.ack tok q).2]> ts)) ;;
      ret (AckOrderTracker.ack tok q).1
  | None => ret []
  end.

(** The [acknowledge] function of a handle: the tracker is asked first,
    then [this.stompClient.ack] is read, then the release list is
    walked. *)
Definition acknowledge (t : nat) (tok : string) : M unit :=
  out <- tracker_ack t tok ;;
  c <- gets client ;;
  match stompClient c with
  | None => throw TypeError
  | Some s => forEach (fun x => emit (StompAck s x)) out
  end.

(** The [body.forEach] of [messageCallback]: the [return] in its
    callback ends the callback, not the loop. *)
Definition decode_records (o : nat) (ack : string) (body : list string) : M unit :=
  forEach
    (fun eventStr =>
       emit (MakeEvent eventStr) ;;
       match makeEvent eventStr ack with
       | ResError e => observer_onError o e
       | ResEvent ev => observer_onNext o ev
       end)
    body.

(** [messageCallback(body, headers)] of [observableCreateAndSubscribe]. *)
Definition run_messageCallback (mc : MessageCallback) (body : list string)
    (ack : string) : M unit :=
  tracker_add (mc_tracker mc) ack ;;
  decode_records (mc_observer mc) ack body.

(** [subscribe(subscriberId, entityTypesAndEvents, options, callback)],
    after the shuffle of its first lines: a call with three arguments
    has its callback in [cb] and no options. *)
Definition subscribe (sid : string) (f : value) (o : option Options)
    (cb : Callback) : M SubscribeResult :=
  t <- gets (fun w => length (trackers w)) ;;
  modify (fun w => set_trackers (trackers w ++ [AckOrderTracker.empty]) w) ;;
  invalid <- lift (if String.eqb sid EmptyString then Normal true
                   else (keys <- Object_keys f ;;
                         Normal (length keys =? 0)%nat)%cpl) ;;
  if (invalid : bool)
  then
    emit (CallCallback cb (CbError (Some (Error "Incorrect input parameters")))) ;;
    ret CallbackReturned
  else
    ret (Subscribed {| hd_subscriberId := sid; hd_filter := f; hd_options := o;
                       hd_callback := cb; hd_tracker := t |}).

(** [observable.subscribe(observer)]: Rx runs the function built by
    [observableCreateAndSubscribe] with a fresh observer. *)
Definition observable_subscribe (h : Handle) (uniqueId : string) : M unit :=
  o <- gets (fun w => length (observers w)) ;;
  modify (fun w => set_observers (observers w ++ [{| isStopped := false |}]) w) ;;
  addSubscription (hd_subscriberId h) (hd_filter h)
    {| mc_tracker := hd_tracker h; mc_observer := o |}
    (hd_options h) (hd_callback h) uniqueId ;;
  p <- connectToStompServer ;;
  then_ p (RSubscribe (hd_subscriberId h) (hd_callback h)).

(** The handlers [connectToStompServer] registers on the Stomp object
    it builds; [p] is the promise they close over. *)
Definition on_stomp_event (p : nat) (ev : StompEvent) : M unit :=
  match ev with
  | socketConnected =>
      modify_client (fun c => set_reconnectInterval (reconnectIntervalStart c) c)
  | connected =>
      settle p Fulfilled ;;
      modify_client (fun c => set_connectionCount (S (connectionCount c)) c)
  | disconnected =>
      modify_client (set_stompClient None) ;;
      modify_client (set_connPromise None) ;;
      c <- gets client ;;
      if closed c then ret tt
      else
        (if (reconnectInterval c <? 16000)%Z
         then modify_client (set_reconnectInterval (reconnectInterval c * 2))
         else ret tt) ;;
        c' <- gets client ;;
        reconnectStompServer (reconnectInterval c')
  | message frame =>
      ack <- lift match JSON_parse (unEscapeStr (f_ack frame)) with
                  | Some v => Normal v
                  | None => Throw SyntaxError
                  end ;;
      receiptHandle <- lift (get ack "receiptHandle") ;;
      sid <- lift (get receiptHandle "subscriberId") ;;
      c <- gets client ;;
      own <- lift (Table.hasOwnProperty (subscriptions c) (to_string sid)) ;;
      if own
      then
        match Table.lookup (to_string sid) (subscriptions c) with
        | Some sub =>
            run_messageCallback (messageCallback sub) (f_body frame) (f_ack frame)
        | None => throw TypeError
        end
      else emit LoggedError
  | receipt receiptId =>
      c <- gets client ;;
      own <- lift (Table.hasOwnProperty (receipts c) receiptId) ;;
      if own
      then
        match Table.lookup receiptId (receipts c) with
        | Some r =>
            emit (CallCallback (clientSubscribeCallback r) (CbReceipt receiptId))
        | None => throw TypeError
        end
      else ret tt
  | error => emit LoggedError ;; emit LoggedError
  end.

(** The body of the loop that subscribes again:
    [if (this.subscriptions.hasOwnProperty(subscriberId)) ...]. *)
Definition resubscribe (sid : string) : M unit :=
  c <- gets client ;;
  own <- lift (Table.hasOwnProperty (subscriptions c) sid) ;;
  if own then doClientSubscribe sid else ret tt.

(** The body of the loop that reports a failed reconnect:
    [if (this.receipts.hasOwnProperty(receipt)) ...]. *)
Definition report (reason : option JsError) (r : string) : M unit :=
  c <- gets client ;;
  own <- lift (Table.hasOwnProperty (receipts c) r) ;;
  if own
  then
    match Table.lookup r (receipts c) with
    | Some rc => emit (CallCallback (clientSubscribeCallback rc) (CbError reason))
    | None => throw TypeError
    end
  else ret tt.

(** One promise job: the fulfilled or the rejected branch of the
    [then] it comes from.  The two [for ... in] loops of
    [reconnectStompServer] walk the names of their table in the order
    of [Table.for_in]. *)
Definition run_job (j : Job) : M unit :=
  match j_reaction j, j_outcome j with
  | RSubscribe sid cb, Fulfilled => doClientSubscribe sid
  | RSubscribe sid cb, Rejected reason => emit (CallCallback cb (CbError reason))
  | RReconnect, Fulfilled =>
      c <- gets client ;;
      forEach resubscribe (Table.for_in (subscriptions c)).*1
  | RReconnect, Rejected reason =>
      c <- gets client ;;
      forEach (report reason) (Table.for_in (receipts c)).*1
  | _, Pending => ret tt
  end.

(** The callback [reconnectStompServer] gave to [setTimeout]. *)
Definition reconnect_timer : M unit :=
  p <- connectToStompServer ;;
  then_ p RReconnect.

End Methods.

(** ** The operations of the environment *)

(** What the application, the Stomp objects, the timer queue and the
    promise job queue can do to the client. *)
Inductive Op :=
| OpSubscribe (sid : string) (f : value) (o : option Options) (cb : Callback)
| OpObservableSubscribe (h : Handle) (uniqueId : string)
| OpAcknowledge (tracker : nat) (tok : string)
| OpConnect
| OpDisconnect
| OpStomp (stomp : nat) (ev : StompEvent)
| OpTimer (k : nat)
| OpJobs.

Section Steps.
Context {host : Host}.

Local Open Scope js_scope.

(** A job whose reaction throws leaves an unhandled rejection behind
    and does not stop the jobs after it. *)
Definition run_job_caught (j : Job) : M unit :=
  catch (run_job j) (fun e => emit (Threw e)).

Definition perform (op : Op) : M unit :=
  match op with
  | OpSubscribe sid f o cb => _ <- subscribe sid f o cb ;; ret tt
  | OpObservableSubscribe h u => observable_subscribe h u
  | OpAcknowledge t tok => acknowledge t tok
  | OpConnect => _ <- connectToStompServer ;; ret tt
  | OpDisconnect => disconnect
  | OpStomp s ev =>
      ss <- gets stomps ;;
      match ss !! s with
      | Some p => on_stomp_event p ev
      | None => ret tt
      end
  | OpTimer k =>
      tms <- gets timers ;;
      match tms !! k with
      | Some _ => modify (set_timers (delete k tms)) ;; reconnect_timer
      | None => ret tt
      end
  | OpJobs =>
      js <- gets jobs ;;
      modify (set_jobs []) ;;
      forEach run_job_caught js
  end.

(** One operation; an exception that escapes it is recorded. *)
Definition step (w : World) (op : Op) : World :=
  (catch (perform op) (fun e => emit (Threw e)) w).2.

Definition run (ops : list Op) (w : World) : World := foldl step w ops.

End Steps.

(** The delays handed to [setTimeout], in order. *)
Definition delays (tr : list Effect) : list Z :=
  omap (fun e => match e with SetTimeout d => Some d | _ => None end) tr.

(** The tokens handed to the ack call of the Stomp objects, in order. *)
Definition acked (tr : list Effect) : list string :=
  omap (fun e => match e with StompAck _ tok => Some tok | _ => None end) tr.

(** The arguments of the calls made to callback [cb], in order. *)
Definition calls_of (cb : Callback) (tr : list Effect) : list CallbackArgs :=
  omap (fun e => match e with
                 | CallCallback cb' args => if (cb' =? cb)%nat then Some args else None
                 | _ => None
                 end) tr.

(** The callbacks called with an error, in order. *)
Definition failed_calls (tr : list Effect) : list Callback :=
  omap (fun e => match e with
                 | CallCallback cb (CbError _) => Some cb
                 | _ => None
                 end) tr.

(** The subscribers a subscribe frame has been sent for on Stomp
    object [s], in order. *)
Definition subscribed_on (s : nat) (tr : list Effect) : list string :=
  omap (fun e => match e with
                 | StompSubscribe s' hs =>
                     if (s' =? s)%nat then Some (d_subscriberId (h_destination hs))
                     else None
                 | _ => None
                 end) tr.

(** What observer [o] has been told, in order. *)
Definition delivered_to (o : nat) (tr : list Effect) : list Notification :=
  omap (fun e => match e with
                 | Delivered o' n => if (o' =? o)%nat then Some n else None
                 | _ => None
                 end) tr.

(** The records handed to [makeEvent], in order. *)
Definition decoded (tr : list Effect) : list string :=
  omap (fun e => match e with MakeEvent s => Some s | _ => None end) tr.

(** ** A reference host

    The theorems below hold for every [Host].  Concrete runs need one:
    this is a JSON reader for the grammar of RFC 8259 without [\u]
    escapes, with [ToString] spelled out for the values the examples
    use, and ack headers that carry no escaped characters. *)

Module Reference.

Fixpoint skip_ws (s : string) : string :=
  match s with
  | String " "%char s' | String "009"%char s'
  | String "010"%char s' | String "013"%char s' => skip_ws s'
  | _ => s
  end.

Definition digit (c : ascii) : option Z :=
  let n := Z.of_nat (nat_of_ascii c) in
  if (48 <=? n) && (n <=? 57) then Some (n - 48) else None.

(** Reads digits; the result is the number read so far, how many
    digits were read, and what follows them. *)
Fixpoint digits (acc : Z) (count : Z) (s : string) : Z * Z * string :=
  match s with
  | String c s' =>
      match digit c with
      | Some d => digits (acc * 10 + d) (count + 1) s'
      | None => (acc, count, s)
      end
  | EmptyString => (acc, count, s)
  end.

Definition parse_exponent (s : string) : option (Z * string) :=
  match s with
  | String "e"%char s' | String "E"%char s' =>
      let '(sign, s'') :=
        match s' with
        | String "-"%char r => (-1, r)
        | String "+"%char r => (1, r)
        | _ => (1, s')
        end in
      let '(e, n, rest) := digits 0 0 s'' in
      if n =? 0 then None else Some (sign * e, rest)
  | _ => Some (0, s)
  end.

Definition parse_number (s : string) : option (value * string) :=
  let '(sign, s1) :=
    match s with
    | String "-"%char r => (-1, r)
    | _ => (1, s)
    end in
  let '(i, n, s2) := digits 0 0 s1 in
  let leading_zero :=
    match s1 with
    | String "0"%char _ => true
    | _ => false
    end in
  if (n =? 0) || (leading_zero && (1 <? n)) then None
  else
    '(m, k, s3) ←
      match s2 with
      | String "."%char r =>
          let '(m, k, rest) := digits i 0 r in
          if k =? 0 then None else Some (m, k, rest)
      | _ => Some (i, 0, s2)
      end;
    '(e, s4) ← parse_exponent s3;
    Some (VNumber {| mantissa := sign * m; exponent10 := e - k |}, s4).

(** The characters of a string literal after its opening quote. *)
Fixpoint parse_chars (s : string) : option (string * string) :=
  match s with
  | String "034"%char rest => Some (EmptyString, rest)
  | String "\"%char (String c s') =>
      c' ← match c with
           | "034"%char => Some "034"%char
           | "\"%char => Some "\"%char
           | "/"%char => Some "/"%char
           | "b"%char => Some "008"%char
           | "f"%char => Some "012"%char
           | "n"%char => Some "010"%char
           | "r"%char => Some "013"%char
           | "t"%char => Some "009"%char
           | _ => None
           end;
      '(r, rest) ← parse_chars s';
      Some (String c' r, rest)
  | String c s' =>
      if (nat_of_ascii c <? 32)%nat then None
      else '(r, rest) ← parse_chars s'; Some (String c r, rest)
  | EmptyString => None
  end.

(** [o[k] = v] on the fields of an object. *)
Fixpoint set_field (k : string) (v : value) (fs : list (string * value))
  : list (string * value) :=
  match fs with
  | [] => [(k, v)]
  | (k', v') :: fs' =>
      if String.eqb k k' then (k, v) :: fs' else (k', v') :: set_field k v fs'
  end.

Definition strip (p s : string) : option string :=
  if String.prefix p s
  then Some (String.substring (String.length p) (String.length s - String.length p) s)
  else None.

Fixpoint parse_value (n : nat) (s : string) {struct n} : option (value * string) :=
  match n with
  | O => None
  | S n' =>
      match s with
      | String "n"%char _ => r ← strip "null" s; Some (VNull, r)
      | String "t"%char _ => r ← strip "true" s; Some (VBool true, r)
      | String "f"%char _ => r ← strip "false" s; Some (VBool false, r)
      | String "034"%char s' => '(x, r) ← parse_chars s'; Some (VString x, r)
      | String "["%char s' =>
          match skip_ws s' with
          | String "]"%char r => Some (VArray [], r)
          | s'' => '(l, r) ← parse_elements n' s''; Some (VArray l, r)
          end
      | String "{"%char s' =>
          match skip_ws s' with
          | String "}"%char r => Some (VObject [], r)
          | s'' => '(fs, r) ← parse_members n' [] s''; Some (VObject fs, r)
          end
      | _ => parse_number s
      end
  end
with parse_elements (n : nat) (s : string) {struct n} : option (list value * string) :=
  match n with
  | O => None
  | S n' =>
      '(v, r) ← parse_value n' s;
      match skip_ws r with
      | String ","%char r' => '(l, r'') ← parse_elements n' (skip_ws r'); Some (v :: l, r'')
      | String "]"%char r' => Some ([v], r')
      | _ => None
      end
  end
with parse_members (n : nat) (acc : list (string * value)) (s : string) {struct n}
  : option (list (string * value) * string) :=
  match n with
  | O => None
  | S n' =>
      match s with
      | String "034"%char s' =>
          '(k, r) ← parse_chars s';
          match skip_ws r with
          | String ":"%char r' =>
              '(v, r'') ← parse_value n' (skip_ws r');
              let acc' := set_field k v acc in
              match skip_ws r'' with
              | String ","%char r3 => parse_members n' acc' (skip_ws r3)
              | String "}"%char r3 => Some (acc', r3)
              | _ => None
              end
          | _ => None
          end
      | _ => None
      end
  end.

(** [JSON.parse(s)]. *)
Definition parse (s : string) : option value :=
  '(v, r) ← parse_value (2 * String.length s + 2) (skip_ws s);
  match skip_ws r with
  | EmptyString => Some v
  | _ => None
  end.

Definition join (sep : string) (l : list string) : string :=
  match l with
  | [] => EmptyString
  | x :: l' => foldl (fun acc y => acc +:+ sep +:+ y) x l'
  end.

(** [String(v)]; a number is spelled exactly when it is an integer
    written without exponent. *)
Fixpoint to_String (v : value) : string :=
  match v with
  | VUndefined => "undefined"
  | VNull => "null"
  | VBool true => "true"
  | VBool false => "false"
  | VNumber n =>
      if exponent10 n =? 0 then pretty (mantissa n)
      else pretty (mantissa n) +:+ "e" +:+ pretty (exponent10 n)
  | VString s => s
  | VArray l =>
      join ","
        ((fix elements (l : list value) : list string :=
            match l with
            | [] => []
            | (VUndefined | VNull) :: l' => EmptyString :: elements l'
            | x :: l' => to_String x :: elements l'
            end) l)
  | VObject _ => "[object Object]"
  end.

Definition host : Host :=
  {| JSON_parse := parse; ToString := to_String; unEscapeStr := fun s => s |}.

End Reference.

(** ** The encryption codec *)

Module Encryption.

(** Modelled from the spec: the module [./Encryption] is exercised by
    [test/Encryption-spec.js] but its source is not available.  Texts
    are byte strings, the UTF-8 form of the JavaScript strings;
    ciphertext is hex, as in the fixtures of the tests.  These are the
    failure conditions the spec names for the module. *)
Inductive failure := KeyNotFound | FormatError | CipherError.

Inductive result (A : Type) :=
| Ok (a : A)
| Fail (e : failure).
Arguments Ok {A} a.
Arguments Fail {A} e.

Definition rbind {A B} (m : result A) (k : A -> result B) : result B :=
  match m with
  | Ok a => k a
  | Fail e => Fail e
  end.

Declare Scope result_scope.
Delimit Scope result_scope with res.
Notation "x <- m ;; k" := (rbind m (fun x => k))
  (at level 20, m at level 99, k at level 200, only parsing) : result_scope.

Definition bytes := list ascii.

(** Modelled from the spec: the fixed envelope prefix marker that
    [isEncrypted] recognises, as the tests spell it. *)
Definition prefixMarker : string := "__ENCRYPTED__".

(** Modelled from the spec: the block size of the cipher behind
    [cipher] and [decipher] of the missing module. *)
Definition block_size : nat := 16.

(** Modelled from the spec: "a symmetric block cipher ... keyed by
    secret and the given IV (both supplied as encoded strings)": a
    keyed permutation of blocks, which the missing module takes from
    the platform's crypto library, and the decoding of the two
    strings, whose encoding the spec does not name. *)
Class BlockCipher := {
  decode_key : string -> option bytes;
  decode_iv : string -> option bytes;
  key_ok : bytes -> bool;
  encrypt_block : bytes -> bytes -> bytes;
  decrypt_block : bytes -> bytes -> bytes
}.

(** Modelled from the spec: under a valid key, enciphering maps blocks
    to blocks and deciphering undoes it. *)
Class BlockCipherLaws (bc : BlockCipher) : Prop := {
  encrypt_block_length : forall k b,
    key_ok k = true -> length b = block_size ->
    length (encrypt_block k b) = block_size;
  decrypt_encrypt_block : forall k b,
    key_ok k = true -> length b = block_size ->
    decrypt_block k (encrypt_block k b) = b
}.

(** Modelled from the spec: the envelope
    [{encryptionKeyId, data, salt?}] of the missing module. *)
Record Envelope := {
  encryptionKeyId : string;
  data : string;
  salt : option string
}.

(** Modelled from the spec: the envelope travels as JSON, written by
    [JSON.stringify] and read by [JSON.parse]; the value of the legacy
    initialisation vector is left open by the spec. *)
Class EnvelopeFormat := {
  stringify : Envelope -> string;
  parse : string -> option Envelope;
  legacy_iv : string
}.

(** Modelled from the spec: [JSON.parse] reads back what
    [JSON.stringify] wrote. *)
Class EnvelopeFormatLaws (ef : EnvelopeFormat) : Prop := {
  parse_stringify : forall e, parse (stringify e) = Some e
}.

(** *** Hex encoding of byte strings *)

Definition hex_digit (n : N) : ascii :=
  match n with
  | 0 => "0" | 1 => "1" | 2 => "2" | 3 => "3" | 4 => "4" | 5 => "5"
  | 6 => "6" | 7 => "7" | 8 => "8" | 9 => "9" | 10 => "a" | 11 => "b"
  | 12 => "c" | 13 => "d" | 14 => "e" | _ => "f"
  end%N%char.

Definition hex_value (c : ascii) : option N :=
  let n := N_of_ascii c in
  (if (48 <=? n) && (n <=? 57) then Some (n - 48)
   else if (97 <=? n) && (n <=? 102) then Some (n - 87)
   else if (65 <=? n) && (n <=? 70) then Some (n - 55)
   else None)%N.

Fixpoint hex_encode (b : bytes) : string :=
  match b with
  | [] => EmptyString
  | c :: b' =>
      String (hex_digit (N_of_ascii c / 16))
        (String (hex_digit (N_of_ascii c mod 16)) (hex_encode b'))
  end%N.

Fixpoint hex_decode (s : string) : option bytes :=
  match s with
  | EmptyString => Some []
  | String c1 (String c2 s') =>
      h ← hex_value c1;
      l ← hex_value c2;
      b ← hex_decode s';
      Some (ascii_of_N (16 * h + l)%N :: b)
  | _ => None
  end.

(** *** Padding and chaining *)

Definition ascii_xor (a b : ascii) : ascii :=
  match a, b with
  | Ascii a0 a1 a2 a3 a4 a5 a6 a7, Ascii b0 b1 b2 b3 b4 b5 b6 b7 =>
      Ascii (xorb a0 b0) (xorb a1 b1) (xorb a2 b2) (xorb a3 b3)
            (xorb a4 b4) (xorb a5 b5) (xorb a6 b6) (xorb a7 b7)
  end.

Definition xor_block (a b : bytes) : bytes := zip_with ascii_xor a b.

(** Modelled from the spec: "standard block padding": the text is
    filled up to a whole number of blocks with [n] bytes of value
    [n], [1 <= n <= block_size]. *)
Definition pad (b : bytes) : bytes :=
  let n := (block_size - length b mod block_size)%nat in
  b ++ replicate n (ascii_of_nat n).

(** Modelled from the spec: removing the padding checks it. *)
Definition unpad (b : bytes) : option bytes :=
  match last b with
  | None => None
  | Some c =>
      let n := nat_of_ascii c in
      if ((1 <=? n) && (n <=? block_size) && (n <=? length b))%nat
      then
        if bool_decide (drop (length b - n) b = replicate n c)
        then Some (take (length b - n) b)
        else None
      else None
  end.

(** Cuts a byte string into blocks; [n] bounds the number of blocks. *)
Fixpoint blocks (n : nat) (b : bytes) : list bytes :=
  match n with
  | O => []
  | S n' =>
      match b with
      | [] => []
      | _ => take block_size b :: blocks n' (drop block_size b)
      end
  end.

Section Codec.
Context {bc : BlockCipher} {ef : EnvelopeFormat}.

(** Modelled from the spec: CBC mode, each block is combined with the
    previous ciphertext block (the IV for the first) before it is
    enciphered. *)
Fixpoint cbc_encrypt (k prev : bytes) (bs : list bytes) : list bytes :=
  match bs with
  | [] => []
  | b :: bs' =>
      let c := encrypt_block k (xor_block b prev) in
      c :: cbc_encrypt k c bs'
  end.

Fixpoint cbc_decrypt (k prev : bytes) (cs : list bytes) : list bytes :=
  match cs with
  | [] => []
  | c :: cs' => xor_block (decrypt_block k c) prev :: cbc_decrypt k c cs'
  end.

(** Modelled from the spec: key and IV arrive as encoded strings; an
    invalid key or IV length is a [CipherError]. *)
Definition decode_key_iv (secret iv : string) : result (bytes * bytes) :=
  match decode_key secret, decode_iv iv with
  | Some k, Some v =>
      if key_ok k && (length v =? block_size)%nat then Ok (k, v)
      else Fail CipherError
  | _, _ => Fail CipherError
  end.

(** Modelled from the spec: "every valid key/iv pair": a pair that
    [cipher] and [decipher] of the missing module do not refuse. *)
Definition valid_key_iv (secret iv : string) : bool :=
  match decode_key_iv secret iv with
  | Ok _ => true
  | Fail _ => false
  end.

(** Modelled from the spec: [cipher(secret, iv, plaintext)] of the
    missing module. *)
Definition cipher (secret iv text : string) : result string :=
  (kv <- decode_key_iv secret iv ;;
   let '(k, v) := kv in
   let p := pad (list_ascii_of_string text) in
   Ok (hex_encode (concat (cbc_encrypt k v (blocks (length p) p)))))%res.

(** Modelled from the spec: [decipher(secret, iv, ciphertext)] of the
    missing module. *)
Definition decipher (secret iv ciphertext : string) : result string :=
  (kv <- decode_key_iv secret iv ;;
   let '(k, v) := kv in
   match hex_decode ciphertext with
   | None => Fail CipherError
   | Some c =>
       if negb (length c mod block_size =? 0)%nat then Fail CipherError
       else
         match unpad (concat (cbc_decrypt k v (blocks (length c) c))) with
         | Some p => Ok (string_of_list_ascii p)
         | None => Fail CipherError
         end
   end)%res.

(** Modelled from the spec: [isEncrypted(value)] of the missing
    module. *)
Definition isEncrypted (s : string) : bool := String.prefix prefixMarker s.

(** Modelled from the spec: [findKey(keyId)] of the missing module,
    against the key store. *)
Definition findKey (store : gmap string string) (keyId : string) : result string :=
  match store !! keyId with
  | Some secret => Ok secret
  | None => Fail KeyNotFound
  end.

(** Modelled from the spec: [encrypt(keyId, plaintext)] of the missing
    module; [fresh_salt] is the salt it drew. *)
Definition encrypt (store : gmap string string) (fresh_salt : string)
    (keyId text : string) : result string :=
  (secret <- findKey store keyId ;;
   c <- cipher secret fresh_salt text ;;
   Ok (prefixMarker +:+
       stringify {| encryptionKeyId := keyId; data := c; salt := Some fresh_salt |}))%res.

(** Modelled from the spec: [decrypt(envelopeText)] of the missing
    module. *)
Definition decrypt (store : gmap string string) (s : string) : result string :=
  if isEncrypted s
  then
    match parse (String.substring (String.length prefixMarker)
                   (String.length s - String.length prefixMarker) s) with
    | None => Fail FormatError
    | Some e =>
        (secret <- findKey store (encryptionKeyId e) ;;
         decipher secret (default legacy_iv (salt e)) (data e))%res
    end
  else Fail FormatError.

End Codec.

(** A block cipher and an envelope format to run the codec with: key
    and IV are hex strings, the blocks are combined with a 16-byte
    key, and the fields of the envelope are written one after the
    other, every character behind an [x] and every field closed by a
    dot. *)

Definition xor_key_ok (k : bytes) : bool := (length k =? block_size)%nat.

Fixpoint write_field (s : string) : string :=
  match s with
  | EmptyString => "."
  | String c s' => String "x" (String c (write_field s'))
  end.

Fixpoint read_field (s : string) : option (string * string) :=
  match s with
  | String "."%char rest => Some (EmptyString, rest)
  | String "x"%char (String c s') =>
      '(f, rest) ← read_field s'; Some (String c f, rest)
  | _ => None
  end.

Definition write_envelope (e : Envelope) : string :=
  write_field (encryptionKeyId e) +:+ write_field (data e) +:+
  match salt e with
  | Some s => "s" +:+ write_field s
  | None => "n"
  end.

Definition read_envelope (s : string) : option Envelope :=
  '(k, r1) ← read_field s;
  '(d, r2) ← read_field r1;
  match r2 with
  | String "s"%char r3 =>
      '(v, r4) ← read_field r3;
      match r4 with
      | EmptyString => Some {| encryptionKeyId := k; data := d; salt := Some v |}
      | _ => None
      end
  | String "n"%char EmptyString =>
      Some {| encryptionKeyId := k; data := d; salt := None |}
  | _ => None
  end.

Definition xor_cipher : BlockCipher :=
  {| decode_key := hex_decode;
     decode_iv := hex_decode;
     key_ok := xor_key_ok;
     encrypt_block k b := xor_block b k;
     decrypt_block k b := xor_block b k |}.

Definition dotted_format : EnvelopeFormat :=
  {| stringify := write_envelope;
     parse := read_envelope;
     legacy_iv := "00000000000000000000000000000000" |}.

(** The key and the vector of [test/Encryption-spec.js]. *)
Definition test_secret : string := "82ca495329e392e2984d2268ea9fda8c".

Definition test_salt : string := "7aefb227b2ea914443c16ad6d3994ae8".

End Encryption.

(** ** Delivery as the specification words it *)

Definition is_error (r : MakeEventResult) : bool :=
  match r with
  | ResError _ => true
  | ResEvent _ => false
  end.

(** What a live event sequence is told for the decoded records of a
    frame: the events up to the first record that fails to decode,
    then the decode error, and nothing after it. *)
Fixpoint deliveries (rs : list MakeEventResult) : list Notification :=
  match rs with
  | [] => []
  | ResEvent ev :: rs' => OnNext ev :: deliveries rs'
  | ResError e :: _ => [OnError e]
  end.

(** ** Validation as the specification words it *)

(** "The filter contains at least one entity-type/event-type pair":
    an object one of whose entity types lists an event type. *)
Definition has_pair (f : value) : bool :=
  match f with
  | VObject fs =>
      existsb (fun entry => match entry.2 with
                            | VArray (_ :: _) => true
                            | _ => false
                            end) fs
  | _ => false
  end.

(** ** [checkEvents] as the specification words it *)

(** "A record (object) with at least one field". *)
Definition is_record (v : value) : bool :=
  match v with
  | VObject (_ :: _) => true
  | _ => false
  end.

Section CheckEventsSpec.
Context {host : Host}.

(** "A non-empty eventType and a non-empty eventData that either is
    already a record with at least one field, or is a string that
    parses as JSON into such a record". *)
Definition event_ok (e : value) : bool :=
  match e with
  | VObject fs =>
      truthy (field "eventType" fs) && truthy (field "eventData" fs)
      && match field "eventData" fs with
         | VString s =>
             match JSON_parse s with
             | Some v => is_record v
             | None => false
             end
         | v => is_record v
         end
  | _ => false
  end.

(** "True iff events is a non-empty ordered sequence and every
    element ...; anything else is rejected". *)
Definition checkEvents_spec (events : value) : bool :=
  match events with
  | VArray (e :: l) => forallb event_ok (e :: l)
  | _ => false
  end.

(** The inputs on which the two readings of "record" cannot part: the
    elements are not [null] or [undefined], no [eventData] is an
    array, and a string [eventData] that parses gives an object. *)
Definition plain_event (e : value) : bool :=
  match e with
  | VUndefined | VNull => false
  | VObject fs =>
      match field "eventData" fs with
      | VArray _ => false
      | VString s =>
          match JSON_parse s with
          | Some (VObject _) | None => true
          | Some _ => false
          end
      | _ => true
      end
  | _ => true
  end.

End CheckEventsSpec.

(** ** Repeated connection failures *)

(** What the [disconnected] handler makes of the interval. *)
Definition next_interval (i : Z) : Z := if i <? 16000 then i * 2 else i.

(** Doubling from 500 ms, capped at 16000 ms: 500, 1000, 2000, ... *)
Definition backoff (k : nat) : Z := Z.min 16000 (500 * 2 ^ Z.of_nat k).

Section Failures.
Context {host : Host}.

(** One failed connection: the Stomp object at hand reports
    [disconnected], the reconnect timer it causes fires, and the
    promise jobs run. *)
Definition failure (w : World) : World :=
  match stompClient (client w) with
  | Some s => run [OpStomp s disconnected; OpTimer (length (timers w)); OpJobs] w
  | None => w
  end.

Fixpoint failures (n : nat) (w : World) : World :=
  match n with
  | O => w
  | S n' => failures n' (failure w)
  end.

End Failures.

(** ** Scenarios

    A configured client, one subscriber and the frames it receives,
    for the concrete runs below. *)

Module Scenario.

Definition quote : string := String "034"%char EmptyString.

(** A JSON string literal for text that needs no escaping. *)
Definition lit (s : string) : string := quote +:+ s +:+ quote.

Definition c0 : Client :=
  new_client "login" "passcode" "stomp.example" 61614 (VString "space").

Definition w0 : World := new_world c0.

Definition filter1 : value := VObject [("EntityA", VArray [VString "Created"])].

(** The handle [subscribe("sub1", {EntityA: ['Created']}, cb7)] returns
    in [w0]. *)
Definition h1 : Handle :=
  {| hd_subscriberId := "sub1"; hd_filter := filter1; hd_options := None;
     hd_callback := 7%nat; hd_tracker := 0%nat |}.

(** An ack header that routes to subscriber [sub1]; [n] tells the
    headers of different frames apart. *)
Definition ack_header (n : string) : string :=
  "{" +:+ lit "receiptHandle" +:+ ":{" +:+ lit "subscriberId" +:+ ":"
  +:+ lit "sub1" +:+ "," +:+ lit "n" +:+ ":" +:+ n +:+ "}}".

(** An event record whose [eventData] is the JSON text of an empty
    object. *)
Definition record (id : string) : string :=
  "{" +:+ lit "id" +:+ ":" +:+ lit id +:+ "," +:+ lit "eventType" +:+ ":"
  +:+ lit "Created" +:+ "," +:+ lit "eventData" +:+ ":" +:+ lit "{}" +:+ "}".

(** One event of type [T] with the given [eventData]. *)
Definition events_with (data : value) : value :=
  VArray [VObject [("eventType", VString "T"); ("eventData", data)]].

(** Subscribe, subscribe to the event sequence, and see the connection
    and the subscribe receipt through. *)
Definition subscribed : list Op :=
  [OpSubscribe "sub1" filter1 None 7%nat; OpObservableSubscribe h1 "u1"; OpJobs;
   OpStomp 0 socketConnected; OpStomp 0 connected; OpJobs;
   OpStomp 0 (receipt "receipt-id-u1")].

(** The frame with token [ack_header "1"] arrives, then the connection
    drops. *)
Definition dropped : World :=
  run (host := Reference.host)
    (subscribed ++
     [OpStomp 0 (message {| f_ack := ack_header "1"; f_body := [record "e1"] |});
      OpStomp 0 disconnected]) w0.

(** A connected client whose tracker holds one unacknowledged token. *)
Definition holding : World :=
  set_trackers [AckOrderTracker.add "t1" AckOrderTracker.empty]
    (set_client (set_stompClient (Some 0%nat) c0) w0).

(** The first connection is up. *)
Definition up : World :=
  run (host := Reference.host)
    [OpConnect; OpStomp 0 socketConnected; OpStomp 0 connected] w0.

(** The application closes the client while the connection is up. *)
Definition closing : World := step (host := Reference.host) up OpDisconnect.

(** The subscribe receipt has been confirmed, the connection drops,
    and the application closes the client before the reconnect timer
    fires: the reconnect attempt fails. *)
Definition reconnect_failed : World :=
  run (host := Reference.host)
    (subscribed ++ [OpStomp 0 disconnected; OpDisconnect; OpTimer 0; OpJobs]) w0.

(** The subscribe receipt has been confirmed, the connection drops and
    comes back, the subscription is issued again with the headers it
    was issued with before, and the receipt for it arrives. *)
Definition resubscribed : World :=
  run (host := Reference.host)
    (subscribed ++
     [OpStomp 0 disconnected; OpTimer 0; OpJobs;
      OpStomp 1 socketConnected; OpStomp 1 connected; OpJobs;
      OpStomp 1 (receipt "receipt-id-u1")]) w0.

(** The subscription of [sub1] is in place. *)
Definition listening : World := run (host := Reference.host) subscribed w0.

(** A frame of three records, the second of which is not JSON, and a
    frame of one record after it. *)
Definition poisoned : World :=
  run (host := Reference.host)
    (subscribed ++
     [OpStomp 0 (message {| f_ack := ack_header "1";
                            f_body := [record "e1"; "oops"; record "e3"] |});
      OpStomp 0 (message {| f_ack := ack_header "2";
                            f_body := [record "e4"] |})]) w0.

(** The subscribe frame of [sub1] has been sent and its receipt has
    not arrived. *)
Definition unconfirmed : list Op :=
  [OpSubscribe "sub1" filter1 None 7%nat; OpObservableSubscribe h1 "u1"; OpJobs;
   OpStomp 0 socketConnected; OpStomp 0 connected; OpJobs].

(** With the receipt outstanding the connection drops, and three
    reconnect attempts in a row fail at the transport. *)
Definition attempts_failed : World :=
  run (host := Reference.host)
    (unconfirmed ++
     [OpStomp 0 disconnected;
      OpTimer 0; OpJobs; OpStomp 1 disconnected; OpJobs;
      OpTimer 0; OpJobs; OpStomp 2 disconnected; OpJobs;
      OpTimer 0; OpJobs; OpStomp 3 disconnected; OpJobs]) w0.

(** Four subscribers, two of them under ids that are array indices,
    each with a callback and a unique id of its own; the connection
    is established. *)
Definition handle (sid : string) (cb : Callback) (t : nat) : Handle :=
  {| hd_subscriberId := sid; hd_filter := filter1; hd_options := None;
     hd_callback := cb; hd_tracker := t |}.

Definition several : list Op :=
  [OpSubscribe "b" filter1 None 1; OpObservableSubscribe (handle "b" 1 0) "u9";
   OpSubscribe "2" filter1 None 2; OpObservableSubscribe (handle "2" 2 1) "u8";
   OpSubscribe "a" filter1 None 3; OpObservableSubscribe (handle "a" 3 2) "u7";
   OpSubscribe "10" filter1 None 4; OpObservableSubscribe (handle "10" 4 3) "u6";
   OpJobs; OpStomp 0 socketConnected; OpStomp 0 connected; OpJobs]%nat.

(** Their connection drops and comes back. *)
Definition several_back : World :=
  run (host := Reference.host)
    (several ++ [OpStomp 0 disconnected; OpTimer 0; OpStomp 1 connected; OpJobs]) w0.

(** Their connection drops, the application closes the client, and
    the reconnect timer fires. *)
Definition several_closed : World :=
  run (host := Reference.host)
    (several ++ [OpStomp 0 disconnected; OpDisconnect; OpTimer 0; OpJobs]) w0.

(** The Stomp object reports that it is disconnected. *)
Definition closed_down : World :=
  step (host := Reference.host) closing (OpStomp 0 disconnected).

End Scenario.

(** ** The command side: [create], [update], [loadEvents] *)

Module Commands.

(** [JSON.stringify] of the host, on the objects, arrays and [null]
    the client hands it. *)
Class Stringify := { JSON_stringify : value -> string }.

(** What the command side can raise: the errors of the subscription
    side, and the [ReferenceError] of reading a name that is not
    declared. *)
Inductive Raised :=
| Js (e : JsError)
| ReferenceError (name : string).

Inductive attempt (A : Type) :=
| Done (a : A)
| Raise (r : Raised).
Arguments Done {A} a.
Arguments Raise {A} r.

Definition abind {A B} (m : attempt A) (k : A -> attempt B) : attempt B :=
  match m with
  | Done a => k a
  | Raise r => Raise r
  end.

Definition of_completion {A} (c : completion A) : attempt A :=
  match c with
  | Normal a => Done a
  | Throw e => Raise (Js e)
  end.

Declare Scope attempt_scope.
Delimit Scope attempt_scope with att.
Notation "x <- m ;; k" := (abind m (fun x => k))
  (at level 20, m at level 99, k at level 200, only parsing) : attempt_scope.

(** The own enumerable properties of a value, in the order
    [Object.assign], object spread and [Object.keys] walk them.  As on
    the subscription side an object is its list of data properties;
    prototypes, and with them a property named [__proto__], are not
    modelled. *)
Definition own_properties (v : value) : list (string * value) :=
  match v with
  | VObject fs => fs
  | VArray l => zip (index_key <$> seq 0 (length l)) l
  | VString s =>
      zip (index_key <$> seq 0 (String.length s))
          ((fun c => VString (String c EmptyString)) <$> list_ascii_of_string s)
  | _ => []
  end.

(** [path.join(...)]: an argument that is not a string throws; the
    segments are kept as they are handed over, joining and normalising
    them is the host's. *)
Fixpoint path_join (args : list value) : completion (list string) :=
  match args with
  | [] => Normal []
  | VString s :: args' => (l <- path_join args' ;; Normal (s :: l))%cpl
  | _ => Throw TypeError
  end.

Section Methods.
Context {host : Host} {ser : Stringify}.

(** The callback of [events.map] in [prepareEvents]: the parameter
    [{ eventData, ...rest } = event] reads the undeclared name [event]
    when the element is [undefined]. *)
Definition prepareEvent (e : value) : attempt value :=
  match e with
  | VUndefined => Raise (ReferenceError "event")
  | VNull => Raise (Js TypeError)
  | _ =>
      let eventData := field "eventData" (own_properties e) in
      let rest :=
        filter (fun kv => kv.1 <> "eventData") (own_properties e) in
      Done (VObject
              (rest ++
               [("eventData",
                 match typeof eventData with
                 | TObject => VString (JSON_stringify eventData)
                 | _ => eventData
                 end)]))
  end.

(** [l.map(f)] for a callback that may throw. *)
Fixpoint map_attempt (f : value -> attempt value) (l : list value)
  : attempt (list value) :=
  match l with
  | [] => Done []
  | x :: l' => (y <- f x ;; ys <- map_attempt f l' ;; Done (y :: ys))%att
  end.

(** [prepareEvents(events)]. *)
Definition prepareEvents (events : value) : attempt value :=
  match events with
  | VArray l => (l' <- map_attempt prepareEvent l ;; Done (VArray l'))%att
  | _ => Raise (Js TypeError)
  end.

(** The callback of [events.map] in [eventDataToObject]; the number is
    how many times it called [logger.error]. *)
Definition eventToObject (e : value) : value * nat :=
  let event := own_properties e in
  match field "eventData" event with
  | VString s =>
      match JSON_parse s with
      | Some v => (VObject (Reference.set_field "eventData" v event), 0%nat)
      | None => (VObject (Reference.set_field "eventData" (VObject []) event), 2%nat)
      end
  | _ => (VObject event, 0%nat)
  end.

(** [eventDataToObject(events)], with the number of [logger.error]
    calls it made. *)
Definition eventDataToObject (events : value) : completion (value * nat) :=
  match events with
  | VArray l =>
      Normal (VArray ((fun e => (eventToObject e).1) <$> l),
              foldr (fun e n => ((eventToObject e).2 + n)%nat) 0%nat l)
  | _ => Throw TypeError
  end.


(** [serialiseObject(obj)]. *)
Definition serialiseObject (obj : value) : completion value :=
  match typeof obj with
  | TObject =>
      (keys <- Object_keys obj ;;
       Normal (VString
                 (Reference.join "&"
                    ((fun key => key +:+ "=" +:+ to_string (field key (own_properties obj)))
                       <$> keys))))%cpl
  | _ => Normal VUndefined
  end.

(** [addBodyOptions(jsonData, options)], on the fields of [jsonData]. *)
Definition addBodyOptions (jsonData : list (string * value)) (options : value)
  : completion (list (string * value)) :=
  match typeof options with
  | TObject =>
      (keys <- Object_keys options ;;
       Normal (foldl (fun acc key => Reference.set_field key (field key (own_properties options)) acc)
                 jsonData keys))%cpl
  | _ => Normal jsonData
  end.

(** Why a command failed: an exception or error object, an error of
    the HTTP transport, or one of the two objects the response
    handlers build. *)
Inductive Reason :=
| Caught (e : JsError)
| TransportError
| ServerError (statusCode : Z) (message : value)
| BadServerResponse (statusCode : Z) (message : value).

(** [statusCodeError(statusCode, message)]; [None] is [undefined]. *)
Definition statusCodeError (statusCode : Z) (message : value) : option Reason :=
  if statusCode =? 200 then None else Some (ServerError statusCode message).

Inductive Method := GET | POST.

(** What a command hands to [_request]: the segments [path.join] was
    given, what was appended to the joined path, the method and the
    body. *)
Record Request := {
  r_path : list string;
  r_query : option string;
  r_method : Method;
  r_body : option value
}.

(** How the executor of a command's promise ends when it returns:
    with [result.failure(new Error(...))], or with the call of
    [_request]. *)
Inductive Command :=
| Failed (e : JsError)
| Requested (r : Request).

Definition baseUrlPath : string := "/entity".

(** The executor of [create(entityTypeName, _events, options)], for
    [options] that is not a function; an exception that leaves it
    rejects the promise and never reaches [result]. *)
Definition create (c : Client) (entityTypeName _events options : value)
  : attempt Command :=
  (valid <- of_completion
              (if truthy entityTypeName then checkEvents _events else Normal false) ;;
   if negb valid
   then Done (Failed (Error "Incorrect input parameters for create()"))
   else
     events <- prepareEvents _events ;;
     jsonData <- of_completion
                   (addBodyOptions
                      [("entityTypeName", entityTypeName); ("events", events)]
                      options) ;;
     urlPath <- of_completion
                  (path_join [VString baseUrlPath; spaceName c]) ;;
     Done (Requested
             {| r_path := urlPath; r_query := None; r_method := POST;
                r_body := Some (VObject jsonData) |}))%att.

(** The executor of
    [update(entityTypeName, entityId, entityVersion, _events, options)]. *)
Definition update (c : Client)
    (entityTypeName entityId entityVersion _events options : value)
  : attempt Command :=
  (valid <- of_completion
              (if truthy entityTypeName && truthy entityId && truthy entityVersion
               then checkEvents _events else Normal false) ;;
   if negb valid
   then Done (Failed (Error "Incorrect input parameters for update()"))
   else
     events <- prepareEvents _events ;;
     jsonData <- of_completion
                   (addBodyOptions
                      [("entityId", entityId); ("entityVersion", entityVersion);
                       ("events", events)]
                      options) ;;
     urlPath <- of_completion
                  (path_join [VString baseUrlPath; spaceName c;
                              entityTypeName; entityId]) ;;
     Done (Requested
             {| r_path := urlPath; r_query := None; r_method := POST;
                r_body := Some (VObject jsonData) |}))%att.

(** The executor of [loadEvents(entityTypeName, entityId, options)];
    ['?' + undefined] is the text [?undefined]. *)
Definition loadEvents (c : Client) (entityTypeName entityId options : value)
  : attempt Command :=
  if negb (truthy entityTypeName) || negb (truthy entityId)
  then Done (Failed (Error "Incorrect input parameters for loadEvents"))
  else
    (urlPath <- of_completion
                  (path_join [VString baseUrlPath; spaceName c;
                              entityTypeName; entityId]) ;;
     query <- of_completion (serialiseObject options) ;;
     Done (Requested
             {| r_path := urlPath;
                r_query :=
                  Some ("?" +:+ match query with
                                | VString s => s
                                | _ => "undefined"
                                end);
                r_method := GET; r_body := None |}))%att.

(** What [result] is told in the end. *)
Inductive Outcome :=
| Success (v : value)
| Failure (r : Reason).

(** The callback [create] and [update] give to [_request]:
    [(err, httpResponse, jsonBody) => ...]. *)
Definition command_callback (err : option Reason) (statusCode : Z)
    (jsonBody : value) : completion Outcome :=
  match err with
  | Some e => Normal (Failure e)
  | None =>
      match statusCodeError statusCode jsonBody with
      | Some e => Normal (Failure e)
      | None =>
          (entityId <- get jsonBody "entityId" ;;
           entityVersion <- get jsonBody "entityVersion" ;;
           eventIds <- get jsonBody "eventIds" ;;
           if negb (truthy entityId) || negb (truthy entityVersion)
              || negb (truthy eventIds)
           then Normal (Failure (BadServerResponse statusCode jsonBody))
           else
             Normal (Success
                       (VObject
                          [("entityIdTypeAndVersion",
                            VObject [("entityId", entityId);
                                     ("entityVersion", entityVersion)]);
                           ("eventIds", eventIds)])))%cpl
      end
  end.

(** The callback [loadEvents] gives to [_request]. *)
Definition load_callback (err : option Reason) (statusCode : Z)
    (jsonBody : value) : completion Outcome :=
  match err with
  | Some e => Normal (Failure e)
  | None =>
      match statusCodeError statusCode jsonBody with
      | Some e => Normal (Failure e)
      | None =>
          (events <- get jsonBody "events" ;;
           r <- eventDataToObject events ;;
           Normal (Success r.1))%cpl
      end
  end.

(** The [end] handler of the response in [_request]: the callback is
    called inside a [try] whose [catch] calls it again with what was
    caught, be it from [JSON.parse] or from the callback itself. *)
Definition response_end
    (callback : option Reason -> Z -> value -> completion Outcome)
    (statusCode : Z) (responseData : string) : completion Outcome :=
  match JSON_parse responseData with
  | None => callback (Some (Caught SyntaxError)) statusCode VUndefined
  | Some jsonBody =>
      match callback None statusCode jsonBody with
      | Throw e => callback (Some (Caught e)) statusCode VUndefined
      | r => r
      end
  end.

(** The [error] handler of the request in [_request]. *)
Definition request_error
    (callback : option Reason -> Z -> value -> completion Outcome)
  : completion Outcome :=
  callback (Some TransportError) 0 VUndefined.

End Methods.

(** *** The HTTP side of the constructor *)

Inductive HttpModule := http | https.

Inductive Agent := PlainAgent | HttpsAgent.

(** The fields of [this] that [_request] reads; the constructor never
    assigns [httpKeepAlive]. *)
Record Http := {
  useHttps : bool;
  httpClient : HttpModule;
  httpKeepAlive : value;
  keepAliveAgent : option Agent
}.

(** [setupHttpClient()]. *)
Definition setupHttpClient (h : Http) : Http :=
  {| useHttps := useHttps h;
     httpClient := if useHttps h then https else http;
     httpKeepAlive := httpKeepAlive h; keepAliveAgent := keepAliveAgent h |}.

(** [setupKeepAliveAgent(httpKeepAlive)]: the test reads the field of
    [this], not the parameter. *)
Definition setupKeepAliveAgent (parameter : value) (h : Http) : Http :=
  if truthy (httpKeepAlive h)
  then {| useHttps := useHttps h; httpClient := httpClient h;
          httpKeepAlive := httpKeepAlive h;
          keepAliveAgent := Some (if useHttps h then HttpsAgent else PlainAgent) |}
  else h.

(** The constructor: [determineIfSecure] on the protocol of the parsed
    URL, [setupHttpClient], then [setupKeepAliveAgent] with the option
    given. *)
Definition construct (protocol : string) (httpKeepAlive_option : value) : Http :=
  setupKeepAliveAgent httpKeepAlive_option
    (setupHttpClient
       {| useHttps := String.eqb protocol "https:"; httpClient := http;
          httpKeepAlive := VUndefined; keepAliveAgent := None |}).

(** [options.agent] of [_request]; [None] is a request without the
    field. *)
Definition request_agent (h : Http) : option Agent :=
  if truthy (httpKeepAlive h) then keepAliveAgent h else None.

End Commands.

(** ** A reference [JSON.stringify] *)

Module ReferenceStringify.

Fixpoint escape (s : string) : string :=
  match s with
  | EmptyString => EmptyString
  | String c s' =>
      match c with
      | "034"%char => String "\" (String "034" (escape s'))
      | "\"%char => String "\" (String "\" (escape s'))
      | "008"%char => String "\" (String "b" (escape s'))
      | "012"%char => String "\" (String "f" (escape s'))
      | "010"%char => String "\" (String "n" (escape s'))
      | "013"%char => String "\" (String "r" (escape s'))
      | "009"%char => String "\" (String "t" (escape s'))
      | _ => String c (escape s')
      end
  end.

Definition quoted (s : string) : string :=
  String "034" (escape s +:+ String "034" EmptyString).

(** [JSON.stringify(v)]; a field that is [undefined] is left out, an
    element that is [undefined] is written [null]. *)
Fixpoint stringify (v : value) : string :=
  match v with
  | VUndefined | VNull => "null"
  | VBool _ | VNumber _ => Reference.to_String v
  | VString s => quoted s
  | VArray l =>
      "[" +:+ Reference.join ","
                ((fix elements (l : list value) : list string :=
                    match l with
                    | [] => []
                    | x :: l' => stringify x :: elements l'
                    end) l) +:+ "]"
  | VObject fs =>
      "{" +:+ Reference.join ","
                ((fix members (fs : list (string * value)) : list string :=
                    match fs with
                    | [] => []
                    | (_, VUndefined) :: fs' => members fs'
                    | (k, x) :: fs' => (quoted k +:+ ":" +:+ stringify x) :: members fs'
                    end) fs) +:+ "}"
  end.

Definition ser : Commands.Stringify := {| Commands.JSON_stringify := stringify |}.

End ReferenceStringify.

(** ** Example commands and responses *)

Module Examples.

(** An event whose data is given as an object, and one whose data is
    given as JSON text. *)
Definition created : value :=
  VObject [("eventType", VString "MyEntityWasCreated");
           ("eventData", VObject [("name", VString "Fred")])].

Definition renamed : value :=
  VObject [("eventType", VString "MyEntityNameChanged");
           ("eventData",
            VString (ReferenceStringify.stringify
                       (VObject [("name", VString "George")])))].

Definition events : value := VArray [created; renamed].

(** The text of an answer to [create]. *)
Definition created_body : list (string * value) :=
  [("entityId", VString "e1"); ("entityVersion", VString "v1");
   ("eventIds", VArray [VString "v1"])].

Definition created_text : string :=
  ReferenceStringify.stringify (VObject created_body).

(** The events of an answer to [loadEvents]; the data of the second is
    not JSON text. *)
Definition loaded : list value :=
  [VObject [("id", VString "v1"); ("eventType", VString "MyEntityWasCreated");
            ("eventData",
             VString (ReferenceStringify.stringify
                        (VObject [("name", VString "Fred")])))];
   VObject [("id", VString "v2"); ("eventData", VString "oops")]].

Definition loaded_text : string :=
  ReferenceStringify.stringify (VObject [("events", VArray loaded)]).

(** A frame whose ack header is not JSON text. *)
Definition stray : Frame :=
  {| f_ack := "oops"; f_body := [Scenario.record "e1"] |}.

End Examples.

(** ** What operations preserve *)

(** A computation is stable for a relation between the world before
    and the world after when every run of it stays inside the
    relation, whether it returns or throws. *)
Definition stable (R : relation World) {A} (m : M A) : Prop :=
  forall w, R w (m w).2.

(** The backoff state is left alone: the client, the Stomp objects,
    the timers, and the delays asked for so far. *)
Definition backoff_kept (w w' : World) : Prop :=
  client w' = client w /\ stomps w' = stomps w /\
  timers w' = timers w /\ delays (trace w') = delays (trace w).

(** Whenever a Stomp object is at hand, that is, while a connection is
    in progress or established, a promise is memoized. *)
Definition memo_while_connected (w : World) : Prop :=
  stompClient (client w) <> None -> _connPromise (client w) <> None.

Definition memo_kept (w w' : World) : Prop :=
  memo_while_connected w -> memo_while_connected w'.

(** The entries of the receipt table are kept. *)
Definition receipts_kept (w w' : World) : Prop :=
  forall r,
    is_Some (Table.lookup r (receipts (client w))) ->
    is_Some (Table.lookup r (receipts (client w'))).

(** An event sequence that has ended stays ended and is told nothing
    more. *)
Definition ended_kept (o : nat) (w w' : World) : Prop :=
  observers w !! o = Some {| isStopped := true |} ->
  observers w' !! o = Some {| isStopped := true |} /\
  delivered_to o (trace w') = delivered_to o (trace w).

(** After [disconnect()] the client stays closed, builds no further
    Stomp object and schedules no reconnect. *)
Definition closed_kept (w w' : World) : Prop :=
  closed (client w) = true ->
  closed (client w') = true /\ stomps w' = stomps w /\
  delays (trace w') = delays (trace w).

(** The reconnect interval is on the backoff ladder that starts at
    500 ms, and so is every delay asked for so far, from the second
    rung on. *)
Definition on_ladder (w : World) : Prop :=
  reconnectIntervalStart (client w) = 500 /\
  (exists k, reconnectInterval (client w) = backoff k) /\
  Forall (fun d => exists k, d = backoff (S k)) (delays (trace w)).

Definition ladder_kept (w w' : World) : Prop := on_ladder w -> on_ladder w'.

(** The entries of the subscription table are kept. *)
Definition subscriptions_kept (w w' : World) : Prop :=
  forall sid,
    is_Some (Table.lookup sid (subscriptions (client w))) ->
    is_Some (Table.lookup sid (subscriptions (client w'))).

(** Observer [o] is told nothing. *)
Definition told_kept (o : nat) (w w' : World) : Prop :=
  delivered_to o (trace w') = delivered_to o (trace w).

(** The calls a walk over the receipt table makes for the names given:
    one call, with the reason, of the callback under each name that is
    in the table. *)
Definition reports (reason : option JsError) (tb : Table.t Receipt)
    (names : list string) : list Effect :=
  omap (fun r =>
          (fun rc => CallCallback (clientSubscribeCallback rc) (CbError reason))
            <$> Table.lookup r tb) names.

(** The frames a walk over the subscription table sends on Stomp
    object [s] for the names given: one subscribe frame, with the
    headers registered, for each name that is in the table. *)
Definition resubscriptions (s : nat) (tb : Table.t Subscription)
    (names : list string) : list Effect :=
  omap (fun sid =>
          (fun sub => StompSubscribe s (headers sub)) <$> Table.lookup sid tb)
       names.

Definition rejected (s : PromiseState) : bool :=
  match s with
  | Rejected _ => true
  | _ => false
  end.

(** A subscribe callback called with an error other than the one
    [subscribe] gives a call it refuses. *)
Definition failure_call (e : Effect) : bool :=
  match e with
  | CallCallback _ (CbError (Some (Error msg))) =>
      negb (String.eqb msg "Incorrect input parameters")
  | CallCallback _ (CbError _) => true
  | _ => false
  end.

(** The names of the receipt table are receipt ids. *)
Definition receipt_names (w : World) : Prop :=
  Forall (fun kv => String.prefix "receipt-id-" kv.1 = true) (receipts (client w)).

Definition receipt_names_kept (w w' : World) : Prop :=
  receipt_names w -> receipt_names w'.

(** The subscription table has no own property [__proto__]: an
    assignment to that name reaches the setter of [Object.prototype]. *)
Definition no_own_proto (w : World) : Prop :=
  Table.lookup "__proto__" (subscriptions (client w)) = None.

Definition no_own_proto_kept (w w' : World) : Prop :=
  no_own_proto w -> no_own_proto w'.

(** No failure of the connection has been reported or is about to be:
    no promise is rejected, no job carries a rejection, and no
    callback has been called with a failure. *)
Definition unreported (w : World) : Prop :=
  Forall (fun pr => rejected (state pr) = false) (promises w) /\
  Forall (fun j => rejected (j_outcome j) = false) (jobs w) /\
  Forall (fun e => failure_call e = false) (trace w).

(** On a client with usable connection parameters nothing is
    reported before the client is closed. *)
Definition quiet (w : World) : Prop :=
  stomp_parameters_ok (client w) = true /\
  (closed (client w) = false -> unreported w).

Definition quiet_kept (w w' : World) : Prop := quiet w -> quiet w'.

(** The connection parameters are left alone, and a closed client
    stays closed. *)
Definition settings_kept (w w' : World) : Prop :=
  stomp_parameters_ok (client w') = stomp_parameters_ok (client w) /\
  (closed (client w) = true -> closed (client w') = true).

(** * Properties *)

(** ** AckOrderTracker *)

Module AckOrderTrackerFacts.
Import AckOrderTracker.

Lemma mark_tokens tok q : token <$> mark tok q = token <$> q.
Proof.
  induction q as [|e q IH]; [done|]. cbn [mark].
  destruct (String.eqb (token e) tok); rewrite !fmap_cons; [done|].
  by rewrite IH.
Qed.

(** The scan cuts the queue in two: what it returns is the completed
    head of the queue, and it stops in front of an entry that is not
    completed. *)
Lemma release_spec q :
  exists pre,
    q = pre ++ (release q).2 /\
    (release q).1 = token <$> pre /\
    Forall (fun e => completed e = true) pre /\
    (completed <$> head (release q).2) <> Some true.
Proof.
  induction q as [|e q (pre & Hq & Hout & Hpre & Hhd)]; simpl.
  - exists []. by repeat split.
  - destruct (completed e) eqn:He.
    + destruct (release q) as [out rest]; simpl in *. subst q out.
      exists (e :: pre). split_and!; [done | done | by constructor | done].
    + exists []. split_and!; [done | done | constructor |].
      simpl. rewrite He. congruence.
Qed.

Lemma ack_tokens tok q :
  token <$> q = (ack tok q).1 ++ (token <$> (ack tok q).2).
Proof.
  unfold ack. destruct (release_spec (mark tok q)) as (pre & Hq & Hout & _).
  rewrite <- (mark_tokens tok q), Hout, <- fmap_app. by rewrite <- Hq.
Qed.

(** Over a whole history, what has been released and what is still
    buffered make up the arrivals, in arrival order. *)
Lemma play_arrivals cs q :
  (token <$> q) ++ arrivals cs
  = concat (play cs q).1 ++ (token <$> (play cs q).2).
Proof.
  revert q. induction cs as [|[tok|tok] cs IH]; intros q; simpl.
  - by rewrite app_nil_r.
  - rewrite <- IH. unfold add. rewrite fmap_app. simpl.
    by rewrite <- app_assoc.
  - pose proof (ack_tokens tok q) as Hq.
    destruct (ack tok q) as [out q']. specialize (IH q').
    destruct (play cs q') as [outs q'']. simpl in *.
    rewrite Hq, <- !app_assoc. f_equal. exact IH.
Qed.

End AckOrderTrackerFacts.

(** ** Running computations *)

Lemma forEach_emit {A} (f : A -> Effect) (l : list A) (w : World) :
  forEach (fun x => emit (f x)) l w
  = (Normal tt, set_trace (trace w ++ (f <$> l)) w).
Proof.
  revert w. induction l as [|x l IH]; intros w; simpl.
  - unfold ret. rewrite app_nil_r. by destruct w.
  - unfold bind, emit, modify at 1. rewrite IH. simpl.
    by rewrite <- app_assoc.
Qed.

Section Stable.
Context (R : relation World) `{!PreOrder R}.

Lemma stable_ret {A} (a : A) : stable R (ret a).
Proof. intros w. reflexivity. Qed.

Lemma stable_throw {A} e : stable R (@throw A e).
Proof. intros w. reflexivity. Qed.

Lemma stable_gets {A} (f : World -> A) : stable R (gets f).
Proof. intros w. reflexivity. Qed.

Lemma stable_lift {A} (c : completion A) : stable R (lift c).
Proof. intros w. reflexivity. Qed.

Lemma stable_modify f : (forall w, R w (f w)) -> stable R (modify f).
Proof. intros Hf w. apply Hf. Qed.

Lemma stable_bind {A B} (m : M A) (k : A -> M B) :
  stable R m -> (forall a, stable R (k a)) -> stable R (bind m k).
Proof.
  intros Hm Hk w. unfold bind. specialize (Hm w).
  destruct (m w) as [[a|e] w1]; simpl in *; [|done].
  etrans; [exact Hm | apply Hk].
Qed.

Lemma stable_catch {A} (m : M A) (h : JsError -> M A) :
  stable R m -> (forall e, stable R (h e)) -> stable R (catch m h).
Proof.
  intros Hm Hh w. unfold catch. specialize (Hm w).
  destruct (m w) as [[a|e] w1]; simpl in *; [done|].
  etrans; [exact Hm | apply Hh].
Qed.

Lemma stable_forEach {A} (f : A -> M unit) l :
  (forall x, stable R (f x)) -> stable R (forEach f l).
Proof.
  intros Hf. induction l as [|x l IH]; simpl.
  - apply stable_ret.
  - apply stable_bind; [apply Hf | by intros _].
Qed.

End Stable.

(** Takes a computation apart along its structure; what is left are
    the places where it writes the world. *)
Ltac stable_structure :=
  repeat first
    [ match goal with H : _ |- _ => solve [apply H] end
    | apply stable_ret; [tc_solve]
    | apply stable_throw; [tc_solve]
    | apply stable_gets; [tc_solve]
    | apply stable_lift; [tc_solve]
    | apply stable_bind; [tc_solve | | intros ?]
    | apply stable_catch; [tc_solve | | intros ?]
    | apply stable_forEach; [tc_solve | intros ?]
    | progress cbv beta
    | match goal with
      | |- stable _ (match ?x with _ => _ end) => destruct x eqn:?
      | |- stable _ (if ?x then _ else _) => destruct x eqn:?
      end ].

Ltac unfold_methods :=
  unfold perform, subscribe, observable_subscribe, acknowledge, disconnect,
    reconnect_timer, run_job_caught, run_job, on_stomp_event,
    run_messageCallback, decode_records, addSubscription, addReceipt,
    doClientSubscribe, reconnectStompServer, connectToStompServer,
    connect_executor,
    tracker_add, tracker_ack, observer_onNext, observer_onError,
    new_promise, modify_client.

(** What every operation preserves, every run preserves. *)
Lemma step_stable {host : Host} (R : relation World) `{!PreOrder R} w op :
  stable R (perform op) ->
  (forall e, stable R (emit (Threw e))) ->
  R w (step w op).
Proof. intros Hp He. unfold step. by apply stable_catch. Qed.

Lemma run_stable {host : Host} (R : relation World) `{!PreOrder R} ops :
  (forall op, stable R (perform op)) ->
  (forall e, stable R (emit (Threw e))) ->
  forall w, R w (run ops w).
Proof.
  intros Hp He. induction ops as [|op ops IH]; intros w; [reflexivity|].
  change (R w (run ops (step w op))).
  transitivity (step w op); [|apply IH].
  apply step_stable; [done | apply Hp | apply He].
Qed.

(** With a Stomp object at hand, [acknowledge] hands it the release
    list of the tracker, token by token, in the order returned. *)
Lemma acknowledge_connected w t q s tok :
  trackers w !! t = Some q ->
  stompClient (client w) = Some s ->
  acknowledge t tok w
  = (Normal tt,
     set_trace (trace w ++ (StompAck s <$> (AckOrderTracker.ack tok q).1))
       (set_trackers (<[t := (AckOrderTracker.ack tok q).2]> (trackers w)) w)).
Proof.
  intros Ht Hs. unfold acknowledge, tracker_ack, bind, gets, modify, ret.
  simpl. rewrite Ht. simpl. rewrite Hs. by rewrite forEach_emit.
Qed.

(** Without one it throws after the tracker has been asked: nothing
    reaches the transport. *)
Lemma acknowledge_disconnected w t tok :
  stompClient (client w) = None ->
  exists w',
    acknowledge t tok w = (Throw TypeError, w') /\
    trace w' = trace w /\ client w' = client w.
Proof.
  intros Hs. unfold acknowledge, tracker_ack, bind, gets, modify, ret.
  simpl. destruct (trackers w !! t) as [q|]; simpl; rewrite Hs; by eexists.
Qed.

(** ** Acknowledgement: claims C2 and C10 *)

Section ScenarioRuns.
#[local] Existing Instance Reference.host.
Import Scenario.

(** C2, as stated, fails: "acknowledge(token) forwards each token of
    the returned release list to the transport's low-level ack call".
    After a frame has arrived and the connection has dropped, the
    tracker of [sub1] releases the frame's token on [acknowledge], but
    no ack call reaches any Stomp object: the call throws, and the
    token is no longer buffered either. *)
Lemma acknowledge_loses_release_list :
  stompClient (client dropped) = None /\
  (exists q,
     trackers dropped !! 0%nat = Some q /\
     (AckOrderTracker.ack (ack_header "1") q).1 = [ack_header "1"]) /\
  acked (trace (step dropped (OpAcknowledge 0 (ack_header "1")))) = [] /\
  trackers (step dropped (OpAcknowledge 0 (ack_header "1"))) !! 0%nat = Some [] /\
  last (trace (step dropped (OpAcknowledge 0 (ack_header "1"))))
  = Some (Threw TypeError).
Proof.
  vm_compute. split; [done|]. split; [|done].
  eexists. split; reflexivity.
Qed.

End ScenarioRuns.

(** C2 (amended): tokens leave a tracker only in arrival order.  Over
    any history of [add] and [ack] calls, the release lists put one
    after the other, followed by what is still buffered, are the
    arrivals in arrival order; one [ack] returns the tokens of the
    longest completed head of the queue, possibly none; while a Stomp
    object is at hand, [acknowledge] hands it exactly the returned
    release list, in the order returned; and the history
    add t1, add t2, add t3, ack t2, ack t1, ack t3 releases nothing,
    then t1 and t2, then t3. *)
Theorem ack_order_preserved :
  (forall cs,
     AckOrderTracker.arrivals cs
     = concat (AckOrderTracker.play cs AckOrderTracker.empty).1
       ++ (AckOrderTracker.token <$> (AckOrderTracker.play cs AckOrderTracker.empty).2)) /\
  (forall tok q,
     exists pre,
       AckOrderTracker.mark tok q = pre ++ (AckOrderTracker.ack tok q).2 /\
       AckOrderTracker.token <$> AckOrderTracker.mark tok q = AckOrderTracker.token <$> q /\
       (AckOrderTracker.ack tok q).1 = AckOrderTracker.token <$> pre /\
       Forall (fun e => AckOrderTracker.completed e = true) pre /\
       (AckOrderTracker.completed <$> head (AckOrderTracker.ack tok q).2) <> Some true) /\
  (forall w t q s tok,
     trackers w !! t = Some q ->
     stompClient (client w) = Some s ->
     exists w',
       acknowledge t tok w = (Normal tt, w') /\
       trace w' = trace w ++ (StompAck s <$> (AckOrderTracker.ack tok q).1) /\
       trackers w' !! t = Some (AckOrderTracker.ack tok q).2) /\
  (AckOrderTracker.play
     [AckOrderTracker.Add "t1"; AckOrderTracker.Add "t2"; AckOrderTracker.Add "t3";
      AckOrderTracker.Ack "t2"; AckOrderTracker.Ack "t1"; AckOrderTracker.Ack "t3"]
     AckOrderTracker.empty).1
  = [[]; ["t1"; "t2"]; ["t3"]].
Proof.
  split_and!.
  - intros cs.
    exact (AckOrderTrackerFacts.play_arrivals cs AckOrderTracker.empty).
  - intros tok q. unfold AckOrderTracker.ack.
    destruct (AckOrderTrackerFacts.release_spec (AckOrderTracker.mark tok q))
      as (pre & Hq & Hout & Hpre & Hhd).
    exists pre. split_and!; try done.
    apply AckOrderTrackerFacts.mark_tokens.
  - intros w t q s tok Ht Hs. eexists. split.
    + by apply acknowledge_connected.
    + simpl. split; [done|]. apply list_lookup_insert_eq.
      by eapply lookup_lt_Some.
  - reflexivity.
Qed.

(** The amended C2 at a connected client whose tracker holds an
    unacknowledged token. *)
Lemma ack_order_preserved_witness :
  exists w',
    acknowledge 0 "t1" Scenario.holding = (Normal tt, w') /\
    trace w' = trace Scenario.holding ++ [StompAck 0 "t1"] /\
    trackers w' !! 0%nat = Some [].
Proof.
  destruct ack_order_preserved as (_ & _ & Hack & _).
  exact (Hack Scenario.holding 0%nat
           (AckOrderTracker.add "t1" AckOrderTracker.empty) 0%nat "t1"
           eq_refl eq_refl).
Defined.

(** C10: while no Stomp object is at hand, as from construction and
    after every [disconnected] event, [acknowledge] throws a
    [TypeError] for any token of any tracker, whatever the release list
    is, and no ack call is made. *)
Theorem acknowledge_without_connection {host : Host} :
  (forall id secret host port space,
     stompClient (new_client id secret host port space) = None) /\
  (forall w s p,
     stomps w !! s = Some p ->
     stompClient (client (step w (OpStomp s disconnected))) = None) /\
  (forall w t tok,
     stompClient (client w) = None ->
     (acknowledge t tok w).1 = Throw TypeError /\
     trace (acknowledge t tok w).2 = trace w /\
     trace (step w (OpAcknowledge t tok)) = trace w ++ [Threw TypeError]).
Proof.
  split_and!.
  - done.
  - intros w s p Hs. unfold step, catch, perform, bind, gets. simpl.
    rewrite Hs.
    unfold on_stomp_event, bind, modify_client, modify, gets. simpl.
    destruct (closed (client w)); simpl; [done|].
    destruct (reconnectInterval (client w) <? 16000); done.
  - intros w t tok Hs.
    destruct (acknowledge_disconnected w t tok Hs) as (w' & Hw' & Htr & _).
    unfold step, catch, perform. rewrite Hw'. simpl. by rewrite Htr.
Qed.

(** C10 at the freshly constructed client. *)
Lemma acknowledge_without_connection_witness :
  (acknowledge 0 "t1" Scenario.w0).1 = Throw TypeError /\
  trace (acknowledge 0 "t1" Scenario.w0).2 = trace Scenario.w0 /\
  trace (step (host := Reference.host) Scenario.w0 (OpAcknowledge 0 "t1"))
  = trace Scenario.w0 ++ [Threw TypeError].
Proof.
  destruct (acknowledge_without_connection (host := Reference.host)) as (_ & _ & Hthrow).
  exact (Hthrow Scenario.w0 0%nat "t1" eq_refl).
Defined.

(** ** Backoff: claim C1 *)

Lemma next_interval_backoff k : next_interval (backoff k) = backoff (S k).
Proof.
  do 5 (destruct k as [|k]; [reflexivity|]).
  assert (Hpow : forall n : nat, 16000 <= 500 * 2 ^ Z.of_nat (5 + n)).
  { intros n. rewrite Nat2Z.inj_add, Z.pow_add_r by lia.
    assert (0 < 2 ^ Z.of_nat n) by (apply Z.pow_pos_nonneg; lia).
    change (2 ^ Z.of_nat 5) with 32. lia. }
  unfold backoff, next_interval.
  pose proof (Hpow k) as H1. pose proof (Hpow (S k)) as H2.
  change (S (S (S (S (S k))))) with (5 + k)%nat.
  change (S (5 + k)) with (5 + S k)%nat.
  rewrite !Z.min_l by lia. reflexivity.
Qed.

Lemma delays_app tr tr' : delays (tr ++ tr') = delays tr ++ delays tr'.
Proof. apply omap_app. Qed.

#[local] Instance backoff_kept_preorder : PreOrder backoff_kept.
Proof.
  split; [by intros w|].
  intros w1 w2 w3 (E1 & E2 & E3 & E4) (F1 & F2 & F3 & F4).
  unfold backoff_kept. split_and!; congruence.
Qed.

Section BackoffFacts.
Context {host : Host}.

(** Running the promise jobs leaves the backoff state alone. *)
Lemma jobs_step_backoff_kept w : backoff_kept w (step w OpJobs).
Proof.
  revert w. change (stable backoff_kept (catch (perform OpJobs) (fun e => emit (Threw e)))).
  unfold_methods. stable_structure.
  all: apply stable_modify; intros w; unfold backoff_kept; simpl;
    split_and!; try done; rewrite delays_app; simpl; by rewrite app_nil_r.
Qed.

(** The [disconnected] handler, on a client that has not been closed:
    the interval is doubled below the cap first, and the timer is set
    to the interval that results. *)
Lemma disconnected_step w s p :
  stomps w !! s = Some p ->
  closed (client w) = false ->
  let d := next_interval (reconnectInterval (client w)) in
  let w' := step w (OpStomp s disconnected) in
  trace w' = trace w ++ [SetTimeout d] /\
  timers w' = timers w ++ [d] /\
  reconnectInterval (client w') = d /\
  stompClient (client w') = None /\
  _connPromise (client w') = None /\
  closed (client w') = false /\
  stomp_parameters_ok (client w') = stomp_parameters_ok (client w) /\
  stomps w' = stomps w /\ promises w' = promises w.
Proof.
  intros Hs Hc. unfold step, catch, perform, bind, gets. simpl. rewrite Hs.
  unfold on_stomp_event, bind, modify_client, modify, gets,
    reconnectStompServer, emit, next_interval. simpl. rewrite Hc. simpl.
  destruct (reconnectInterval (client w) <? 16000); simpl; done.
Qed.

(** After an explicit close the handler sets no timer. *)
Lemma disconnected_step_closed w s p :
  stomps w !! s = Some p ->
  closed (client w) = true ->
  trace (step w (OpStomp s disconnected)) = trace w /\
  timers (step w (OpStomp s disconnected)) = timers w.
Proof.
  intros Hs Hc. unfold step, catch, perform, bind, gets. simpl. rewrite Hs.
  unfold on_stomp_event, bind, modify_client, modify, gets. simpl.
  by rewrite Hc.
Qed.

(** The [socketConnected] handler puts the interval back to its
    start. *)
Lemma socketConnected_step w s p :
  stomps w !! s = Some p ->
  reconnectInterval (client (step w (OpStomp s socketConnected)))
  = reconnectIntervalStart (client w) /\
  trace (step w (OpStomp s socketConnected)) = trace w.
Proof.
  intros Hs. unfold step, catch, perform, bind, gets. simpl. rewrite Hs. done.
Qed.

(** The reconnect timer, on a client that is neither closed nor
    connected: a new Stomp object is built and nothing is scheduled. *)
Lemma timer_step w k d :
  timers w !! k = Some d ->
  _connPromise (client w) = None ->
  closed (client w) = false ->
  stomp_parameters_ok (client w) = true ->
  let w' := step w (OpTimer k) in
  timers w' = delete k (timers w) /\
  stompClient (client w') = Some (length (stomps w)) /\
  stomps w' = stomps w ++ [length (promises w)] /\
  delays (trace w') = delays (trace w) /\
  reconnectInterval (client w') = reconnectInterval (client w) /\
  closed (client w') = false /\
  stomp_parameters_ok (client w') = true.
Proof.
  intros Ht Hp Hc Hok. unfold step, catch, perform, bind, gets. simpl.
  rewrite Ht.
  unfold reconnect_timer, connectToStompServer, bind, gets, modify. simpl.
  rewrite Hp. unfold new_promise, connect_executor, bind, gets, modify. simpl.
  rewrite Hc, Hok. simpl.
  unfold then_, modify. simpl. rewrite list_lookup_middle by done. simpl.
  rewrite !delays_app. simpl. rewrite !app_nil_r.
  unfold stomp_parameters_ok in *. simpl. done.
Qed.

(** One failed connection moves the interval one step up the backoff
    ladder and asks for exactly that delay. *)
Lemma failure_round k w s p :
  stompClient (client w) = Some s ->
  stomps w !! s = Some p ->
  closed (client w) = false ->
  stomp_parameters_ok (client w) = true ->
  reconnectInterval (client w) = backoff k ->
  let w' := failure w in
  delays (trace w') = delays (trace w) ++ [backoff (S k)] /\
  stompClient (client w') = Some (length (stomps w)) /\
  stomps w' !! length (stomps w) = Some (length (promises w)) /\
  closed (client w') = false /\
  stomp_parameters_ok (client w') = true /\
  reconnectInterval (client w') = backoff (S k).
Proof.
  intros Hs Hp Hc Hok Hi. unfold failure. rewrite Hs. simpl.
  destruct (disconnected_step w s p Hp Hc)
    as (Htr & Htm & Hri & Hsc & Hcp & Hcl & Hpar & Hst & Hpr).
  set (w1 := step w (OpStomp s disconnected)) in *.
  rewrite Hi, next_interval_backoff in *.
  assert (Hk : timers w1 !! length (timers w) = Some (backoff (S k))).
  { rewrite Htm. by apply list_lookup_middle. }
  destruct (timer_step w1 _ _ Hk Hcp Hcl) as (_ & Hsc2 & Hst2 & Hd2 & Hri2 & Hcl2 & Hpar2).
  { by rewrite Hpar. }
  set (w2 := step w1 (OpTimer (length (timers w)))) in *.
  destruct (jobs_step_backoff_kept w2) as (Hc3 & Hst3 & _ & Hd3).
  rewrite Hc3, Hst3, Hd3, Hd2, Htr, delays_app, Hst2, Hsc2, Hst, Hpr.
  split_and!; try done; [by apply list_lookup_middle | congruence].
Qed.

Lemma failures_delays n : forall k w s p,
  stompClient (client w) = Some s ->
  stomps w !! s = Some p ->
  closed (client w) = false ->
  stomp_parameters_ok (client w) = true ->
  reconnectInterval (client w) = backoff k ->
  delays (trace (failures n w))
  = delays (trace w) ++ (backoff <$> seq (S k) n).
Proof.
  induction n as [|n IH]; intros k w s p Hs Hp Hc Hok Hi; simpl.
  - by rewrite app_nil_r.
  - destruct (failure_round k w s p Hs Hp Hc Hok Hi)
      as (Hd & Hs' & Hp' & Hc' & Hok' & Hi').
    rewrite (IH (S k) (failure w) _ _ Hs' Hp' Hc' Hok' Hi'), Hd.
    by rewrite <- app_assoc.
Qed.

End BackoffFacts.

(** C1, as stated, fails: "the successive delays observed over repeated
    failures are exactly 500, 1000, 2000, 4000, 8000, 16000, 16000".
    After the first connection is up, seven failures in a row wait
    1000, 2000, 4000, 8000, 16000, 16000 and 16000 ms: no reconnect
    is ever scheduled after 500 ms. *)
Lemma first_delay_is_1000 :
  reconnectInterval (client Scenario.up) = 500 /\
  delays (trace (failures (host := Reference.host) 7 Scenario.up))
  = [1000; 2000; 4000; 8000; 16000; 16000; 16000] /\
  delays (trace (failures (host := Reference.host) 7 Scenario.up))
  <> [500; 1000; 2000; 4000; 8000; 16000; 16000].
Proof. vm_compute. split_and!; done. Qed.

(** C1 (amended): on every disconnection that is not an explicit close
    the interval is first doubled if it is below 16000 ms, and the
    reconnect is scheduled after the interval that results, without
    jitter; after an explicit close nothing is scheduled; a socket
    establishment puts the interval back to its start, which the
    constructor sets to 500 ms.  So the delays over [n] failures in a
    row, counted from an interval of 500 ms, are exactly 1000, 2000,
    4000, 8000, 16000, 16000, ... ms. *)
Theorem backoff_delays {host : Host} :
  (forall w s p,
     stomps w !! s = Some p ->
     closed (client w) = false ->
     trace (step w (OpStomp s disconnected))
     = trace w ++ [SetTimeout (next_interval (reconnectInterval (client w)))] /\
     reconnectInterval (client (step w (OpStomp s disconnected)))
     = next_interval (reconnectInterval (client w))) /\
  (forall w s p,
     stomps w !! s = Some p ->
     closed (client w) = true ->
     trace (step w (OpStomp s disconnected)) = trace w) /\
  (forall w s p,
     stomps w !! s = Some p ->
     reconnectInterval (client (step w (OpStomp s socketConnected)))
     = reconnectIntervalStart (client w)) /\
  (forall id secret h port space,
     reconnectInterval (new_client id secret h port space) = 500 /\
     reconnectIntervalStart (new_client id secret h port space) = 500) /\
  (forall n w s p,
     stompClient (client w) = Some s ->
     stomps w !! s = Some p ->
     closed (client w) = false ->
     stomp_parameters_ok (client w) = true ->
     reconnectInterval (client w) = 500 ->
     delays (trace (failures n w))
     = delays (trace w) ++ ((fun k => Z.min 16000 (500 * 2 ^ Z.of_nat k)) <$> seq 1 n)).
Proof.
  split_and!.
  - intros w s p Hs Hc.
    destruct (disconnected_step w s p Hs Hc) as (Htr & _ & Hri & _). done.
  - intros w s p Hs Hc. by destruct (disconnected_step_closed w s p Hs Hc).
  - intros w s p Hs. by destruct (socketConnected_step w s p Hs).
  - done.
  - intros n w s p Hs Hp Hc Hok Hi.
    exact (failures_delays n 0 w s p Hs Hp Hc Hok Hi).
Qed.

(** The amended C1 at the first connection of the scenario: seven
    failures in a row. *)
Lemma backoff_delays_witness :
  delays (trace (failures (host := Reference.host) 7 Scenario.up))
  = delays (trace Scenario.up)
    ++ ((fun k => Z.min 16000 (500 * 2 ^ Z.of_nat k)) <$> seq 1 7).
Proof.
  destruct (backoff_delays (host := Reference.host)) as (_ & _ & _ & _ & Hn).
  apply (Hn 7%nat Scenario.up 0%nat 0%nat); reflexivity.
Defined.

(** ** Connecting: claim C3 *)

(** With a memoized promise, [connectToStompServer] returns it and
    does nothing else. *)
Lemma connect_memoized w p :
  _connPromise (client w) = Some p ->
  connectToStompServer w = (Normal p, w).
Proof.
  intros Hp. unfold connectToStompServer, bind, gets. simpl. by rewrite Hp.
Qed.

(** Without one, on a closed client, it returns a new promise that is
    rejected on the spot, with no reason, and builds no Stomp object. *)
Lemma connect_closed w :
  _connPromise (client w) = None ->
  closed (client w) = true ->
  exists w',
    connectToStompServer w = (Normal (length (promises w)), w') /\
    promises w' = promises w ++ [{| state := Rejected None; reactions := [] |}] /\
    _connPromise (client w') = Some (length (promises w)) /\
    stompClient (client w') = stompClient (client w) /\
    stomps w' = stomps w /\ trace w' = trace w /\ jobs w' = jobs w /\
    timers w' = timers w.
Proof.
  intros Hp Hc. eexists. split.
  - unfold connectToStompServer, bind, gets. simpl. rewrite Hp.
    unfold new_promise, connect_executor, bind, gets, modify. simpl.
    rewrite Hc. unfold settle, modify. simpl.
    rewrite list_lookup_middle by done. simpl. reflexivity.
  - simpl. rewrite insert_app_r_alt by done. rewrite Nat.sub_diag. simpl.
    by rewrite app_nil_r.
Qed.

#[local] Instance memo_kept_preorder : PreOrder memo_kept.
Proof. split; [by intros w Hw | intros w1 w2 w3 H12 H23 Hw; by apply H23, H12]. Qed.

Lemma connect_memo_kept : stable memo_kept connectToStompServer.
Proof.
  intros w Hw. unfold connectToStompServer, bind, gets. simpl.
  destruct (_connPromise (client w)) as [p|] eqn:Hp; simpl; [done|].
  unfold new_promise, connect_executor, bind, gets, modify. simpl.
  destruct (closed (client w)); simpl.
  { unfold settle, modify, memo_while_connected. simpl.
    repeat case_match; simpl; done. }
  destruct (stomp_parameters_ok (client w)); simpl.
  - unfold memo_while_connected. simpl. done.
  - unfold settle, modify, memo_while_connected. simpl.
    repeat case_match; simpl; done.
Qed.

Ltac memo_leaf :=
  apply stable_modify; intros ?w ?Hw; unfold memo_while_connected in *;
  repeat case_match; simpl in *; try done; auto.

Lemma disconnected_memo_kept {host : Host} p :
  stable memo_kept (on_stomp_event p disconnected).
Proof.
  intros w Hw.
  unfold on_stomp_event, bind, modify_client, modify, gets,
    reconnectStompServer, emit. simpl.
  destruct (closed (client w)); simpl; [by intros []|].
  destruct (reconnectInterval (client w) <? 16000); simpl; by intros [].
Qed.

Lemma perform_memo_kept {host : Host} op : stable memo_kept (perform op).
Proof.
  pose proof connect_memo_kept as Hconnect.
  pose proof (disconnected_memo_kept 0%nat) as Hdisconnected.
  destruct op as [| | | | |s []| |];
    unfold perform, subscribe, observable_subscribe, acknowledge, disconnect,
      reconnect_timer, run_job_caught, run_job, on_stomp_event,
      run_messageCallback, decode_records, addSubscription, addReceipt,
      doClientSubscribe, reconnectStompServer, tracker_add, tracker_ack,
      observer_onNext, observer_onError, modify_client;
    stable_structure; memo_leaf.
Qed.

Lemma run_memo_kept {host : Host} ops w : memo_kept w (run ops w).
Proof.
  apply run_stable; [tc_solve | apply perform_memo_kept |].
  intros e. memo_leaf.
Qed.

(** C3, as stated, fails: "any call made after the manager has been
    closed fails immediately with a closed-state error".  After
    [disconnect()] and before the Stomp object reports [disconnected],
    the call returns the memoized promise, which is fulfilled. *)
Lemma connect_after_close_returns_memo :
  closed (client Scenario.closing) = true /\
  connectToStompServer Scenario.closing = (Normal 0%nat, Scenario.closing) /\
  state <$> promises Scenario.closing !! 0%nat = Some Fulfilled.
Proof.
  split_and!; [done | | done].
  by apply connect_memoized.
Qed.

(** C3 (amended): [connect()] is memoized single-flight.  Every call
    made while a promise is memoized returns that promise and changes
    nothing: no second Stomp object is built; a promise is memoized
    whenever a Stomp object is at hand, that is, while a connection is
    in progress or established; all reactions waiting on the promise
    get the one outcome it is settled with; and a call made on a closed
    client after the memoized promise has been cleared returns a
    promise that is rejected on the spot, with no error value, and
    builds no Stomp object. *)
Theorem connect_single_flight {host : Host} :
  (forall w p,
     _connPromise (client w) = Some p ->
     connectToStompServer w = (Normal p, w)) /\
  (forall ops id secret h port space,
     let w := run ops (new_world (new_client id secret h port space)) in
     stompClient (client w) <> None ->
     exists p,
       _connPromise (client w) = Some p /\
       connectToStompServer w = (Normal p, w)) /\
  (forall w p pr s,
     promises w !! p = Some pr ->
     state pr = Pending ->
     jobs (settle p s w).2
     = jobs w ++ ((fun r => {| j_reaction := r; j_outcome := s |}) <$> reactions pr)) /\
  (forall w,
     _connPromise (client w) = None ->
     closed (client w) = true ->
     exists w',
       connectToStompServer w = (Normal (length (promises w)), w') /\
       promises w' !! length (promises w)
       = Some {| state := Rejected None; reactions := [] |} /\
       stomps w' = stomps w /\ trace w' = trace w).
Proof.
  split_and!.
  - apply connect_memoized.
  - intros ops id secret h port space w Hs.
    assert (Hm : memo_while_connected w).
    { apply run_memo_kept. by intros []. }
    destruct (_connPromise (client w)) as [p|] eqn:Hp; [|by destruct (Hm Hs)].
    exists p. split; [done|]. by apply connect_memoized.
  - intros w p pr s Hp Hs. unfold settle, modify. simpl. by rewrite Hp, Hs.
  - intros w Hp Hc.
    destruct (connect_closed w Hp Hc) as (w' & Hw' & Hpr & _ & _ & Hst & Htr & _).
    exists w'. split_and!; try done. rewrite Hpr. by apply list_lookup_middle.
Qed.

(** The amended C3 at the closed client of the scenario, once the
    Stomp object has reported [disconnected]. *)
Lemma connect_single_flight_witness :
  exists w',
    connectToStompServer Scenario.closed_down
    = (Normal (length (promises Scenario.closed_down)), w') /\
    promises w' !! length (promises Scenario.closed_down)
    = Some {| state := Rejected None; reactions := [] |} /\
    stomps w' = stomps Scenario.closed_down /\
    trace w' = trace Scenario.closed_down.
Proof.
  destruct (connect_single_flight (host := Reference.host)) as (_ & _ & _ & Hclosed).
  apply (Hclosed Scenario.closed_down); reflexivity.
Defined.

(** ** Tables *)

Module TableFacts.
Import Table.

Section Facts.
Context {V : Type}.
Implicit Types (tb : t V) (k : string) (v : V).

Lemma lookup_put_eq k v tb : lookup k (put k v tb) = Some v.
Proof.
  induction tb as [|[k' v'] tb IH]; simpl.
  - by rewrite String.eqb_refl.
  - destruct (String.eqb k k') eqn:E; simpl; by rewrite ?String.eqb_refl, ?E.
Qed.

Lemma lookup_put_ne k k' v tb :
  k <> k' -> lookup k (put k' v tb) = lookup k tb.
Proof.
  intros Hk. induction tb as [|[k0 v0] tb IH]; simpl.
  - by rewrite (proj2 (String.eqb_neq _ _) Hk).
  - destruct (String.eqb k' k0) eqn:E; simpl.
    + apply String.eqb_eq in E. subst k0.
      by rewrite (proj2 (String.eqb_neq _ _) Hk).
    + by rewrite IH.
Qed.

Lemma lookup_assign_eq k v tb :
  k <> "__proto__" -> lookup k (assign k v tb) = Some v.
Proof.
  intros Hk. unfold assign. rewrite (proj2 (String.eqb_neq _ _) Hk).
  apply lookup_put_eq.
Qed.

Lemma lookup_assign_ne k k' v tb :
  k <> k' -> lookup k (assign k' v tb) = lookup k tb.
Proof.
  intros Hk. unfold assign. destruct (String.eqb k' "__proto__"); [done|].
  by apply lookup_put_ne.
Qed.

(** Assignment never takes an own property away. *)
Lemma lookup_assign_is_Some k k' v tb :
  is_Some (lookup k tb) -> is_Some (lookup k (assign k' v tb)).
Proof.
  intros Hk. unfold assign. destruct (String.eqb k' "__proto__"); [done|].
  destruct (decide (k = k')) as [->|Hne].
  - by rewrite lookup_put_eq.
  - by rewrite lookup_put_ne.
Qed.

Lemma lookup_keys k tb : is_Some (lookup k tb) <-> k ∈ tb.*1.
Proof.
  induction tb as [|[k' v'] tb IH]; simpl.
  - split; [by intros [? [=]] | by intros ?%elem_of_nil].
  - destruct (String.eqb_spec k k') as [->|Hne].
    + split; [intros _; apply list_elem_of_here | by eexists].
    + rewrite IH. split; [apply list_elem_of_further|].
      by intros [?|?]%elem_of_cons.
Qed.

(** Without an own property [hasOwnProperty] the method answers. *)
Lemma hasOwnProperty_own tb k v :
  lookup "hasOwnProperty" tb = None ->
  lookup k tb = Some v ->
  hasOwnProperty tb k = Normal true.
Proof. intros Hm Hk. unfold hasOwnProperty. by rewrite Hm, Hk. Qed.

Lemma hasOwnProperty_none tb k :
  lookup "hasOwnProperty" tb = None ->
  lookup k tb = None ->
  hasOwnProperty tb k = Normal false.
Proof. intros Hm Hk. unfold hasOwnProperty. by rewrite Hm, Hk. Qed.

(** With one, every call throws. *)
Lemma hasOwnProperty_shadowed tb k v :
  lookup "hasOwnProperty" tb = Some v ->
  hasOwnProperty tb k = Throw TypeError.
Proof. intros Hm. unfold hasOwnProperty. by rewrite Hm. Qed.

Lemma insert_sorted_perm x (l : list (N * (string * V))) :
  insert_sorted x l ≡ₚ x :: l.
Proof.
  induction l as [|y l IH]; simpl; [done|].
  destruct (x.1 <=? y.1)%N; [done|]. rewrite IH. apply Permutation_swap.
Qed.

(** [for ... in] visits every own property once. *)
Lemma for_in_perm tb : for_in tb ≡ₚ tb.
Proof.
  unfold for_in, t in *. induction tb as [|kv tb IH]; [done|].
  cbn [omap list_omap]. rewrite filter_cons.
  destruct (decide (array_index kv.1 = None)) as [Hn|Hn].
  - rewrite Hn. simpl. rewrite <- Permutation_middle. by rewrite IH.
  - destruct (array_index kv.1) as [n|]; [|done]. cbn [fmap option_fmap option_map foldr].
    rewrite insert_sorted_perm. simpl. by rewrite IH.
Qed.

Lemma for_in_keys k tb : k ∈ (for_in tb).*1 <-> k ∈ tb.*1.
Proof. by rewrite for_in_perm. Qed.

(** A table none of whose names is an array index is walked in the
    order its properties were created. *)
Lemma for_in_named tb :
  Forall (fun kv => array_index kv.1 = None) tb -> for_in tb = tb.
Proof.
  intros Htb. unfold for_in, t in *.
  assert (Hidx : omap (fun kv : string * V => (fun n => (n, kv)) <$> array_index kv.1) tb
                 = []).
  { induction Htb as [|kv tb Hkv _ IH]; [done|].
    cbn [omap list_omap]. by rewrite Hkv. }
  rewrite Hidx. simpl.
  induction Htb as [|kv tb Hkv Htb IH]; [done|].
  rewrite filter_cons, decide_True by done. f_equal. apply IH.
  cbn [omap list_omap] in Hidx. by rewrite Hkv in Hidx.
Qed.

Lemma for_in_singleton k v : for_in [(k, v)] = [(k, v)].
Proof.
  unfold for_in, t. cbn [omap list_omap]. rewrite filter_cons. simpl.
  destruct (decide (array_index k = None)) as [Hn|Hn].
  - by rewrite Hn.
  - by destruct (array_index k).
Qed.

End Facts.

End TableFacts.

(** ** The world after single operations *)

Section StepFacts.
Context {host : Host}.

(** Connecting leaves the tables alone. *)
Lemma connect_tables w :
  subscriptions (client (connectToStompServer w).2) = subscriptions (client w) /\
  receipts (client (connectToStompServer w).2) = receipts (client w).
Proof.
  unfold connectToStompServer, bind, gets. simpl.
  destruct (_connPromise (client w)); simpl; [done|].
  unfold new_promise, connect_executor, bind, gets, modify. simpl.
  destruct (closed (client w)); simpl.
  { unfold settle, modify. simpl. repeat case_match; simpl; done. }
  destruct (stomp_parameters_ok (client w)); simpl; [done|].
  unfold settle, modify. simpl. repeat case_match; simpl; done.
Qed.

(** It returns a promise. *)
Lemma connect_returns w : exists p, (connectToStompServer w).1 = Normal p.
Proof.
  unfold connectToStompServer, bind, gets. simpl.
  destruct (_connPromise (client w)); simpl; [by eexists|].
  unfold new_promise, connect_executor, bind, gets, modify. simpl.
  destruct (closed (client w)); simpl; [by eexists|].
  destruct (stomp_parameters_ok (client w)); simpl; by eexists.
Qed.

(** The world after the [disconnected] handler, on a client that has
    not been closed. *)
Lemma disconnected_world w s p :
  stomps w !! s = Some p ->
  closed (client w) = false ->
  step w (OpStomp s disconnected)
  = let d := next_interval (reconnectInterval (client w)) in
    set_trace (trace w ++ [SetTimeout d])
      (set_timers (timers w ++ [d])
         (set_client
            (set_reconnectInterval d
               (set_connPromise None (set_stompClient None (client w)))) w)).
Proof.
  intros Hs Hc. unfold step, catch, perform, bind, gets. simpl. rewrite Hs.
  unfold on_stomp_event, bind, modify_client, modify, gets,
    reconnectStompServer, emit, next_interval. simpl. rewrite Hc. simpl.
  destruct (reconnectInterval (client w) <? 16000); simpl; done.
Qed.

(** The world after the reconnect timer, on a client that is neither
    closed nor connected. *)
Lemma timer_world w k d :
  timers w !! k = Some d ->
  _connPromise (client w) = None ->
  closed (client w) = false ->
  stomp_parameters_ok (client w) = true ->
  step w (OpTimer k)
  = let p := length (promises w) in
    let s := length (stomps w) in
    set_promises (promises w ++ [{| state := Pending; reactions := [RReconnect] |}])
      (set_trace (trace w ++ [NewStomp s; StompConnect s])
         (set_stomps (stomps w ++ [p])
            (set_timers (delete k (timers w))
               (set_client
                  (set_connPromise (Some p) (set_stompClient (Some s) (client w)))
                  w)))).
Proof.
  intros Ht Hp Hc Hok. unfold step, catch, perform, bind, gets. simpl.
  rewrite Ht.
  unfold reconnect_timer, connectToStompServer, bind, gets, modify. simpl.
  rewrite Hp. unfold new_promise, connect_executor, bind, gets, modify. simpl.
  rewrite Hc, Hok. simpl.
  unfold then_, modify. simpl. rewrite list_lookup_middle by done. simpl.
  rewrite insert_app_r_alt by done. rewrite Nat.sub_diag. simpl.
  by rewrite <- !app_assoc.
Qed.

(** The world after the [connected] handler of a Stomp object whose
    promise is pending. *)
Lemma connected_world w s p rs :
  stomps w !! s = Some p ->
  promises w !! p = Some {| state := Pending; reactions := rs |} ->
  step w (OpStomp s connected)
  = set_client (set_connectionCount (S (connectionCount (client w))) (client w))
      (set_jobs
         (jobs w ++ ((fun r => {| j_reaction := r; j_outcome := Fulfilled |}) <$> rs))
         (set_promises
            (<[p := {| state := Fulfilled; reactions := [] |}]> (promises w)) w)).
Proof.
  intros Hs Hp. unfold step, catch, perform, bind, gets. simpl. rewrite Hs.
  unfold on_stomp_event, settle, bind, modify_client, modify, gets. simpl.
  by rewrite Hp.
Qed.

(** The world after the [socketConnected] handler. *)
Lemma socketConnected_world w s p :
  stomps w !! s = Some p ->
  step w (OpStomp s socketConnected)
  = set_client
      (set_reconnectInterval (reconnectIntervalStart (client w)) (client w)) w.
Proof.
  intros Hs. unfold step, catch, perform, bind, gets. simpl. by rewrite Hs.
Qed.

(** Running a job queue of one job that returns. *)
Lemma jobs_world w j w' :
  jobs w = [j] ->
  run_job j (set_jobs [] w) = (Normal tt, w') ->
  step w OpJobs = w'.
Proof.
  intros Hj Hr. unfold step, catch, perform, bind, gets, modify. simpl.
  rewrite Hj. simpl. unfold run_job_caught, catch, bind. by rewrite Hr.
Qed.

(** Running a job queue of one job that throws. *)
Lemma jobs_world_thrown w j e w' :
  jobs w = [j] ->
  run_job j (set_jobs [] w) = (Throw e, w') ->
  step w OpJobs = set_trace (trace w' ++ [Threw e]) w'.
Proof.
  intros Hj Hr. unfold step, catch, perform, bind, gets, modify. simpl.
  rewrite Hj. simpl. unfold run_job_caught, catch, bind. by rewrite Hr.
Qed.

(** Running an empty job queue. *)
Lemma jobs_world_empty w : jobs w = [] -> step w OpJobs = set_jobs [] w.
Proof.
  intros Hj. unfold step, catch, perform, bind, gets, modify. simpl.
  by rewrite Hj.
Qed.

(** [doClientSubscribe] on a registered name, with a Stomp object at
    hand. *)
Lemma doClientSubscribe_run w sid sub s :
  Table.lookup "hasOwnProperty" (subscriptions (client w)) = None ->
  Table.lookup sid (subscriptions (client w)) = Some sub ->
  stompClient (client w) = Some s ->
  doClientSubscribe sid w
  = (Normal tt, set_trace (trace w ++ [StompSubscribe s (headers sub)]) w).
Proof.
  intros Hm Hsub Hs. unfold doClientSubscribe, bind, gets, lift. simpl.
  rewrite (TableFacts.hasOwnProperty_own _ _ _ Hm Hsub). simpl.
  by rewrite Hsub, Hs.
Qed.

(** On a name that is not registered it logs an error. *)
Lemma doClientSubscribe_absent w sid :
  Table.lookup "hasOwnProperty" (subscriptions (client w)) = None ->
  Table.lookup sid (subscriptions (client w)) = None ->
  doClientSubscribe sid w = (Normal tt, set_trace (trace w ++ [LoggedError]) w).
Proof.
  intros Hm Hsub. unfold doClientSubscribe, bind, gets, lift. simpl.
  by rewrite (TableFacts.hasOwnProperty_none _ _ Hm Hsub).
Qed.

(** With an entry named [hasOwnProperty] in the table it throws. *)
Lemma doClientSubscribe_shadowed w sid :
  is_Some (Table.lookup "hasOwnProperty" (subscriptions (client w))) ->
  doClientSubscribe sid w = (Throw TypeError, w).
Proof.
  intros [m Hm]. unfold doClientSubscribe, bind, gets, lift. simpl.
  by rewrite (TableFacts.hasOwnProperty_shadowed _ _ m Hm).
Qed.

(** Without a Stomp object it throws. *)
Lemma doClientSubscribe_unconnected w sid sub :
  Table.lookup "hasOwnProperty" (subscriptions (client w)) = None ->
  Table.lookup sid (subscriptions (client w)) = Some sub ->
  stompClient (client w) = None ->
  doClientSubscribe sid w = (Throw TypeError, w).
Proof.
  intros Hm Hsub Hs. unfold doClientSubscribe, bind, gets, lift. simpl.
  rewrite (TableFacts.hasOwnProperty_own _ _ _ Hm Hsub). simpl.
  by rewrite Hsub, Hs.
Qed.

(** The loop that subscribes again, with a Stomp object at hand. *)
Lemma forEach_resubscribe s names : forall w,
  Table.lookup "hasOwnProperty" (subscriptions (client w)) = None ->
  stompClient (client w) = Some s ->
  forEach resubscribe names w
  = (Normal tt,
     set_trace
       (trace w ++ resubscriptions s (subscriptions (client w)) names) w).
Proof.
  induction names as [|sid names IH]; intros w Hm Hs.
  - simpl. unfold ret. rewrite app_nil_r. by destruct w.
  - cbn [forEach resubscriptions omap list_omap]. unfold bind at 1.
    unfold resubscribe at 1. unfold bind, gets, lift. cbn [fst snd].
    destruct (Table.lookup sid (subscriptions (client w))) as [sub|] eqn:Hsub.
    + rewrite (TableFacts.hasOwnProperty_own _ _ _ Hm Hsub). cbn [fst snd].
      rewrite (doClientSubscribe_run w sid sub s Hm Hsub Hs).
      rewrite IH by done. simpl. by rewrite <- app_assoc.
    + rewrite (TableFacts.hasOwnProperty_none _ _ Hm Hsub). cbn [fst snd].
      unfold ret. rewrite IH by done. done.
Qed.

(** The loop that reports a failed reconnect. *)
Lemma forEach_report reason names : forall w,
  Table.lookup "hasOwnProperty" (receipts (client w)) = None ->
  forEach (report reason) names w
  = (Normal tt,
     set_trace (trace w ++ reports reason (receipts (client w)) names) w).
Proof.
  induction names as [|r names IH]; intros w Hm.
  - simpl. unfold ret. rewrite app_nil_r. by destruct w.
  - cbn [forEach reports omap list_omap]. unfold bind at 1.
    unfold report at 1. unfold bind, gets, lift. cbn [fst snd].
    destruct (Table.lookup r (receipts (client w))) as [rc|] eqn:Hr.
    + rewrite (TableFacts.hasOwnProperty_own _ _ _ Hm Hr). cbn [fst snd].
      unfold emit, modify. cbn [fst snd].
      rewrite IH by done. simpl. by rewrite <- app_assoc.
    + rewrite (TableFacts.hasOwnProperty_none _ _ Hm Hr). cbn [fst snd].
      unfold ret. rewrite IH by done. done.
Qed.

(** The fulfilled branch of the reaction [reconnectStompServer]
    registers. *)
Lemma reconnect_fulfilled_job w s :
  Table.lookup "hasOwnProperty" (subscriptions (client w)) = None ->
  stompClient (client w) = Some s ->
  run_job {| j_reaction := RReconnect; j_outcome := Fulfilled |} w
  = (Normal tt,
     set_trace
       (trace w ++
        resubscriptions s (subscriptions (client w))
          (Table.for_in (subscriptions (client w))).*1) w).
Proof.
  intros Hm Hs. unfold run_job, bind, gets. simpl.
  by apply forEach_resubscribe.
Qed.

(** Its rejected branch. *)
Lemma reconnect_rejected_job w reason :
  Table.lookup "hasOwnProperty" (receipts (client w)) = None ->
  run_job {| j_reaction := RReconnect; j_outcome := Rejected reason |} w
  = (Normal tt,
     set_trace
       (trace w ++
        reports reason (receipts (client w))
          (Table.for_in (receipts (client w))).*1) w).
Proof.
  intros Hm. unfold run_job, bind, gets. simpl. by apply forEach_report.
Qed.

(** A table with an entry named [hasOwnProperty] has a first name to
    walk. *)
Lemma for_in_shadowed {V} (tb : Table.t V) :
  is_Some (Table.lookup "hasOwnProperty" tb) ->
  exists k names, (Table.for_in tb).*1 = k :: names.
Proof.
  intros Hm%TableFacts.lookup_keys%TableFacts.for_in_keys.
  destruct ((Table.for_in tb).*1) as [|k names]; [by apply elem_of_nil in Hm|].
  by eexists _, _.
Qed.

(** With an entry named [hasOwnProperty] in the table the first test
    of either loop throws. *)
Lemma reconnect_fulfilled_job_shadowed w :
  is_Some (Table.lookup "hasOwnProperty" (subscriptions (client w))) ->
  run_job {| j_reaction := RReconnect; j_outcome := Fulfilled |} w
  = (Throw TypeError, w).
Proof.
  intros Hm. unfold run_job, bind, gets. simpl.
  destruct (for_in_shadowed _ Hm) as (k & names & ->). destruct Hm as [m Hm].
  cbn [forEach]. unfold bind at 1. unfold resubscribe at 1.
  unfold bind, gets, lift. cbn [fst snd].
  by rewrite (TableFacts.hasOwnProperty_shadowed _ _ m Hm).
Qed.

Lemma reconnect_rejected_job_shadowed w reason :
  is_Some (Table.lookup "hasOwnProperty" (receipts (client w))) ->
  run_job {| j_reaction := RReconnect; j_outcome := Rejected reason |} w
  = (Throw TypeError, w).
Proof.
  intros Hm. unfold run_job, bind, gets. simpl.
  destruct (for_in_shadowed _ Hm) as (k & names & ->). destruct Hm as [m Hm].
  cbn [forEach]. unfold bind at 1. unfold report at 1.
  unfold bind, gets, lift. cbn [fst snd].
  by rewrite (TableFacts.hasOwnProperty_shadowed _ _ m Hm).
Qed.

(** The receipt handler calls the callback and keeps the entry. *)
Lemma receipt_step w s p r rc :
  stomps w !! s = Some p ->
  Table.lookup "hasOwnProperty" (receipts (client w)) = None ->
  Table.lookup r (receipts (client w)) = Some rc ->
  step w (OpStomp s (receipt r))
  = set_trace (trace w ++ [CallCallback (clientSubscribeCallback rc) (CbReceipt r)]) w.
Proof.
  intros Hs Hm Hr. unfold step, catch, perform, bind, gets. simpl. rewrite Hs.
  unfold on_stomp_event, bind, gets, lift. simpl.
  rewrite (TableFacts.hasOwnProperty_own _ _ _ Hm Hr). simpl. by rewrite Hr.
Qed.

(** A receipt id that is not in the table is passed over. *)
Lemma receipt_step_unknown w s p r :
  stomps w !! s = Some p ->
  Table.lookup "hasOwnProperty" (receipts (client w)) = None ->
  Table.lookup r (receipts (client w)) = None ->
  step w (OpStomp s (receipt r)) = w.
Proof.
  intros Hs Hm Hr. unfold step, catch, perform, bind, gets. simpl. rewrite Hs.
  unfold on_stomp_event, bind, gets, lift. simpl.
  by rewrite (TableFacts.hasOwnProperty_none _ _ Hm Hr).
Qed.

(** With an entry named [hasOwnProperty] in the table the test of the
    receipt handler throws. *)
Lemma receipt_step_shadowed w s p r :
  stomps w !! s = Some p ->
  is_Some (Table.lookup "hasOwnProperty" (receipts (client w))) ->
  step w (OpStomp s (receipt r)) = set_trace (trace w ++ [Threw TypeError]) w.
Proof.
  intros Hs [m Hm]. unfold step, catch, perform, bind, gets. simpl. rewrite Hs.
  unfold on_stomp_event, bind, gets, lift. simpl.
  by rewrite (TableFacts.hasOwnProperty_shadowed _ _ m Hm).
Qed.

(** [subscribe] with a subscriber id and a filter that pass its
    check. *)
Lemma subscribe_world w sid f o cb k ks :
  sid <> EmptyString ->
  Object_keys f = Normal (k :: ks) ->
  subscribe sid f o cb w
  = (Normal (Subscribed {| hd_subscriberId := sid; hd_filter := f;
                           hd_options := o; hd_callback := cb;
                           hd_tracker := length (trackers w) |}),
     set_trackers (trackers w ++ [AckOrderTracker.empty]) w).
Proof.
  intros Hsid Hf. unfold subscribe, bind, gets, modify, ret, lift. simpl.
  rewrite (proj2 (String.eqb_neq _ _) Hsid). unfold cbind. by rewrite Hf.
Qed.

(** A frame for a client whose subscription table has an entry named
    [hasOwnProperty]: the test of the message handler throws. *)
Lemma message_shadowed w s p frame a rh sid :
  stomps w !! s = Some p ->
  JSON_parse (unEscapeStr (f_ack frame)) = Some a ->
  get a "receiptHandle" = Normal rh ->
  get rh "subscriberId" = Normal sid ->
  is_Some (Table.lookup "hasOwnProperty" (subscriptions (client w))) ->
  step w (OpStomp s (message frame)) = set_trace (trace w ++ [Threw TypeError]) w.
Proof.
  intros Hs Ha Hrh Hsid [sub Hm]. unfold step, catch, perform, bind, gets. simpl.
  rewrite Hs. unfold on_stomp_event, bind, lift, gets. simpl.
  rewrite Ha, Hrh, Hsid. simpl.
  by rewrite (TableFacts.hasOwnProperty_shadowed _ _ sub Hm).
Qed.

(** What subscribing to the event sequence writes into the tables. *)
Lemma observable_subscribe_tables w h u :
  let w' := step w (OpObservableSubscribe h u) in
  let c := client w in
  subscriptions (client w')
  = Table.assign (hd_subscriberId h)
      {| subscriberId := hd_subscriberId h;
         entityTypesAndEvents := hd_filter h;
         messageCallback :=
           {| mc_tracker := hd_tracker h; mc_observer := length (observers w) |};
         headers :=
           {| h_id := "subscription-id-" +:+ u;
              h_receipt := "receipt-id-" +:+ u;
              h_destination :=
                {| d_entityTypesAndEvents := hd_filter h;
                   d_subscriberId := hd_subscriberId h;
                   d_space := if truthy (spaceName c) then Some (spaceName c)
                              else None;
                   d_options := hd_options h |} |} |}
      (subscriptions c) /\
  receipts (client w')
  = Table.assign ("receipt-id-" +:+ u)
      {| clientSubscribeCallback := hd_callback h |} (receipts c).
Proof.
  intros w' c. subst w' c.
  unfold step, catch, perform, observable_subscribe, addSubscription, addReceipt,
    bind, modify_client, modify, gets. simpl.
  match goal with
  | |- context [connectToStompServer ?w0] =>
      destruct (connect_tables w0) as [Hsub Hrec];
      destruct (connectToStompServer w0) as [[q|e] w2]
  end; simpl in *.
  - destruct (promises w2 !! q) as [pr|]; [destruct (state pr)|]; simpl;
      by rewrite Hsub, Hrec.
  - unfold emit, modify. simpl. by rewrite Hsub, Hrec.
Qed.

End StepFacts.

(** ** Pending receipts: claims C4 and C5 *)

#[local] Instance receipts_kept_preorder : PreOrder receipts_kept.
Proof.
  split; [by intros w r|].
  intros w1 w2 w3 H12 H23 r Hr. by apply H23, H12.
Qed.

Ltac receipts_leaf :=
  apply stable_modify; intros ?w ?r; simpl;
  repeat case_match; simpl; try done;
  apply TableFacts.lookup_assign_is_Some.

Lemma perform_receipts_kept {host : Host} op : stable receipts_kept (perform op).
Proof.
  destruct op; unfold_methods; unfold resubscribe, report, doClientSubscribe;
    stable_structure; receipts_leaf.
Qed.

Lemma run_receipts_kept {host : Host} ops w : receipts_kept w (run ops w).
Proof.
  apply run_stable; [tc_solve | apply perform_receipts_kept |].
  intros e. receipts_leaf.
Qed.

(** The reconnect timer on a closed client: the connection promise is
    rejected on the spot and the rejected branch of the reaction is
    queued. *)
Lemma timer_step_closed {host : Host} w k d :
  timers w !! k = Some d ->
  _connPromise (client w) = None ->
  closed (client w) = true ->
  jobs (step w (OpTimer k))
  = jobs w ++ [{| j_reaction := RReconnect; j_outcome := Rejected None |}] /\
  stomps (step w (OpTimer k)) = stomps w /\
  trace (step w (OpTimer k)) = trace w /\
  receipts (client (step w (OpTimer k))) = receipts (client w).
Proof.
  intros Ht Hp Hc. unfold step, catch, perform, bind, gets. simpl.
  rewrite Ht. unfold reconnect_timer, bind, modify. simpl.
  set (w1 := set_timers (delete k (timers w)) w).
  destruct (connect_closed w1 Hp Hc)
    as (w2 & Hw2 & Hpr & _ & _ & Hst & Htr & Hj & _).
  rewrite Hw2. simpl. unfold then_, modify. simpl.
  rewrite Hpr, list_lookup_middle by done. simpl.
  rewrite Hj, Hst, Htr. split_and!; try done.
  revert Hw2. unfold connectToStompServer, bind, gets. simpl. rewrite Hp.
  unfold new_promise, connect_executor, bind, gets, modify. simpl.
  rewrite Hc. unfold settle, modify. simpl.
  rewrite list_lookup_middle by done. simpl. by intros [= <-].
Qed.

(** One reconnect attempt that fails at the transport: the timer
    fires, a Stomp object is built, and it reports [disconnected].
    The promise of the attempt stays as it is, no job is queued and
    nothing but the next timer is asked for. *)
Lemma failed_attempt {host : Host} w k d :
  timers w !! k = Some d ->
  _connPromise (client w) = None ->
  closed (client w) = false ->
  stomp_parameters_ok (client w) = true ->
  jobs w = [] ->
  let s := length (stomps w) in
  let w' := run [OpTimer k; OpJobs; OpStomp s disconnected; OpJobs] w in
  trace w'
  = trace w ++ [NewStomp s; StompConnect s;
                SetTimeout (next_interval (reconnectInterval (client w)))] /\
  promises w'
  = promises w ++ [{| state := Pending; reactions := [RReconnect] |}] /\
  jobs w' = [] /\
  receipts (client w') = receipts (client w) /\
  subscriptions (client w') = subscriptions (client w).
Proof.
  intros Ht Hp Hc Hok Hj s w'. subst w'. unfold run. cbn [foldl].
  rewrite (timer_world w k d Ht Hp Hc Hok). cbv zeta.
  set (w1 := set_promises _ _).
  rewrite (jobs_world_empty w1) by exact Hj.
  rewrite (disconnected_world _ s (length (promises w)));
    [|by apply list_lookup_middle|exact Hc].
  cbv zeta. set (w3 := set_trace _ _).
  rewrite (jobs_world_empty w3) by done.
  subst w3 w1. simpl. rewrite <- !app_assoc. done.
Qed.

(** *** Nothing is reported before the client is closed *)

#[local] Instance settings_kept_preorder : PreOrder settings_kept.
Proof.
  split; [by intros w|].
  intros w1 w2 w3 [H12 C12] [H23 C23]. split; [congruence | auto].
Qed.

Ltac settings_leaf :=
  apply stable_modify; intros ?w; unfold settings_kept, stomp_parameters_ok;
  simpl; repeat case_match; simpl; done.

Lemma run_job_settings_kept j : stable settings_kept (run_job_caught j).
Proof.
  unfold run_job_caught, run_job, resubscribe, report, doClientSubscribe.
  destruct j as [[sid cb|] [| |reason]]; simpl; stable_structure; settings_leaf.
Qed.

#[local] Instance quiet_kept_preorder : PreOrder quiet_kept.
Proof. split; [by intros w Hw | intros w1 w2 w3 H12 H23 Hw; by apply H23, H12]. Qed.

Lemma stable_forEach_Forall (R : relation World) `{!PreOrder R}
    {A} (f : A -> M unit) l :
  Forall (fun x => stable R (f x)) l -> stable R (forEach f l).
Proof.
  induction 1 as [|x l Hx _ IH]; simpl.
  - by apply stable_ret.
  - apply stable_bind; [done | done | by intros _].
Qed.

Ltac quiet_leaf :=
  apply stable_modify; intros ?w [?Hok ?Hq];
  (split; [exact Hok|]); simpl; intros ?Hc; try done;
  specialize (Hq Hc); destruct Hq as (?Hp & ?Hj & ?Ht);
  unfold unreported; repeat case_match; simpl;
  rewrite ?Forall_app, ?Forall_fmap;
  split_and?; try done;
  try (by repeat constructor);
  try (by apply Forall_insert);
  try (by apply Forall_true).

Lemma connect_quiet_kept : stable quiet_kept connectToStompServer.
Proof.
  intros w [Hok Hq]. unfold connectToStompServer, bind, gets. simpl.
  destruct (_connPromise (client w)) as [p|] eqn:Hp; simpl; [done|].
  unfold new_promise, connect_executor, bind, gets, modify. simpl.
  destruct (closed (client w)) eqn:Hc; simpl.
  { unfold settle, modify. simpl.
    repeat case_match; simpl; (split; [exact Hok | simpl; congruence]). }
  rewrite Hok. simpl. split; [exact Hok|]. simpl. intros _.
  destruct (Hq eq_refl) as (Hpr & Hj & Ht). unfold unreported. simpl.
  rewrite <- !app_assoc, !Forall_app. split_and!; try done; by repeat constructor.
Qed.

Lemma then_quiet_kept p r : stable quiet_kept (then_ p r).
Proof.
  apply stable_modify. intros w [Hok Hq].
  destruct (promises w !! p) as [pr|] eqn:Hpr; [|done].
  destruct (state pr) eqn:Hs; (split; [exact Hok|]); simpl; intros Hc;
    destruct (Hq Hc) as (Hp & Hj & Ht); unfold unreported; simpl.
  - split_and!; try done. by apply Forall_insert.
  - rewrite Forall_app. split_and!; try done. by repeat constructor.
  - rewrite Forall_lookup in Hp. specialize (Hp p pr Hpr). by rewrite Hs in Hp.
Qed.

Lemma settle_fulfilled_quiet_kept p : stable quiet_kept (settle p Fulfilled).
Proof.
  apply stable_modify. intros w [Hok Hq].
  destruct (promises w !! p) as [pr|] eqn:Hpr; [|done].
  destruct (state pr) eqn:Hs; try done.
  split; [exact Hok|]. simpl. intros Hc.
  destruct (Hq Hc) as (Hp & Hj & Ht). unfold unreported. simpl.
  rewrite Forall_app, Forall_fmap. split_and!; try done.
  - by apply Forall_insert.
  - by apply Forall_true.
Qed.

(** A job that carries no rejection reports nothing. *)
Lemma run_job_quiet_kept j :
  rejected (j_outcome j) = false -> stable quiet_kept (run_job_caught j).
Proof.
  intros Hj. unfold run_job_caught, run_job, resubscribe, doClientSubscribe.
  destruct j as [[sid cb|] [| |reason]]; simpl in *; try done;
    stable_structure; quiet_leaf.
Qed.

Lemma jobs_quiet_kept {host : Host} : stable quiet_kept (perform OpJobs).
Proof.
  intros w [Hok Hq]. unfold perform, bind, gets, modify. simpl.
  set (w1 := set_jobs [] w).
  destruct (closed (client w)) eqn:Hc.
  - assert (Hs : settings_kept w1 (forEach run_job_caught (jobs w) w1).2).
    { apply stable_forEach; [tc_solve|]. apply run_job_settings_kept. }
    destruct Hs as [Hpar Hcl]. split.
    + by rewrite Hpar.
    + rewrite (Hcl Hc). done.
  - destruct (Hq eq_refl) as (Hp & Hj & Ht).
    apply (stable_forEach_Forall quiet_kept).
    + eapply Forall_impl; [exact Hj|]. intros j. apply run_job_quiet_kept.
    + split; [exact Hok|]. intros _. split_and!; [done | constructor | done].
Qed.

Lemma perform_quiet_kept {host : Host} op : stable quiet_kept (perform op).
Proof.
  pose proof connect_quiet_kept as Hconnect.
  pose proof then_quiet_kept as Hthen.
  pose proof settle_fulfilled_quiet_kept as Hsettle.
  destruct op as [| | | | | | |]; [..|apply jobs_quiet_kept];
    unfold perform, subscribe, observable_subscribe, acknowledge, disconnect,
      reconnect_timer, on_stomp_event,
      run_messageCallback, decode_records, addSubscription, addReceipt,
      reconnectStompServer, tracker_add, tracker_ack,
      observer_onNext, observer_onError, modify_client;
    stable_structure; quiet_leaf.
Qed.

Lemma run_quiet_kept {host : Host} ops w : quiet_kept w (run ops w).
Proof.
  apply run_stable; [tc_solve | apply perform_quiet_kept |].
  intros e. quiet_leaf.
Qed.

(** *** The names of the receipt table *)

#[local] Instance receipt_names_kept_preorder : PreOrder receipt_names_kept.
Proof. split; [by intros w Hw | intros w1 w2 w3 H12 H23 Hw; by apply H23, H12]. Qed.

Lemma put_Forall {V} (P : string * V -> Prop) k v (tb : Table.t V) :
  P (k, v) -> Forall P tb -> Forall P (Table.put k v tb).
Proof.
  intros Hk. induction 1 as [|[k' v'] tb Hx Htb IH]; simpl.
  - by repeat constructor.
  - destruct (String.eqb k k'); constructor; done.
Qed.

Lemma assign_Forall {V} (P : string * V -> Prop) k v (tb : Table.t V) :
  P (k, v) -> Forall P tb -> Forall P (Table.assign k v tb).
Proof.
  intros Hk Htb. unfold Table.assign. destruct (String.eqb k "__proto__"); [done|].
  by apply put_Forall.
Qed.

Lemma receipt_id_named u : String.prefix "receipt-id-" ("receipt-id-" +:+ u) = true.
Proof. simpl. by destruct u. Qed.

Ltac receipt_names_leaf :=
  apply stable_modify; intros ?w ?Hw; unfold receipt_names in *; simpl;
  repeat case_match; simpl; try done;
  try (apply assign_Forall; [apply receipt_id_named | done]).

Lemma perform_receipt_names_kept {host : Host} op :
  stable receipt_names_kept (perform op).
Proof.
  destruct op; unfold_methods; unfold resubscribe, report, doClientSubscribe;
    stable_structure; receipt_names_leaf.
Qed.

Lemma run_receipt_names_kept {host : Host} ops w :
  receipt_names_kept w (run ops w).
Proof.
  apply run_stable; [tc_solve | apply perform_receipt_names_kept |].
  intros e. receipt_names_leaf.
Qed.

(** No receipt id shadows the method the client tests the table
    with. *)
Lemma receipt_names_plain w :
  receipt_names w ->
  Table.lookup "hasOwnProperty" (receipts (client w)) = None.
Proof.
  intros Hw. apply eq_None_not_Some. intros Hk%TableFacts.lookup_keys.
  apply list_elem_of_fmap in Hk as (kv & Hk & Hin).
  unfold receipt_names in Hw. rewrite Forall_forall in Hw.
  specialize (Hw _ Hin). by rewrite <- Hk in Hw.
Qed.

(** A receipt id is not an array index, so that the receipt table is
    walked in the order its entries were created. *)
Lemma receipt_id_not_index k :
  String.prefix "receipt-id-" k = true -> Table.array_index k = None.
Proof.
  destruct k as [|c k]; [done|].
  change (String.prefix "receipt-id-" (String c k))
    with (if ascii_dec "r" c then String.prefix "eceipt-id-" k else false).
  destruct (ascii_dec "r" c) as [<-|]; [|done]. reflexivity.
Qed.

Lemma receipt_names_in_order w :
  receipt_names w ->
  Table.for_in (receipts (client w)) = receipts (client w).
Proof.
  intros Hw. apply TableFacts.for_in_named.
  eapply Forall_impl; [exact Hw|]. intros kv. apply receipt_id_not_index.
Qed.

(** Every entry of the table is among those the walk reports to. *)
Lemma reports_all reason (tb : Table.t Receipt) r rc :
  Table.lookup r tb = Some rc ->
  CallCallback (clientSubscribeCallback rc) (CbError reason)
  ∈ reports reason tb (Table.for_in tb).*1.
Proof.
  intros Hr. unfold reports. apply list_elem_of_omap. exists r. split.
  - apply TableFacts.for_in_keys, TableFacts.lookup_keys. by eexists.
  - by rewrite Hr.
Qed.

(** C4, as stated, fails, in both halves.  "Every subscribe whose
    receipt has not yet been confirmed gets its completion callback
    invoked with the error": with the receipt of [sub1] outstanding
    the connection drops and three reconnect attempts in a row fail
    at the transport; the callback is never called.  "Subscribers
    whose subscribe receipt had already been confirmed are not
    notified": the one reconnect that does report, the one made on a
    client closed in the meantime, calls the callback of [sub1],
    whose receipt had been confirmed. *)
Lemma failed_reconnect_notifies_nobody_pending :
  Table.lookup "receipt-id-u1" (receipts (client Scenario.attempts_failed))
  = Some {| clientSubscribeCallback := 7%nat |} /\
  delays (trace Scenario.attempts_failed) = [1000; 2000; 4000; 8000] /\
  calls_of 7%nat (trace Scenario.attempts_failed) = [] /\
  calls_of 7%nat (trace (run (host := Reference.host) Scenario.subscribed Scenario.w0))
  = [CbReceipt "receipt-id-u1"] /\
  calls_of 7%nat (trace Scenario.reconnect_failed)
  = [CbReceipt "receipt-id-u1"; CbError None].
Proof. split_and!; vm_compute; reflexivity. Qed.

(** C4 (amended): a reconnect attempt that fails at the transport
    notifies nobody: the promise of the attempt is left pending, no
    job is queued, and nothing happens but the scheduling of the next
    attempt.  As long as a client with usable connection parameters
    has not been closed, no promise is rejected, no rejected branch is
    about to run, and no completion callback has been called with a
    failure other than the validation error of [subscribe].  A failure
    is reported when the reconnect timer fires on a client that has
    been closed in the meantime: the promise is then rejected without
    a reason, and the rejected branch of the reconnect reaction calls,
    in the order of [for ... in], the completion callback of every
    entry of the receipt table with that reason, whether the receipt
    is outstanding or has been confirmed, because a confirmation
    leaves the entry in the table.  The names of the table are receipt
    ids: none of them shadows [hasOwnProperty] (with an entry of that
    name the first test of the walk would throw), and none is an array
    index, so that the order of [for ... in] is the order in which the
    entries were registered. *)
Theorem reconnect_failure_notifications {host : Host} :
  (forall w k d,
     timers w !! k = Some d ->
     _connPromise (client w) = None ->
     closed (client w) = false ->
     stomp_parameters_ok (client w) = true ->
     jobs w = [] ->
     let s := length (stomps w) in
     let w' := run [OpTimer k; OpJobs; OpStomp s disconnected; OpJobs] w in
     trace w'
     = trace w ++ [NewStomp s; StompConnect s;
                   SetTimeout (next_interval (reconnectInterval (client w)))] /\
     promises w'
     = promises w ++ [{| state := Pending; reactions := [RReconnect] |}] /\
     jobs w' = [] /\
     receipts (client w') = receipts (client w)) /\
  (forall ops id secret h port space,
     let w := run ops (new_world (new_client id secret h port space)) in
     stomp_parameters_ok (new_client id secret h port space) = true ->
     closed (client w) = false ->
     Forall (fun pr => rejected (state pr) = false) (promises w) /\
     Forall (fun j => rejected (j_outcome j) = false) (jobs w) /\
     forall cb reason,
       CallCallback cb (CbError reason) ∈ trace w ->
       reason = Some (Error "Incorrect input parameters")) /\
  (forall w k d,
     timers w !! k = Some d ->
     _connPromise (client w) = None ->
     closed (client w) = true ->
     jobs (step w (OpTimer k))
     = jobs w ++ [{| j_reaction := RReconnect; j_outcome := Rejected None |}] /\
     trace (step w (OpTimer k)) = trace w) /\
  (forall ops id secret h port space,
     let w := run ops (new_world (new_client id secret h port space)) in
     Table.lookup "hasOwnProperty" (receipts (client w)) = None /\
     Table.for_in (receipts (client w)) = receipts (client w)) /\
  (forall w reason,
     Table.lookup "hasOwnProperty" (receipts (client w)) = None ->
     run_job {| j_reaction := RReconnect; j_outcome := Rejected reason |} w
     = (Normal tt,
        set_trace
          (trace w ++
           reports reason (receipts (client w))
             (Table.for_in (receipts (client w))).*1) w)) /\
  (forall w reason,
     is_Some (Table.lookup "hasOwnProperty" (receipts (client w))) ->
     run_job {| j_reaction := RReconnect; j_outcome := Rejected reason |} w
     = (Throw TypeError, w)) /\
  (forall w reason r rc,
     Table.lookup r (receipts (client w)) = Some rc ->
     CallCallback (clientSubscribeCallback rc) (CbError reason)
     ∈ reports reason (receipts (client w)) (Table.for_in (receipts (client w))).*1) /\
  (forall w s p r rc,
     stomps w !! s = Some p ->
     Table.lookup "hasOwnProperty" (receipts (client w)) = None ->
     Table.lookup r (receipts (client w)) = Some rc ->
     receipts (client (step w (OpStomp s (receipt r)))) = receipts (client w)).
Proof.
  split_and!.
  - intros w k d Ht Hp Hc Hok Hj s w'.
    destruct (failed_attempt w k d Ht Hp Hc Hok Hj) as (H1 & H2 & H3 & H4 & _).
    done.
  - intros ops id secret h port space w Hok Hc.
    destruct (run_quiet_kept ops (new_world (new_client id secret h port space)))
      as [_ Hq].
    { split; [exact Hok|]. intros _. split_and!; constructor. }
    destruct (Hq Hc) as (Hp & Hj & Ht). split_and!; [exact Hp | exact Hj |].
    intros cb reason Hin. rewrite Forall_forall in Ht.
    specialize (Ht _ Hin). simpl in Ht.
    destruct reason as [[| |msg|msg]|]; try done.
    apply negb_false_iff, String.eqb_eq in Ht. by subst msg.
  - intros w k d Ht Hp Hc.
    by destruct (timer_step_closed w k d Ht Hp Hc) as (H1 & _ & H3 & _).
  - intros ops id secret h port space w.
    assert (Hw : receipt_names w) by (apply run_receipt_names_kept; constructor).
    split; [by apply receipt_names_plain | by apply receipt_names_in_order].
  - intros w reason Hm. by apply reconnect_rejected_job.
  - intros w reason Hm. by apply reconnect_rejected_job_shadowed.
  - intros w reason r rc. apply reports_all.
  - intros w s p r rc Hs Hm Hr. by rewrite (receipt_step w s p r rc Hs Hm Hr).
Qed.

(** The amended C4 on the scenario: the connection has dropped with
    the receipt of [sub1] confirmed; the reconnect attempt fails at
    the transport and nothing but the next timer follows; had the
    client been closed, the callback of [sub1] would be among those
    called. *)
Lemma reconnect_failure_notifications_witness :
  trace (run (host := Reference.host)
           [OpTimer 0; OpJobs;
            OpStomp (length (stomps Scenario.dropped)) disconnected; OpJobs]
           Scenario.dropped)
  = trace Scenario.dropped
    ++ [NewStomp (length (stomps Scenario.dropped));
        StompConnect (length (stomps Scenario.dropped));
        SetTimeout (next_interval (reconnectInterval (client Scenario.dropped)))] /\
  CallCallback 7%nat (CbError None)
  ∈ reports None (receipts (client Scenario.dropped))
      (Table.for_in (receipts (client Scenario.dropped))).*1.
Proof.
  destruct (reconnect_failure_notifications (host := Reference.host))
    as (Hfail & _ & _ & _ & _ & _ & Hall & _).
  split.
  - destruct (Hfail Scenario.dropped 0%nat 1000) as (Ht & _);
      [vm_compute; reflexivity..|].
    exact Ht.
  - apply (Hall Scenario.dropped None "receipt-id-u1"
             {| clientSubscribeCallback := 7%nat |}).
    vm_compute. reflexivity.
Defined.

(** Four subscribers, registered with the callbacks 1 to 4 in this
    order and with unique ids that sort the other way round: after
    [disconnect()] the reconnect timer reports to them in the order
    they were registered. *)
Example failure_reported_in_registration_order :
  (receipts (client Scenario.several_closed)).*1
  = ["receipt-id-u9"; "receipt-id-u8"; "receipt-id-u7"; "receipt-id-u6"] /\
  failed_calls (trace Scenario.several_closed) = [1; 2; 3; 4]%nat.
Proof. split; vm_compute; reflexivity. Qed.

(** C5, as stated, fails: "resolved exactly once ... and removed from
    the pending-receipt table after resolution".  After a reconnect the
    subscription is issued again under the receipt id it had, the
    receipt arrives again, and the callback is called a second time;
    the entry is in the table throughout. *)
Lemma receipt_resolved_twice_and_kept :
  calls_of 7%nat (trace Scenario.resubscribed)
  = [CbReceipt "receipt-id-u1"; CbReceipt "receipt-id-u1"] /\
  Table.lookup "receipt-id-u1" (receipts (client Scenario.resubscribed))
  = Some {| clientSubscribeCallback := 7%nat |}.
Proof. split; vm_compute; reflexivity. Qed.

(** C5 (amended): an entry of the receipt table is created, bound to
    the caller's completion callback, when the subscription is
    registered; every matching receipt confirmation calls the callback
    and leaves the table as it is, so that a receipt that arrives
    again calls the callback again; a receipt confirmation that
    matches no entry is passed over; the names of the table are
    receipt ids, none of which shadows the [hasOwnProperty] the
    handler tests with, which would make the test throw; and no
    operation ever removes an entry from the table. *)
Theorem receipts_created_and_kept {host : Host} :
  (forall w h u,
     Table.lookup ("receipt-id-" +:+ u)
       (receipts (client (step w (OpObservableSubscribe h u))))
     = Some {| clientSubscribeCallback := hd_callback h |}) /\
  (forall w s p r rc,
     stomps w !! s = Some p ->
     Table.lookup "hasOwnProperty" (receipts (client w)) = None ->
     Table.lookup r (receipts (client w)) = Some rc ->
     trace (step w (OpStomp s (receipt r)))
     = trace w ++ [CallCallback (clientSubscribeCallback rc) (CbReceipt r)] /\
     receipts (client (step w (OpStomp s (receipt r)))) = receipts (client w)) /\
  (forall w s p r rc,
     stomps w !! s = Some p ->
     Table.lookup "hasOwnProperty" (receipts (client w)) = None ->
     Table.lookup r (receipts (client w)) = Some rc ->
     trace (run [OpStomp s (receipt r); OpStomp s (receipt r)] w)
     = trace w ++ [CallCallback (clientSubscribeCallback rc) (CbReceipt r);
                   CallCallback (clientSubscribeCallback rc) (CbReceipt r)]) /\
  (forall w s p r,
     stomps w !! s = Some p ->
     Table.lookup "hasOwnProperty" (receipts (client w)) = None ->
     Table.lookup r (receipts (client w)) = None ->
     step w (OpStomp s (receipt r)) = w) /\
  (forall w s p r,
     stomps w !! s = Some p ->
     is_Some (Table.lookup "hasOwnProperty" (receipts (client w))) ->
     step w (OpStomp s (receipt r))
     = set_trace (trace w ++ [Threw TypeError]) w) /\
  (forall ops id secret h port space,
     Table.lookup "hasOwnProperty"
       (receipts (client (run ops (new_world (new_client id secret h port space)))))
     = None) /\
  (forall ops w r,
     is_Some (Table.lookup r (receipts (client w))) ->
     is_Some (Table.lookup r (receipts (client (run ops w))))).
Proof.
  split_and!.
  - intros w h u.
    destruct (observable_subscribe_tables w h u) as [_ Hr]. cbv zeta in Hr.
    rewrite Hr. by apply TableFacts.lookup_assign_eq.
  - intros w s p r rc Hs Hm Hr. by rewrite (receipt_step w s p r rc Hs Hm Hr).
  - intros w s p r rc Hs Hm Hr. unfold run. cbn [foldl].
    rewrite (receipt_step w s p r rc Hs Hm Hr).
    rewrite (receipt_step _ s p r rc) by done.
    simpl. by rewrite <- app_assoc.
  - intros w s p r. apply receipt_step_unknown.
  - intros w s p r. apply receipt_step_shadowed.
  - intros ops id secret h port space. apply receipt_names_plain.
    apply run_receipt_names_kept. constructor.
  - intros ops w r. apply run_receipts_kept.
Qed.

(** The amended C5 on the scenario: the entry of [sub1] is created
    with its callback; the confirmed receipt leaves it in the table,
    and it is there after the connection has dropped and the client
    has been closed. *)
Lemma receipts_created_and_kept_witness :
  trace (step (host := Reference.host) Scenario.listening
           (OpStomp 0 (receipt "receipt-id-u1")))
  = trace Scenario.listening ++ [CallCallback 7%nat (CbReceipt "receipt-id-u1")] /\
  is_Some
    (Table.lookup "receipt-id-u1"
       (receipts
          (client
             (run (host := Reference.host) [OpStomp 0 disconnected; OpDisconnect]
                Scenario.listening)))).
Proof.
  destruct (receipts_created_and_kept (host := Reference.host))
    as (_ & Hconfirm & _ & _ & _ & _ & Hkept).
  split.
  - destruct (Hconfirm Scenario.listening 0%nat 0%nat "receipt-id-u1"
                {| clientSubscribeCallback := 7%nat |}) as [Ht _];
      [vm_compute; reflexivity..|].
    exact Ht.
  - apply Hkept. vm_compute. by eexists.
Defined.

(** ** Validation in [subscribe]: claim C6 *)

(** C6, as stated, fails: a filter that names an entity type with no
    event type contains no entity-type/event-type pair, and
    [subscribe] accepts it: it returns a handle and calls no
    callback. *)
Lemma subscribe_accepts_filter_without_pair :
  has_pair (VObject [("EntityA", VArray [])]) = false /\
  (subscribe "sub1" (VObject [("EntityA", VArray [])]) None 7%nat Scenario.w0).1
  = Normal (Subscribed {| hd_subscriberId := "sub1";
                          hd_filter := VObject [("EntityA", VArray [])];
                          hd_options := None; hd_callback := 7%nat;
                          hd_tracker := 0%nat |}) /\
  trace (subscribe "sub1" (VObject [("EntityA", VArray [])]) None 7%nat
           Scenario.w0).2 = [].
Proof. split_and!; reflexivity. Qed.

(** C6 (amended): [subscribe] checks that [subscriberId] is non-empty
    and, if it is, that [Object.keys] of the filter is non-empty: that
    the filter has at least one entity type, whatever is listed under
    it.  For every input that fails this check it calls the callback
    with the validation error before it returns, and touches neither
    the client nor any promise, Stomp object, timer or job: there is
    no connection attempt and no network activity.  A filter that is
    [null] or [undefined], under a non-empty [subscriberId], is not
    answered with the validation error: [Object.keys] throws a
    [TypeError] out of [subscribe] and the callback is not called.
    For every other input [subscribe] calls no callback and returns a
    handle. *)
Theorem subscribe_validation :
  forall w sid f o cb,
    (sid = EmptyString \/ Object_keys f = Normal [] ->
     (subscribe sid f o cb w).1 = Normal CallbackReturned /\
     trace (subscribe sid f o cb w).2
     = trace w ++ [CallCallback cb (CbError (Some (Error "Incorrect input parameters")))] /\
     client (subscribe sid f o cb w).2 = client w /\
     promises (subscribe sid f o cb w).2 = promises w /\
     stomps (subscribe sid f o cb w).2 = stomps w /\
     timers (subscribe sid f o cb w).2 = timers w /\
     jobs (subscribe sid f o cb w).2 = jobs w) /\
    (sid <> EmptyString /\ (f = VNull \/ f = VUndefined) ->
     (subscribe sid f o cb w).1 = Throw TypeError /\
     trace (subscribe sid f o cb w).2 = trace w /\
     client (subscribe sid f o cb w).2 = client w /\
     promises (subscribe sid f o cb w).2 = promises w /\
     stomps (subscribe sid f o cb w).2 = stomps w /\
     timers (subscribe sid f o cb w).2 = timers w /\
     jobs (subscribe sid f o cb w).2 = jobs w) /\
    (sid <> EmptyString /\ (exists k ks, Object_keys f = Normal (k :: ks)) ->
     (subscribe sid f o cb w).1
     = Normal (Subscribed {| hd_subscriberId := sid; hd_filter := f;
                             hd_options := o; hd_callback := cb;
                             hd_tracker := length (trackers w) |}) /\
     trace (subscribe sid f o cb w).2 = trace w /\
     client (subscribe sid f o cb w).2 = client w /\
     stomps (subscribe sid f o cb w).2 = stomps w) /\
    (sid <> EmptyString ->
     (f = VNull \/ f = VUndefined) \/ Object_keys f = Normal [] \/
     (exists k ks, Object_keys f = Normal (k :: ks))).
Proof.
  intros w sid f o cb.
  unfold subscribe, bind, gets, modify, emit, ret, lift. simpl.
  split_and!.
  - intros [-> | Hf]; simpl; [done|].
    destruct (String.eqb sid EmptyString); simpl; [done|].
    unfold cbind. rewrite Hf. simpl. done.
  - intros [Hsid Hf].
    destruct (String.eqb_spec sid EmptyString) as [|_]; [done|].
    by destruct Hf as [-> | ->].
  - intros [Hsid (k & ks & Hf)].
    destruct (String.eqb_spec sid EmptyString) as [|_]; [done|].
    unfold cbind. rewrite Hf. simpl. done.
  - intros _. destruct f as [| | | | s | l | fs]; simpl; auto.
    + destruct s; simpl; eauto 6.
    + destruct l; simpl; eauto 6.
    + destruct fs; simpl; eauto 6.
Qed.

(** The amended C6 at an empty subscriber id, at a filter that is
    [null], and at a well-formed call. *)
Lemma subscribe_validation_witness :
  ((subscribe EmptyString Scenario.filter1 None 7%nat Scenario.w0).1
   = Normal CallbackReturned /\
   trace (subscribe EmptyString Scenario.filter1 None 7%nat Scenario.w0).2
   = trace Scenario.w0
     ++ [CallCallback 7%nat (CbError (Some (Error "Incorrect input parameters")))]) /\
  ((subscribe "sub1" VNull None 7%nat Scenario.w0).1 = Throw TypeError /\
   trace (subscribe "sub1" VNull None 7%nat Scenario.w0).2 = trace Scenario.w0) /\
  (subscribe "sub1" Scenario.filter1 None 7%nat Scenario.w0).1
  = Normal (Subscribed Scenario.h1).
Proof.
  destruct (subscribe_validation Scenario.w0 EmptyString Scenario.filter1 None 7%nat)
    as (Hbad & _).
  destruct (subscribe_validation Scenario.w0 "sub1" VNull None 7%nat)
    as (_ & Hnull & _).
  destruct (subscribe_validation Scenario.w0 "sub1" Scenario.filter1 None 7%nat)
    as (_ & _ & Hgood & _).
  split; [|split].
  - destruct Hbad as (H1 & H2 & _); [by left | by split].
  - destruct Hnull as (H1 & H2 & _); [split; [done | by left] | by split].
  - destruct Hgood as (H1 & _); [split; [done | by eexists _, _] | exact H1].
Defined.

(** ** Inbound frames: claim C7 *)

Lemma delivered_to_app o tr tr' :
  delivered_to o (tr ++ tr') = delivered_to o tr ++ delivered_to o tr'.
Proof. apply omap_app. Qed.

Lemma decoded_app tr tr' : decoded (tr ++ tr') = decoded tr ++ decoded tr'.
Proof. apply omap_app. Qed.

Section FrameFacts.
Context {host : Host}.

(** A decoded event carries the token it was decoded with. *)
Lemma makeEvent_ack eventStr tok ev :
  makeEvent eventStr tok = ResEvent ev -> ack ev = tok.
Proof.
  unfold makeEvent, makeEvent_try, cbind.
  repeat case_match; try done. intros [= <-]. by simplify_eq.
Qed.

(** [makeEvent] in terms of the host's [JSON.parse]. *)
Lemma makeEvent_unparsable eventStr tok :
  JSON_parse eventStr = None -> makeEvent eventStr tok = ResError SyntaxError.
Proof. intros H. unfold makeEvent, makeEvent_try, cbind. by rewrite H. Qed.

Lemma makeEvent_null eventStr tok parsed :
  JSON_parse eventStr = Some parsed ->
  parsed = VNull \/ parsed = VUndefined ->
  makeEvent eventStr tok = ResError TypeError.
Proof.
  intros H Hp. unfold makeEvent, makeEvent_try, cbind. rewrite H.
  by destruct Hp as [-> | ->].
Qed.

Lemma makeEvent_parsed eventStr tok parsed :
  JSON_parse eventStr = Some parsed ->
  parsed <> VNull -> parsed <> VUndefined ->
  let prop k := match parsed with VObject fs => field k fs | _ => VUndefined end in
  makeEvent eventStr tok
  = match JSON_parse (to_string (prop "eventData")) with
    | None => ResError SyntaxError
    | Some data =>
        ResEvent {| eventId := prop "id"; eventType := prop "eventType";
                    entityId := prop "entityId"; swimlane := prop "swimlane";
                    eventData := data; eventToken := prop "eventToken";
                    ack := tok |}
    end.
Proof.
  intros H Hn Hu prop. unfold makeEvent, makeEvent_try, cbind. rewrite H.
  subst prop. destruct parsed; try done; simpl;
    match goal with |- context [JSON_parse ?x] => by destruct (JSON_parse x) end.
Qed.

Lemma deliveries_poisoned tok pre bad post evs e :
  Forall2 (fun s ev => makeEvent s tok = ResEvent ev) pre evs ->
  makeEvent bad tok = ResError e ->
  deliveries ((fun s => makeEvent s tok) <$> pre ++ bad :: post)
  = (OnNext <$> evs) ++ [OnError e] /\
  existsb is_error ((fun s => makeEvent s tok) <$> pre ++ bad :: post) = true.
Proof.
  intros Hpre Hbad. induction Hpre as [|s ev pre evs Hs _ [IH1 IH2]].
  - simpl. by rewrite Hbad.
  - cbn [app fmap list_fmap deliveries existsb]. rewrite Hs.
    cbn [is_error orb]. split; [by f_equal | done].
Qed.

Lemma deliveries_clean tok body evs :
  Forall2 (fun s ev => makeEvent s tok = ResEvent ev) body evs ->
  deliveries ((fun s => makeEvent s tok) <$> body) = OnNext <$> evs /\
  existsb is_error ((fun s => makeEvent s tok) <$> body) = false.
Proof.
  induction 1 as [|s ev pre evs Hs _ [IH1 IH2]]; [done|].
  cbn [fmap list_fmap deliveries existsb]. rewrite Hs.
  cbn [is_error orb]. split; [by f_equal | done].
Qed.

Lemma deliveries_ack tok body ev :
  OnNext ev ∈ deliveries ((fun s => makeEvent s tok) <$> body) -> ack ev = tok.
Proof.
  induction body as [|s body IH]; simpl; [by intros ?%elem_of_nil|].
  destruct (makeEvent s tok) as [ev'|e] eqn:Hs.
  - intros [[= <-]|Hin]%elem_of_cons; [by eapply makeEvent_ack | by apply IH].
  - by intros [=]%list_elem_of_singleton.
Qed.
Lemma observer_onNext_run o ev w ob :
  observers w !! o = Some ob ->
  observer_onNext o ev w
  = (Normal tt,
     if isStopped ob then w
     else set_trace (trace w ++ [Delivered o (OnNext ev)]) w).
Proof.
  intros Ho. unfold observer_onNext, bind, gets. simpl. rewrite Ho.
  by destruct (isStopped ob).
Qed.

Lemma observer_onError_run o e w ob :
  observers w !! o = Some ob ->
  observer_onError o e w
  = (Normal tt,
     if isStopped ob then w
     else set_trace (trace w ++ [Delivered o (OnError e)])
            (set_observers (<[o := {| isStopped := true |}]> (observers w)) w)).
Proof.
  intros Ho. unfold observer_onError, bind, gets. simpl. rewrite Ho.
  by destruct (isStopped ob).
Qed.

Lemma decode_records_cons o tok s body w :
  decode_records o tok (s :: body) w
  = bind
      (match makeEvent s tok with
       | ResError e => observer_onError o e
       | ResEvent ev => observer_onNext o ev
       end)
      (fun _ => decode_records o tok body)
      (set_trace (trace w ++ [MakeEvent s]) w).
Proof. reflexivity. Qed.

Lemma decode_records_spec o tok body : forall w ob,
  observers w !! o = Some ob ->
  (decode_records o tok body w).1 = Normal tt /\
  exists rest,
    trace (decode_records o tok body w).2 = trace w ++ rest /\
    decoded rest = body /\
    delivered_to o rest
    = (if isStopped ob then []
       else deliveries ((fun s => makeEvent s tok) <$> body)) /\
    observers (decode_records o tok body w).2 !! o
    = Some {| isStopped :=
                isStopped ob || existsb is_error ((fun s => makeEvent s tok) <$> body) |} /\
    trackers (decode_records o tok body w).2 = trackers w /\
    client (decode_records o tok body w).2 = client w.
Proof.
  induction body as [|s body IH]; intros w [stopped] Ho.
  - simpl. split; [done|]. exists []. rewrite app_nil_r, orb_false_r.
    split_and!; try done. by destruct stopped.
  - rewrite decode_records_cons. cbn [fmap list_fmap existsb deliveries].
    set (w1 := set_trace (trace w ++ [MakeEvent s]) w).
    assert (Ho1 : observers w1 !! o = Some {| isStopped := stopped |}) by done.
    assert (Htr1 : trace w1 = trace w ++ [MakeEvent s]) by done.
    assert (Htk1 : trackers w1 = trackers w) by done.
    assert (Hcl1 : client w1 = client w) by done.
    clearbody w1.
    assert (Hstep : exists w2 ob2 out,
              (match makeEvent s tok with
               | ResError e => observer_onError o e
               | ResEvent ev => observer_onNext o ev
               end) w1 = (Normal tt, w2) /\
              observers w2 !! o = Some ob2 /\
              trace w2 = trace w1 ++ out /\
              trackers w2 = trackers w1 /\ client w2 = client w1 /\
              decoded out = [] /\
              isStopped ob2 = stopped || is_error (makeEvent s tok) /\
              delivered_to o out
              = (if stopped then []
                 else match makeEvent s tok with
                      | ResEvent ev => [OnNext ev]
                      | ResError e => [OnError e]
                      end)).
    { destruct (makeEvent s tok) as [ev|e].
      - rewrite (observer_onNext_run o ev w1 _ Ho1). cbn [isStopped is_error].
        destruct stopped.
        + exists w1, {| isStopped := true |}, []. rewrite app_nil_r. done.
        + eexists _, {| isStopped := false |}, [_]. split_and!; try done.
          unfold delivered_to. simpl. by rewrite Nat.eqb_refl.
      - rewrite (observer_onError_run o e w1 _ Ho1). cbn [isStopped is_error].
        destruct stopped.
        + exists w1, {| isStopped := true |}, []. rewrite app_nil_r. done.
        + eexists _, {| isStopped := true |}, [_]. split_and!; try done.
          * simpl. apply list_lookup_insert_eq. by eapply lookup_lt_Some.
          * unfold delivered_to. simpl. by rewrite Nat.eqb_refl. }
    destruct Hstep as (w2 & [stopped2] & out & Hrun & Ho2 & Htr2 & Htk2 & Hcl2
                       & Hdec2 & Hst2 & Hdel2).
    unfold bind. rewrite Hrun.
    destruct (IH w2 _ Ho2) as (Hn & rest & Htr & Hdec & Hdel & Hobs & Htk & Hcl).
    split; [done|]. exists (MakeEvent s :: out ++ rest).
    rewrite Htr, Htr2, Htr1, Htk, Htk2, Htk1, Hcl, Hcl2, Hcl1, Hobs.
    rewrite <- !app_assoc. cbn [isStopped] in *. subst stopped2.
    split_and!; try done.
    + change (decoded (MakeEvent s :: out ++ rest)) with (s :: decoded (out ++ rest)).
      by rewrite decoded_app, Hdec2, Hdec.
    + change (delivered_to o (MakeEvent s :: out ++ rest))
        with (delivered_to o (out ++ rest)).
      rewrite delivered_to_app, Hdel2, Hdel.
      destruct stopped; [done|].
      destruct (makeEvent s tok); simpl; done.
    + by rewrite orb_assoc.
Qed.

(** [messageCallback]: the token is registered first, then the records
    are decoded. *)
Lemma run_messageCallback_spec w t o tok body q ob :
  trackers w !! t = Some q ->
  observers w !! o = Some ob ->
  let w' := (run_messageCallback {| mc_tracker := t; mc_observer := o |} body tok w).2 in
  (run_messageCallback {| mc_tracker := t; mc_observer := o |} body tok w).1 = Normal tt /\
  exists rest,
    trace w' = trace w ++ TrackerAdd t tok :: rest /\
    decoded rest = body /\
    delivered_to o rest
    = (if isStopped ob then []
       else deliveries ((fun s => makeEvent s tok) <$> body)) /\
    observers w' !! o
    = Some {| isStopped :=
                isStopped ob || existsb is_error ((fun s => makeEvent s tok) <$> body) |} /\
    trackers w' !! t = Some (AckOrderTracker.add tok q) /\
    client w' = client w.
Proof.
  intros Ht Ho. unfold run_messageCallback. cbn [mc_tracker mc_observer].
  unfold bind at 1. unfold tracker_add, bind, gets, modify, emit, modify.
  cbn [fst snd]. rewrite Ht. cbn [fst snd].
  set (w1 := set_trace _ _).
  assert (Ho1 : observers w1 !! o = Some ob) by done.
  destruct (decode_records_spec o tok body w1 ob Ho1)
    as (Hn & rest & Htr & Hdec & Hdel & Hobs & Htk & Hcl).
  destruct (decode_records o tok body w1) as [r w2]. simpl in *. subst r.
  split; [done|]. exists rest. rewrite Htr, Htk, Hcl. subst w1. simpl.
  rewrite <- app_assoc. split_and!; try done.
  apply list_lookup_insert_eq. by eapply lookup_lt_Some.
Qed.

End FrameFacts.

#[local] Instance ended_kept_preorder o : PreOrder (ended_kept o).
Proof.
  split; [by intros w Hw|].
  intros w1 w2 w3 H12 H23 Hw. destruct (H12 Hw) as [Hw2 Hd2].
  destruct (H23 Hw2) as [Hw3 Hd3]. split; congruence.
Qed.

Lemma observer_onNext_ended_kept o o' ev :
  stable (ended_kept o) (observer_onNext o' ev).
Proof.
  intros w Hw. unfold observer_onNext, bind, gets. simpl.
  destruct (observers w !! o') as [[stopped]|] eqn:Ho'; simpl; [|done].
  destruct stopped; simpl; [done|]. split; [done|].
  rewrite delivered_to_app. unfold delivered_to at 2. simpl.
  destruct (Nat.eqb_spec o' o) as [->|_]; [congruence | by rewrite app_nil_r].
Qed.

Lemma observer_onError_ended_kept o o' e :
  stable (ended_kept o) (observer_onError o' e).
Proof.
  intros w Hw. unfold observer_onError, bind, gets. simpl.
  destruct (observers w !! o') as [[stopped]|] eqn:Ho'; simpl; [|done].
  destruct stopped; simpl; [done|].
  destruct (Nat.eqb_spec o' o) as [->|Hne]; [congruence|]. split.
  - by rewrite list_lookup_insert_ne.
  - rewrite delivered_to_app. unfold delivered_to at 2. simpl.
    destruct (Nat.eqb_spec o' o) as [|_]; [done | by rewrite app_nil_r].
Qed.

Ltac ended_leaf :=
  apply stable_modify; intros ?w ?Hw; simpl; repeat case_match; simpl;
  (split;
   [ try done; try (by apply lookup_app_l_Some)
   | rewrite ?delivered_to_app; simpl; rewrite ?app_nil_r; done ]).

Lemma perform_ended_kept {host : Host} o op : stable (ended_kept o) (perform op).
Proof.
  pose proof (observer_onNext_ended_kept o) as Hnext.
  pose proof (observer_onError_ended_kept o) as Herror.
  destruct op;
    unfold perform, subscribe, observable_subscribe, acknowledge, disconnect,
      reconnect_timer, run_job_caught, run_job, on_stomp_event,
      run_messageCallback, decode_records, addSubscription, addReceipt,
      resubscribe, report,
      doClientSubscribe, reconnectStompServer, connectToStompServer,
      connect_executor, tracker_add, tracker_ack, new_promise, modify_client;
    stable_structure; ended_leaf.
Qed.

Lemma run_ended_kept {host : Host} o ops w : ended_kept o w (run ops w).
Proof.
  apply run_stable; [tc_solve | apply perform_ended_kept |].
  intros e. ended_leaf.
Qed.

(** A frame whose ack header names a subscriber that is registered is
    handed to the [messageCallback] of its subscription. *)
Lemma message_routed {host : Host} w s p frame a rh sid sub :
  stomps w !! s = Some p ->
  JSON_parse (unEscapeStr (f_ack frame)) = Some a ->
  get a "receiptHandle" = Normal rh ->
  get rh "subscriberId" = Normal sid ->
  Table.lookup "hasOwnProperty" (subscriptions (client w)) = None ->
  Table.lookup (to_string sid) (subscriptions (client w)) = Some sub ->
  perform (OpStomp s (message frame)) w
  = run_messageCallback (messageCallback sub) (f_body frame) (f_ack frame) w.
Proof.
  intros Hs Ha Hrh Hsid Hm Hsub. unfold perform, bind, gets. simpl. rewrite Hs.
  unfold on_stomp_event, bind, lift, gets. simpl.
  rewrite Ha, Hrh, Hsid. simpl.
  rewrite (TableFacts.hasOwnProperty_own _ _ sub Hm Hsub). simpl.
  by rewrite Hsub.
Qed.

(** C7: a frame whose ack header routes to a registered subscriber is
    handed to that subscriber's [messageCallback]; there the delivery
    token is registered with the tracker before anything else happens;
    every record of the body is then decoded, in order, by
    [makeEvent]: a record that [JSON.parse] refuses, or whose
    [eventData] it refuses, is a decode failure with the
    [SyntaxError], a record that parses to [null] one with a
    [TypeError], and any other record decodes to the event of its
    fields, with the parsed [eventData] and the delivery token of the
    frame; a live event sequence is told the decoded events up to the
    first record that fails to decode, each tagged with the delivery
    token, then the decode error, and nothing after it; the sequence
    has ended from then on, and an event sequence that has ended is
    never told anything again, whatever happens next. *)
Theorem frame_delivery {host : Host} :
  (forall w s p frame a rh sid sub,
     stomps w !! s = Some p ->
     JSON_parse (unEscapeStr (f_ack frame)) = Some a ->
     get a "receiptHandle" = Normal rh ->
     get rh "subscriberId" = Normal sid ->
     Table.lookup "hasOwnProperty" (subscriptions (client w)) = None ->
     Table.lookup (to_string sid) (subscriptions (client w)) = Some sub ->
     perform (OpStomp s (message frame)) w
     = run_messageCallback (messageCallback sub) (f_body frame) (f_ack frame) w) /\
  (forall w t o tok body q ob,
     trackers w !! t = Some q ->
     observers w !! o = Some ob ->
     let w' := (run_messageCallback {| mc_tracker := t; mc_observer := o |} body tok w).2 in
     exists rest,
       trace w' = trace w ++ TrackerAdd t tok :: rest /\
       trackers w' !! t = Some (AckOrderTracker.add tok q) /\
       decoded rest = body /\
       delivered_to o rest
       = (if isStopped ob then []
          else deliveries ((fun s => makeEvent s tok) <$> body)) /\
       (forall ev, OnNext ev ∈ delivered_to o rest -> ack ev = tok) /\
       observers w' !! o
       = Some {| isStopped :=
                   isStopped ob
                   || existsb is_error ((fun s => makeEvent s tok) <$> body) |}) /\
  (forall ops w o,
     observers w !! o = Some {| isStopped := true |} ->
     observers (run ops w) !! o = Some {| isStopped := true |} /\
     delivered_to o (trace (run ops w)) = delivered_to o (trace w)) /\
  (forall eventStr tok,
     JSON_parse eventStr = None ->
     makeEvent eventStr tok = ResError SyntaxError) /\
  (forall eventStr tok parsed,
     JSON_parse eventStr = Some parsed ->
     parsed = VNull \/ parsed = VUndefined ->
     makeEvent eventStr tok = ResError TypeError) /\
  (forall eventStr tok parsed,
     JSON_parse eventStr = Some parsed ->
     parsed <> VNull -> parsed <> VUndefined ->
     let prop k := match parsed with VObject fs => field k fs | _ => VUndefined end in
     makeEvent eventStr tok
     = match JSON_parse (to_string (prop "eventData")) with
       | None => ResError SyntaxError
       | Some data =>
           ResEvent {| eventId := prop "id"; eventType := prop "eventType";
                       entityId := prop "entityId"; swimlane := prop "swimlane";
                       eventData := data; eventToken := prop "eventToken";
                       ack := tok |}
       end) /\
  (forall w t o tok pre bad post q evs e,
     trackers w !! t = Some q ->
     observers w !! o = Some {| isStopped := false |} ->
     Forall2 (fun s ev => makeEvent s tok = ResEvent ev) pre evs ->
     makeEvent bad tok = ResError e ->
     let w' := (run_messageCallback {| mc_tracker := t; mc_observer := o |}
                  (pre ++ bad :: post) tok w).2 in
     delivered_to o (trace w')
     = delivered_to o (trace w) ++ (OnNext <$> evs) ++ [OnError e] /\
     decoded (trace w') = decoded (trace w) ++ pre ++ bad :: post /\
     observers w' !! o = Some {| isStopped := true |}) /\
  (forall w t o tok body q evs,
     trackers w !! t = Some q ->
     observers w !! o = Some {| isStopped := false |} ->
     Forall2 (fun s ev => makeEvent s tok = ResEvent ev) body evs ->
     let w' := (run_messageCallback {| mc_tracker := t; mc_observer := o |}
                  body tok w).2 in
     delivered_to o (trace w') = delivered_to o (trace w) ++ (OnNext <$> evs) /\
     observers w' !! o = Some {| isStopped := false |}).
Proof.
  split_and!.
  - apply @message_routed.
  - intros w t o tok body q ob Ht Ho.
    destruct (run_messageCallback_spec w t o tok body q ob Ht Ho)
      as (_ & rest & Htr & Hdec & Hdel & Hobs & Htk & _).
    exists rest. split_and!; try done.
    intros ev. rewrite Hdel. destruct (isStopped ob); [by intros ?%elem_of_nil|].
    apply deliveries_ack.
  - intros ops w o. apply run_ended_kept.
  - apply makeEvent_unparsable.
  - apply makeEvent_null.
  - apply makeEvent_parsed.
  - intros w t o tok pre bad post q evs e Ht Ho Hpre Hbad.
    destruct (run_messageCallback_spec w t o tok (pre ++ bad :: post) q _ Ht Ho)
      as (_ & rest & Htr & Hdec & Hdel & Hobs & _).
    destruct (deliveries_poisoned tok pre bad post evs e Hpre Hbad) as [Hd He].
    cbv zeta. rewrite Htr, Hobs, He.
    change (trace w ++ TrackerAdd t tok :: rest)
      with (trace w ++ [TrackerAdd t tok] ++ rest).
    rewrite !delivered_to_app, !decoded_app, Hdel, Hdec, Hd. done.
  - intros w t o tok body q evs Ht Ho Hbody.
    destruct (run_messageCallback_spec w t o tok body q _ Ht Ho)
      as (_ & rest & Htr & Hdec & Hdel & Hobs & _).
    destruct (deliveries_clean tok body evs Hbody) as [Hd He].
    cbv zeta. rewrite Htr, Hobs, He.
    change (trace w ++ TrackerAdd t tok :: rest)
      with (trace w ++ [TrackerAdd t tok] ++ rest).
    rewrite !delivered_to_app, Hdel, Hd. done.
Qed.

(** C7 on the scenario: a frame of three records, the second of which
    is not JSON, reaches the live event sequence of [sub1]: the token
    is registered first, the three records are decoded, the first is
    delivered, the second ends the sequence with its [SyntaxError],
    and the third is not delivered. *)
Lemma frame_delivery_witness :
  exists rest,
    trace (run_messageCallback (host := Reference.host)
             {| mc_tracker := 0; mc_observer := 0 |}
             [Scenario.record "e1"; "oops"; Scenario.record "e3"]
             (Scenario.ack_header "1") Scenario.listening).2
    = trace Scenario.listening ++ TrackerAdd 0 (Scenario.ack_header "1") :: rest /\
    decoded rest = [Scenario.record "e1"; "oops"; Scenario.record "e3"] /\
    delivered_to 0 rest
    = [OnNext {| eventId := VString "e1"; eventType := VString "Created";
                 entityId := VUndefined; swimlane := VUndefined;
                 eventData := VObject []; eventToken := VUndefined;
                 ack := Scenario.ack_header "1" |};
       OnError SyntaxError] /\
    observers (run_messageCallback (host := Reference.host)
                 {| mc_tracker := 0; mc_observer := 0 |}
                 [Scenario.record "e1"; "oops"; Scenario.record "e3"]
                 (Scenario.ack_header "1") Scenario.listening).2 !! 0%nat
    = Some {| isStopped := true |}.
Proof.
  destruct (frame_delivery (host := Reference.host)) as (_ & Hframe & _).
  destruct (Hframe Scenario.listening 0%nat 0%nat (Scenario.ack_header "1")
              [Scenario.record "e1"; "oops"; Scenario.record "e3"]
              AckOrderTracker.empty {| isStopped := false |})
    as (rest & Htr & _ & Hdec & Hdel & _ & Hobs);
    [vm_compute; reflexivity..|].
  exists rest. split_and!.
  - exact Htr.
  - exact Hdec.
  - rewrite Hdel. vm_compute. reflexivity.
  - rewrite Hobs. vm_compute. reflexivity.
Defined.

(** The same run from the frame on, spelled out: the first record is
    delivered, the second ends the sequence with its decode error, the
    third is decoded and dropped, and so is the record of the next
    frame; both tokens are registered. *)
Example poisoned_stream :
  delivered_to 0 (trace Scenario.poisoned)
  = [OnNext {| eventId := VString "e1"; eventType := VString "Created";
               entityId := VUndefined; swimlane := VUndefined;
               eventData := VObject []; eventToken := VUndefined;
               ack := Scenario.ack_header "1" |};
     OnError SyntaxError] /\
  decoded (trace Scenario.poisoned)
  = [Scenario.record "e1"; "oops"; Scenario.record "e3"; Scenario.record "e4"] /\
  AckOrderTracker.token <$> default [] (trackers Scenario.poisoned !! 0%nat)
  = [Scenario.ack_header "1"; Scenario.ack_header "2"].
Proof. split_and!; vm_compute; reflexivity. Qed.

(** ** [checkEvents]: claim C8 *)

Section CheckEventsFacts.
Context {host : Host}.

Lemma checkEvent_plain e :
  plain_event e = true -> checkEvent e = Normal (event_ok e).
Proof.
  destruct e as [| |b|n|s|l|fs]; try done.
  unfold plain_event, checkEvent, event_ok, cbind, get. intros Hp.
  destruct (truthy (field "eventType" fs)); simpl; [|done].
  destruct (field "eventData" fs) as [| |b|n|s|l|fs'] eqn:Hd; simpl; try done.
  - by destruct b.
  - by destruct (negb (mantissa n =? 0)).
  - destruct (negb (String.eqb s EmptyString)); simpl; [|done].
    destruct (JSON_parse s) as [[| | | | | |fs'']|]; try done.
    simpl. by destruct fs''.
  - by destruct fs'.
Qed.

Lemma every_plain l :
  forallb plain_event l = true ->
  every checkEvent l = Normal (forallb event_ok l).
Proof.
  induction l as [|e l IH]; simpl; [done|].
  intros [He Hl]%andb_prop. rewrite (checkEvent_plain e He). simpl.
  destruct (event_ok e); simpl; [by apply IH | done].
Qed.

(** Where the parsed text of every string [eventData] is an object,
    [checkEvents] is the predicate of the specification. *)
Lemma checkEvents_plain events :
  match events with
  | VArray l => forallb plain_event l
  | _ => true
  end = true ->
  checkEvents events = Normal (checkEvents_spec events).
Proof.
  destruct events as [| | | | |l|]; try done.
  destruct l as [|e l]; [done|]. intros Hl. by apply every_plain.
Qed.

(** A string [eventData] whose text is the JSON of a non-empty string
    is accepted. *)
Lemma checkEvents_string_text s t :
  s <> EmptyString -> t <> EmptyString ->
  JSON_parse s = Some (VString t) ->
  checkEvents (Scenario.events_with (VString s)) = Normal true.
Proof.
  intros Hs Ht Hp.
  unfold checkEvents, Scenario.events_with, every, checkEvent, cbind, get.
  simpl. destruct (String.eqb_spec s EmptyString) as [|_]; [done|]. simpl.
  rewrite Hp. simpl. by destruct t.
Qed.

(** A string [eventData] whose text is the JSON of [null] makes
    [checkEvents] throw. *)
Lemma checkEvents_null_text s :
  s <> EmptyString ->
  JSON_parse s = Some VNull ->
  checkEvents (Scenario.events_with (VString s)) = Throw TypeError.
Proof.
  intros Hs Hp.
  unfold checkEvents, Scenario.events_with, every, checkEvent, cbind, get.
  simpl. destruct (String.eqb_spec s EmptyString) as [|_]; [done|]. simpl.
  by rewrite Hp.
Qed.

End CheckEventsFacts.

(** C8 at its failing inputs.  The specification rejects an
    [eventData] string whose text is the JSON of the string [abc], and
    one whose text is the JSON of [null]: neither parses into a record
    with at least one field.  [checkEvents] accepts the first and
    throws on the second, because it asks [Object.keys] of whatever
    [JSON.parse] returned.  The four examples of the specification
    come out as it says. *)
Theorem checkEvents_misjudges_parsed_text :
  (checkEvents_spec (host := Reference.host)
     (Scenario.events_with (VString (Scenario.lit "abc"))) = false /\
   checkEvents (host := Reference.host)
     (Scenario.events_with (VString (Scenario.lit "abc"))) = Normal true) /\
  (checkEvents_spec (host := Reference.host)
     (Scenario.events_with (VString "null")) = false /\
   checkEvents (host := Reference.host)
     (Scenario.events_with (VString "null")) = Throw TypeError) /\
  checkEvents (host := Reference.host) (VArray []) = Normal false /\
  checkEvents (host := Reference.host)
    (VArray [VObject [("eventType", VString "T")]]) = Normal false /\
  checkEvents (host := Reference.host)
    (Scenario.events_with (VString "{}")) = Normal false /\
  checkEvents (host := Reference.host)
    (Scenario.events_with
       (VObject [("a", VNumber {| mantissa := 1; exponent10 := 0 |})])) = Normal true.
Proof. split_and!; vm_compute; reflexivity. Qed.

(** ** The encryption codec: claim C9 *)

Module EncryptionFacts.
Import Encryption.

Lemma hex_byte c :
  hex_value (hex_digit (N_of_ascii c / 16)) = Some (N_of_ascii c / 16)%N /\
  hex_value (hex_digit (N_of_ascii c mod 16)) = Some (N_of_ascii c mod 16)%N /\
  ascii_of_N (16 * (N_of_ascii c / 16) + N_of_ascii c mod 16) = c.
Proof. destruct c as [[] [] [] [] [] [] [] []]; vm_compute; done. Qed.

Lemma hex_decode_encode b : hex_decode (hex_encode b) = Some b.
Proof.
  induction b as [|c b IH]; [done|]. cbn [hex_encode hex_decode].
  destruct (hex_byte c) as (-> & -> & Hc). simpl. rewrite IH. simpl.
  by rewrite Hc.
Qed.

Lemma ascii_xor_involutive a b : ascii_xor (ascii_xor a b) b = a.
Proof.
  destruct a as [a0 a1 a2 a3 a4 a5 a6 a7], b as [b0 b1 b2 b3 b4 b5 b6 b7].
  simpl. rewrite !xorb_assoc, !xorb_nilpotent, !xorb_false_r. done.
Qed.

Lemma xor_block_involutive (a b : bytes) :
  length a = length b -> xor_block (xor_block a b) b = a.
Proof.
  revert b. induction a as [|x a IH]; intros [|y b]; simpl; try done.
  intros [= Hl]. unfold xor_block in *. simpl.
  by rewrite ascii_xor_involutive, IH.
Qed.

Lemma xor_block_length (a b : bytes) :
  length a = length b -> length (xor_block a b) = length a.
Proof. intros Hl. unfold xor_block. by apply length_zip_with_l_eq. Qed.

Section Chaining.
Context {bc : BlockCipher} {bcl : BlockCipherLaws bc}.

Lemma cbc_encrypt_blocks k : key_ok k = true -> forall bs prev,
  Forall (fun b => length b = block_size) bs ->
  length prev = block_size ->
  Forall (fun b => length b = block_size) (cbc_encrypt k prev bs).
Proof.
  intros Hk. induction bs as [|b bs IH]; intros prev Hbs Hprev; simpl.
  - constructor.
  - inversion_clear Hbs as [|? ? Hb Hbs'].
    assert (Hc : length (encrypt_block k (xor_block b prev)) = block_size).
    { apply encrypt_block_length; [done|]. rewrite xor_block_length; congruence. }
    constructor; [done|]. by apply IH.
Qed.

(** Deciphering in CBC mode undoes enciphering in CBC mode. *)
Lemma cbc_decrypt_encrypt k : key_ok k = true -> forall bs prev,
  Forall (fun b => length b = block_size) bs ->
  length prev = block_size ->
  cbc_decrypt k prev (cbc_encrypt k prev bs) = bs.
Proof.
  intros Hk. induction bs as [|b bs IH]; intros prev Hbs Hprev; simpl; [done|].
  inversion_clear Hbs as [|? ? Hb Hbs'].
  assert (Hx : length (xor_block b prev) = block_size).
  { rewrite xor_block_length; congruence. }
  rewrite decrypt_encrypt_block by done.
  rewrite xor_block_involutive by congruence.
  rewrite IH; [done | done |]. by apply encrypt_block_length.
Qed.

End Chaining.

Lemma blocks_cons n (b l : bytes) :
  length b = block_size -> blocks (S n) (b ++ l) = b :: blocks n l.
Proof.
  intros Hb. cbn [blocks].
  destruct b as [|x b']; [done|]. cbn [app].
  change (x :: b' ++ l) with ((x :: b') ++ l).
  by rewrite take_app_length', drop_app_length'.
Qed.

Lemma concat_blocks_length (bs : list bytes) :
  Forall (fun b => length b = block_size) bs ->
  length (concat bs) = (length bs * block_size)%nat.
Proof.
  induction 1 as [|b bs Hb _ IH]; simpl; [done|].
  rewrite length_app, IH, Hb. done.
Qed.

(** Cutting the concatenation of whole blocks gives the blocks back. *)
Lemma blocks_concat (bs : list bytes) : forall n,
  Forall (fun b => length b = block_size) bs ->
  (length bs <= n)%nat ->
  blocks n (concat bs) = bs.
Proof.
  induction bs as [|b bs IH]; intros n Hbs Hn.
  - by destruct n.
  - inversion_clear Hbs as [|? ? Hb Hbs'].
    destruct n as [|n]; [simpl in Hn; lia|].
    cbn [concat]. rewrite blocks_cons by done.
    rewrite IH; [done | done | simpl in Hn; lia].
Qed.

(** Cutting a byte string of whole blocks: the blocks are whole, and
    they make up the byte string. *)
Lemma blocks_whole n : forall (l : bytes) m,
  length l = (m * block_size)%nat -> (m <= n)%nat ->
  Forall (fun b => length b = block_size) (blocks n l) /\
  concat (blocks n l) = l.
Proof.
  induction n as [|n IH]; intros l m Hl Hm.
  - assert (m = 0)%nat as -> by lia. destruct l; [by split|done].
  - destruct l as [|x l']; [by split|]. cbn [blocks].
    set (l := x :: l') in *.
    destruct m as [|m]; [done|].
    assert (Hmin : (block_size <= length l)%nat) by (rewrite Hl; lia).
    destruct (IH (drop block_size l) m) as [Hall Hcat].
    { rewrite length_drop, Hl. lia. }
    { lia. }
    split.
    + constructor; [by apply length_take_le | done].
    + cbn [concat]. rewrite Hcat. apply take_drop.
Qed.

Lemma pad_length (b : bytes) :
  exists m, length (pad b) = (m * block_size)%nat /\ (m <= length (pad b))%nat.
Proof.
  unfold pad, block_size. rewrite length_app, length_replicate.
  pose proof (Nat.div_mod_eq (length b) 16) as Hd.
  pose proof (Nat.mod_upper_bound (length b) 16) as Hu.
  exists (S (length b / 16)). lia.
Qed.

Lemma unpad_pad (b : bytes) : unpad (pad b) = Some b.
Proof.
  unfold unpad, pad.
  pose proof (Nat.mod_upper_bound (length b) block_size) as Hu.
  set (n := (block_size - length b mod block_size)%nat).
  assert (Hn : (1 <= n <= block_size)%nat) by (unfold block_size in *; lia).
  destruct n as [|n'] eqn:En; [lia|].
  rewrite replicate_S_end, app_assoc, last_snoc.
  rewrite <- app_assoc, <- replicate_S_end.
  rewrite nat_ascii_embedding by (unfold block_size in *; lia).
  rewrite length_app, length_replicate.
  replace (length b + S n' - S n')%nat with (length b) by lia.
  rewrite drop_app_length, take_app_length.
  destruct (Nat.leb_spec 1 (S n')); [|lia].
  destruct (Nat.leb_spec (S n') block_size); [|lia].
  destruct (Nat.leb_spec (S n') (length b + S n')); [|lia].
  simpl. by rewrite bool_decide_eq_true_2.
Qed.

End EncryptionFacts.

Module EncryptionRoundTrip.
Import Encryption EncryptionFacts.

Lemma substring_all s : String.substring 0 (String.length s) s = s.
Proof. induction s as [|c s IH]; simpl; [done | by rewrite IH]. Qed.

Lemma prefix_append p s : String.prefix p (p +:+ s) = true.
Proof.
  induction p as [|c p IH]; simpl; [by destruct s|].
  by destruct (ascii_dec c c).
Qed.

Lemma substring_append p s :
  String.substring (String.length p)
    (String.length (p +:+ s) - String.length p) (p +:+ s) = s.
Proof.
  induction p as [|c p IH]; simpl; [|done].
  by rewrite Nat.sub_0_r, substring_all.
Qed.

Section RoundTrip.
Context {bc : BlockCipher} {bcl : BlockCipherLaws bc}.
Context {ef : EnvelopeFormat} {efl : EnvelopeFormatLaws ef}.

Lemma decode_key_iv_ok secret iv k v :
  decode_key_iv secret iv = Ok (k, v) ->
  key_ok k = true /\ length v = block_size.
Proof.
  unfold decode_key_iv.
  destruct (decode_key secret) as [k'|]; [|done].
  destruct (decode_iv iv) as [v'|]; [|done].
  destruct (key_ok k') eqn:Hk; simpl; [|done].
  destruct (Nat.eqb_spec (length v') block_size); [|done].
  by intros [= <- <-].
Qed.

Lemma decipher_cipher secret iv text :
  valid_key_iv secret iv = true ->
  exists c, cipher secret iv text = Ok c /\ decipher secret iv c = Ok text.
Proof.
  unfold valid_key_iv, cipher, decipher, rbind.
  destruct (decode_key_iv secret iv) as [[k v]|] eqn:Hd; [|done]. intros _.
  destruct (decode_key_iv_ok _ _ _ _ Hd) as [Hk Hv].
  eexists. split; [reflexivity|]. rewrite hex_decode_encode.
  set (p := pad (list_ascii_of_string text)).
  destruct (pad_length (list_ascii_of_string text)) as (m & Hm & Hle).
  fold p in Hm, Hle.
  destruct (blocks_whole (length p) p m Hm Hle) as [Hall Hcat].
  pose proof (cbc_encrypt_blocks k Hk _ v Hall Hv) as Hcs.
  set (cs := cbc_encrypt k v (blocks (length p) p)) in *.
  rewrite (concat_blocks_length cs Hcs), Nat.Div0.mod_mul. simpl.
  rewrite (blocks_concat cs) by (done || unfold block_size; lia).
  subst cs. rewrite cbc_decrypt_encrypt by done.
  rewrite Hcat. subst p. rewrite unpad_pad.
  by rewrite string_of_list_ascii_of_string.
Qed.

Lemma decrypt_encrypt store keyId secret fresh_salt text :
  store !! keyId = Some secret ->
  valid_key_iv secret fresh_salt = true ->
  exists env,
    encrypt store fresh_salt keyId text = Ok env /\
    isEncrypted env = true /\
    decrypt store env = Ok text.
Proof.
  intros Hs Hv.
  destruct (decipher_cipher secret fresh_salt text Hv) as (c & Hc & Hd).
  unfold encrypt, findKey, rbind. rewrite Hs, Hc.
  eexists. split; [reflexivity|].
  unfold decrypt, isEncrypted. rewrite prefix_append, substring_append.
  split; [done|]. rewrite parse_stringify.
  unfold findKey, rbind. simpl. by rewrite Hs.
Qed.

End RoundTrip.

(** *** A cipher and an envelope format to run the codec with *)

Lemma xor_cipher_length k b :
  xor_key_ok k = true -> length b = block_size ->
  length (xor_block b k) = block_size.
Proof.
  unfold xor_key_ok. intros Hk%Nat.eqb_eq Hb.
  rewrite xor_block_length; congruence.
Qed.

Lemma xor_cipher_inverse k b :
  xor_key_ok k = true -> length b = block_size ->
  xor_block (xor_block b k) k = b.
Proof.
  unfold xor_key_ok. intros Hk%Nat.eqb_eq Hb.
  apply xor_block_involutive. congruence.
Qed.

Lemma xor_cipher_laws : BlockCipherLaws xor_cipher.
Proof. split; [apply xor_cipher_length | apply xor_cipher_inverse]. Qed.

Lemma read_write_field s rest :
  read_field (write_field s +:+ rest) = Some (s, rest).
Proof. induction s as [|c s IH]; simpl; [done | by rewrite IH]. Qed.

Lemma read_write_field_end s : read_field (write_field s) = Some (s, EmptyString).
Proof. induction s as [|c s IH]; simpl; [done | by rewrite IH]. Qed.

Lemma read_write_envelope e : read_envelope (write_envelope e) = Some e.
Proof.
  destruct e as [k d [v|]]; unfold read_envelope, write_envelope;
    cbn [encryptionKeyId data salt];
    rewrite read_write_field; cbn [mbind option_bind];
    rewrite read_write_field; cbn [mbind option_bind]; [|done].
  change ("s" +:+ write_field v) with (String "s" (write_field v)).
  cbn iota. by rewrite read_write_field_end.
Qed.

Lemma dotted_format_laws : EnvelopeFormatLaws dotted_format.
Proof. split. apply read_write_envelope. Qed.

End EncryptionRoundTrip.

(** C9: the codec round-trips.  For every text and every key/IV pair
    that the codec does not refuse, [cipher] succeeds and [decipher]
    of its result, under the same key and IV, is the text; and for
    every key of the store and every salt that make such a pair,
    [encrypt] succeeds, its result carries the prefix marker, and
    [decrypt] of it is the text. *)
Theorem encryption_round_trip
    {bc : Encryption.BlockCipher} {bcl : Encryption.BlockCipherLaws bc}
    {ef : Encryption.EnvelopeFormat} {efl : Encryption.EnvelopeFormatLaws ef} :
  (forall secret iv text,
     Encryption.valid_key_iv secret iv = true ->
     exists c,
       Encryption.cipher secret iv text = Encryption.Ok c /\
       Encryption.decipher secret iv c = Encryption.Ok text) /\
  (forall (store : gmap string string) keyId secret fresh_salt text,
     store !! keyId = Some secret ->
     Encryption.valid_key_iv secret fresh_salt = true ->
     exists env,
       Encryption.encrypt store fresh_salt keyId text = Encryption.Ok env /\
       Encryption.isEncrypted env = true /\
       Encryption.decrypt store env = Encryption.Ok text).
Proof.
  split.
  - apply EncryptionRoundTrip.decipher_cipher.
  - apply EncryptionRoundTrip.decrypt_encrypt.
Qed.

(** C9 at the key of the tests, for the text [secret text]. *)
Lemma encryption_round_trip_witness :
  (exists c,
     Encryption.cipher (bc := Encryption.xor_cipher)
       Encryption.test_secret Encryption.test_salt "secret text"
     = Encryption.Ok c /\
     Encryption.decipher (bc := Encryption.xor_cipher)
       Encryption.test_secret Encryption.test_salt c
     = Encryption.Ok "secret text") /\
  (exists env,
     Encryption.encrypt (bc := Encryption.xor_cipher)
       (ef := Encryption.dotted_format)
       {["keyId" := Encryption.test_secret]} Encryption.test_salt "keyId" "secret text"
     = Encryption.Ok env /\
     Encryption.isEncrypted env = true /\
     Encryption.decrypt (bc := Encryption.xor_cipher)
       (ef := Encryption.dotted_format)
       {["keyId" := Encryption.test_secret]} env
     = Encryption.Ok "secret text").
Proof.
  destruct (encryption_round_trip
              (bcl := EncryptionRoundTrip.xor_cipher_laws)
              (efl := EncryptionRoundTrip.dotted_format_laws)) as [Hc He].
  split.
  - apply Hc. vm_compute. reflexivity.
  - apply (He _ _ Encryption.test_secret); vm_compute; reflexivity.
Defined.

(** * Further properties of the client *)

(** ** The command side *)

Module CommandFacts.
Import Commands.

Lemma field_app_ne k k' v fs :
  k <> k' -> field k (fs ++ [(k', v)]) = field k fs.
Proof.
  intros Hk. induction fs as [|[k0 v0] fs IH]; simpl.
  - by rewrite (proj2 (String.eqb_neq _ _) Hk).
  - by rewrite IH.
Qed.

Lemma field_app_absent k v fs :
  k ∉ fs.*1 -> field k (fs ++ [(k, v)]) = v.
Proof.
  induction fs as [|[k0 v0] fs IH]; simpl; intros Hk.
  - by rewrite String.eqb_refl.
  - apply not_elem_of_cons in Hk as [Hne Hk].
    rewrite (proj2 (String.eqb_neq _ _) Hne). by apply IH.
Qed.

Lemma field_filter_ne k k' fs :
  k <> k' -> field k (filter (fun kv => kv.1 <> k') fs) = field k fs.
Proof.
  intros Hk. induction fs as [|[k0 v0] fs IH]; [done|].
  rewrite filter_cons. simpl. destruct (decide (k0 <> k')) as [Hne|He]; simpl.
  - by rewrite IH.
  - apply dec_stable in He. subst k0.
    by rewrite (proj2 (String.eqb_neq _ _) Hk).
Qed.

Lemma filter_absent k fs : k ∉ (filter (fun kv : string * value => kv.1 <> k) fs).*1.
Proof.
  intros (kv & -> & Hin)%list_elem_of_fmap.
  apply list_elem_of_filter in Hin as [Hne _]. done.
Qed.




Lemma append_assoc (s1 s2 s3 : string) :
  (s1 +:+ s2) +:+ s3 = s1 +:+ (s2 +:+ s3).
Proof.
  induction s1 as [|c s1 IH]; [done|].
  change (String c ((s1 +:+ s2) +:+ s3) = String c (s1 +:+ (s2 +:+ s3))).
  by rewrite IH.
Qed.




Lemma addBodyOptions_throws json o e :
  addBodyOptions json o = Throw e -> e = TypeError.
Proof. unfold addBodyOptions, cbind. destruct o; simpl; congruence. Qed.

Lemma field_in k v fs : NoDup fs.*1 -> (k, v) ∈ fs -> field k fs = v.
Proof.
  induction fs as [|[k' v'] fs IH]; simpl; [by intros _ ?%elem_of_nil|].
  intros [Hk' Hfs]%NoDup_cons [[= -> ->]|Hin]%elem_of_cons.
  - by rewrite String.eqb_refl.
  - destruct (String.eqb_spec k k') as [->|_]; [|by apply IH].
    destruct Hk'. apply list_elem_of_fmap. by exists (k', v).
Qed.

(** Reading every own property by its name gives the properties in
    their order. *)
Lemma fields_in_order {A} (f : string -> value -> A) fs :
  NoDup fs.*1 ->
  (fun key => f key (field key fs)) <$> fs.*1 = (fun kv => f kv.1 kv.2) <$> fs.
Proof.
  intros Hfs. rewrite <- list_fmap_compose. apply list_eq. intros i.
  rewrite !list_lookup_fmap. destruct (fs !! i) as [[k v]|] eqn:Hi; [|done].
  simpl. f_equal. f_equal. apply field_in; [done|]. by eapply list_elem_of_lookup_2.
Qed.

Section Events.
Context {host : Host} {ser : Stringify}.

Lemma every_true f l :
  every f l = Normal true -> Forall (fun e => f e = Normal true) l.
Proof.
  induction l as [|e l IH]; simpl; [by constructor|].
  unfold cbind. destruct (f e) as [[]|] eqn:He; try done.
  intros Hl. constructor; [done | by apply IH].
Qed.

(** An event that passes [checkEvents] is an object whose [eventData]
    is JSON text or has [typeof] [object]. *)
Lemma checkEvent_true e :
  checkEvent e = Normal true ->
  exists fs, e = VObject fs /\
    truthy (field "eventType" fs) = true /\
    ((exists s ed, field "eventData" fs = VString s /\ JSON_parse s = Some ed) \/
     typeof (field "eventData" fs) = TObject).
Proof.
  unfold checkEvent, cbind, get.
  destruct e as [| | | | | |fs]; try done.
  destruct (truthy (field "eventType" fs)) eqn:Ht; simpl; [|done].
  destruct (truthy (field "eventData" fs)); simpl; [|done].
  destruct (field "eventData" fs) as [| | | |s| |] eqn:Hd; simpl; try done.
  - destruct (JSON_parse s) as [ed|] eqn:Hs; [|done]. intros _.
    exists fs. split_and!; [done..|]. left. by exists s, ed.
  - intros _. exists fs. split_and!; [done..|]. right. by rewrite Hd.
  - intros _. exists fs. split_and!; [done..|]. right. by rewrite Hd.
Qed.

(** What [prepareEvents] makes of an element that is not [null] or
    [undefined]. *)
Lemma prepareEvent_defined e :
  e <> VUndefined -> e <> VNull ->
  prepareEvent e
  = Done (VObject
            (filter (fun kv => kv.1 <> "eventData") (own_properties e)
             ++ [("eventData",
                  match typeof (field "eventData" (own_properties e)) with
                  | TObject => VString (JSON_stringify (field "eventData" (own_properties e)))
                  | _ => field "eventData" (own_properties e)
                  end)])).
Proof. by destruct e. Qed.

Lemma map_attempt_done f g l :
  Forall (fun e => f e = Done (g e)) l -> map_attempt f l = Done (g <$> l).
Proof.
  induction 1 as [|e l He _ IH]; [done|]. simpl. by rewrite He, IH.
Qed.

Lemma checkEvents_true events :
  checkEvents events = Normal true ->
  exists l, events = VArray l /\ l <> [] /\
    Forall (fun e => checkEvent e = Normal true) l.
Proof.
  destruct events as [| | | | |l|]; try done. simpl.
  destruct l as [|e l]; [done|]. intros H%every_true. by exists (e :: l).
Qed.

Lemma prepareEvents_checked l :
  Forall (fun e => checkEvent e = Normal true) l ->
  exists l',
    prepareEvents (VArray l) = Done (VArray l') /\
    length l' = length l /\
    forall i e, l !! i = Some e ->
      exists fs d,
        e = VObject fs /\
        l' !! i
        = Some (VObject (filter (fun kv => kv.1 <> "eventData") fs
                         ++ [("eventData", VString d)])) /\
        match field "eventData" fs with
        | VString s => d = s /\ is_Some (JSON_parse s)
        | v => d = JSON_stringify v
        end.
Proof.
  intros Hl.
  set (g := fun e =>
    VObject
      (filter (fun kv => kv.1 <> "eventData") (own_properties e)
       ++ [("eventData",
            match typeof (field "eventData" (own_properties e)) with
            | TObject => VString (JSON_stringify (field "eventData" (own_properties e)))
            | _ => field "eventData" (own_properties e)
            end)])).
  exists (g <$> l). split_and!.
  - unfold prepareEvents. rewrite (map_attempt_done prepareEvent g); [done|].
    eapply Forall_impl; [exact Hl|]. intros e (fs & -> & _)%checkEvent_true.
    by apply prepareEvent_defined.
  - by rewrite length_fmap.
  - intros i e Hi. rewrite list_lookup_fmap, Hi. simpl.
    rewrite Forall_lookup in Hl. apply Hl in Hi.
    apply checkEvent_true in Hi as (fs & -> & _ & Hd).
    unfold g. simpl.
    destruct Hd as [(s & ed & Hs & Hp)|Ht].
    + exists fs, s. rewrite Hs. simpl. split_and!; done.
    + exists fs, (JSON_stringify (field "eventData" fs)). rewrite Ht.
      split_and!; [done..|]. by destruct (field "eventData" fs).
Qed.





Lemma prepareEvents_succeeds events :
  checkEvents events = Normal true ->
  exists l', prepareEvents events = Done (VArray l').
Proof.
  intros (l & -> & _ & Hl)%checkEvents_true.
  destruct (prepareEvents_checked l Hl) as (l' & Hp & _). by exists l'.
Qed.

End Events.
End CommandFacts.

Section CommandTheorems.
Import Commands CommandFacts.
Context {host : Host} {ser : Stringify}.

(** Events that pass [checkEvents] are prepared without an exception,
    one for one and in order; every prepared event carries its
    [eventData] as a string, the text it was given or the
    [JSON.stringify] of the object it was given, and every other
    property as it was. *)
Theorem checked_events_are_prepared (events : value) :
  checkEvents events = Normal true ->
  exists l l',
    events = VArray l /\
    prepareEvents events = Done (VArray l') /\
    length l' = length l /\
    forall i e, l !! i = Some e ->
      exists e' d,
        l' !! i = Some e' /\
        get e' "eventData" = Normal (VString d) /\
        match get e "eventData" with
        | Normal (VString s) => d = s
        | Normal v => d = JSON_stringify v
        | Throw _ => False
        end /\
        forall k, k <> "eventData" -> get e' k = get e k.
Proof.
  intros (l & -> & _ & Hl)%checkEvents_true.
  destruct (prepareEvents_checked l Hl) as (l' & Hp & Hlen & Hi).
  exists l, l'. split_and!; [done..|].
  intros i e He. destruct (Hi i e He) as (fs & d & -> & Hi' & Hd).
  eexists _, d. split_and!; [done| | |].
  - simpl. by rewrite field_app_absent by apply filter_absent.
  - simpl. destruct (field "eventData" fs); try done. by destruct Hd.
  - intros k Hk. simpl. by rewrite field_app_ne, field_filter_ne.
Qed.





(** The ways a command ends outside [result]: the promise is rejected
    by an exception of the executor, and [result.failure] and with it
    the callback of the caller are never reached.  This happens when
    [checkEvents] throws, when the options are [null], and, in
    [update] and [loadEvents], when the entity type or the entity id
    is truthy without being a string. *)
Theorem commands_rejected_past_result (c : Client) :
  (forall t events options e,
     truthy t = true -> checkEvents events = Throw e ->
     create c t events options = Raise (Js e)) /\
  (forall t events,
     truthy t = true -> checkEvents events = Normal true ->
     create c t events VNull = Raise (Js TypeError)) /\
  (forall t i v events options e,
     truthy t = true -> truthy i = true -> truthy v = true ->
     checkEvents events = Throw e ->
     update c t i v events options = Raise (Js e)) /\
  (forall t i v events,
     truthy t = true -> truthy i = true -> truthy v = true ->
     checkEvents events = Normal true ->
     update c t i v events VNull = Raise (Js TypeError)) /\
  (forall t i v events options,
     truthy t = true -> truthy i = true -> truthy v = true ->
     checkEvents events = Normal true ->
     typeof t <> TString \/ typeof i <> TString ->
     update c t i v events options = Raise (Js TypeError)) /\
  (forall t i,
     truthy t = true -> truthy i = true ->
     loadEvents c t i VNull = Raise (Js TypeError)) /\
  (forall t i options,
     truthy t = true -> truthy i = true ->
     typeof t <> TString \/ typeof i <> TString ->
     loadEvents c t i options = Raise (Js TypeError)).
Proof.
  split_and!.
  - intros t events options e Ht He. unfold create. by rewrite Ht, He.
  - intros t events Ht He. unfold create. rewrite Ht, He. simpl.
    by destruct (prepareEvents_succeeds events He) as (l' & ->).
  - intros t i v events options e Ht Hi Hv He. unfold update.
    by rewrite Ht, Hi, Hv, He.
  - intros t i v events Ht Hi Hv He. unfold update. rewrite Ht, Hi, Hv, He.
    simpl. by destruct (prepareEvents_succeeds events He) as (l' & ->).
  - intros t i v events options Ht Hi Hv He Hs. unfold update.
    rewrite Ht, Hi, Hv, He. simpl.
    destruct (prepareEvents_succeeds events He) as (l' & ->). simpl.
    destruct (addBodyOptions _ options) as [body|e] eqn:Hb; simpl.
    + destruct (spaceName c); try done;
        destruct t; try done; destruct i; try done; by destruct Hs.
    + by apply addBodyOptions_throws in Hb as ->.
  - intros t i Ht Hi. unfold loadEvents. rewrite Ht, Hi. simpl.
    destruct (spaceName c); try done; destruct t; try done; destruct i; done.
  - intros t i options Ht Hi Hs. unfold loadEvents. rewrite Ht, Hi. simpl.
    destruct (spaceName c); try done;
      destruct t; try done; destruct i; try done; by destruct Hs.
Qed.

(** The input errors the commands report through [result]: a falsy
    entity type (entity id, version) or events that [checkEvents]
    judges false, and nothing else; a falsy name is reported before
    the events are looked at. *)
Theorem commands_validate_input (c : Client) :
  (forall t events options,
     create c t events options
     = Done (Failed (Error "Incorrect input parameters for create()"))
     <-> truthy t = false \/ checkEvents events = Normal false) /\
  (forall t i v events options,
     update c t i v events options
     = Done (Failed (Error "Incorrect input parameters for update()"))
     <-> truthy t = false \/ truthy i = false \/ truthy v = false
         \/ checkEvents events = Normal false) /\
  (forall t i options,
     loadEvents c t i options
     = Done (Failed (Error "Incorrect input parameters for loadEvents"))
     <-> truthy t = false \/ truthy i = false).
Proof.
  split_and!.
  - intros t events options. unfold create.
    destruct (truthy t); simpl; [|by split; [left|]].
    destruct (checkEvents events) as [[]|e] eqn:He; simpl.
    + destruct (prepareEvents_succeeds events He) as (l' & ->). simpl.
      destruct (addBodyOptions _ options); simpl; [|by split; [|intros [|]]].
      destruct (spaceName c); simpl; by split; [|intros [|]].
    + by split; [right|].
    + by split; [|intros [|]].
  - intros t i v events options. unfold update.
    destruct (truthy t); simpl; [|by split; [left|]].
    destruct (truthy i); simpl; [|by split; [right; left|]].
    destruct (truthy v); simpl; [|by split; [right; right; left|]].
    destruct (checkEvents events) as [[]|e] eqn:He; simpl.
    + destruct (prepareEvents_succeeds events He) as (l' & ->). simpl.
      destruct (addBodyOptions _ options); simpl; [|by split; [|intros [|[|[|]]]]].
      destruct (spaceName c); simpl; try by split; [|intros [|[|[|]]]].
      destruct t; simpl; try by split; [|intros [|[|[|]]]].
      destruct i; simpl; by split; [|intros [|[|[|]]]].
    + by split; [do 3 right|].
    + by split; [|intros [|[|[|]]]].
  - intros t i options. unfold loadEvents.
    destruct (truthy t); simpl; [|by split; [left|]].
    destruct (truthy i); simpl; [|by split; [right|]].
    destruct (spaceName c); simpl; try by split; [|intros [|]].
    destruct t; simpl; try by split; [|intros [|]].
    destruct i; simpl; try by split; [|intros [|]].
    destruct (serialiseObject options); simpl; by split; [|intros [|]].
Qed.

(** [loadEvents] called without options, or with options that are not
    an object, on a client whose [spaceName] is a string, asks for
    [/entity/<space>/<type>/<id>?undefined].  On a client whose
    [spaceName] is not a string [path.join] throws a [TypeError] and
    nothing is asked. *)
Theorem loadEvents_without_options (c : Client) (t i : string) (options : value) :
  t <> EmptyString -> i <> EmptyString ->
  typeof options <> TObject ->
  loadEvents c (VString t) (VString i) options
  = match spaceName c with
    | VString space =>
        Done (Requested {| r_path := [baseUrlPath; space; t; i];
                           r_query := Some "?undefined";
                           r_method := GET; r_body := None |})
    | _ => Raise (Js TypeError)
    end.
Proof.
  intros Ht Hi Ho. unfold loadEvents. simpl.
  rewrite (proj2 (String.eqb_neq _ _) Ht), (proj2 (String.eqb_neq _ _) Hi). simpl.
  unfold serialiseObject. destruct (spaceName c); try done. by destruct options.
Qed.

(** [serialiseObject] writes the options of an object as
    [name=value], in the order of the object and joined by [&], names
    and values as they are: a value that contains [&] and [=] reads as
    further options, so that the one option [k] with the value
    [v&k'=v'] and the two options [k], [k'] with the values [v], [v']
    both give the text [k=v&k'=v'].  For [null] it throws a
    [TypeError], and for anything else that is not an object it
    returns [undefined]. *)
Theorem serialiseObject_does_not_escape (k v k' v' : string) :
  k <> k' ->
  serialiseObject (VObject [(k, VString (v +:+ "&" +:+ k' +:+ "=" +:+ v'))])
  = Normal (VString (k +:+ "=" +:+ v +:+ "&" +:+ k' +:+ "=" +:+ v')) /\
  serialiseObject (VObject [(k, VString v); (k', VString v')])
  = Normal (VString (k +:+ "=" +:+ v +:+ "&" +:+ k' +:+ "=" +:+ v')) /\
  (forall fs,
     NoDup fs.*1 ->
     serialiseObject (VObject fs)
     = Normal (VString
                 (Reference.join "&"
                    ((fun kv => kv.1 +:+ "=" +:+ to_string kv.2) <$> fs)))) /\
  serialiseObject VNull = Throw TypeError /\
  (forall obj, typeof obj <> TObject -> serialiseObject obj = Normal VUndefined).
Proof.
  intros Hk. unfold serialiseObject. split_and!.
  - simpl. by rewrite String.eqb_refl.
  - simpl. rewrite String.eqb_refl, (proj2 (String.eqb_neq k' k)) by done.
    rewrite String.eqb_refl. simpl. by rewrite !append_assoc.
  - intros fs Hfs. simpl. do 3 f_equal.
    by apply (fields_in_order (fun key x => key +:+ "=" +:+ to_string x)).
  - done.
  - intros obj Ho. by destruct (typeof obj).
Qed.

(** Whatever the server answers, the response handler tells [result]
    exactly one outcome: an exception of the callback is caught and
    turned into a failure; a transport error is a failure as well. *)
Theorem response_always_reaches_result (status : Z) (text : string) :
  (exists o, response_end command_callback status text = Normal o) /\
  (exists o, response_end load_callback status text = Normal o) /\
  request_error command_callback = Normal (Failure TransportError) /\
  request_error load_callback = Normal (Failure TransportError).
Proof.
  split_and!; [| |done..].
  - unfold response_end, command_callback, statusCodeError, cbind, get.
    destruct (JSON_parse text) as [body|]; [|by eexists].
    destruct (status =? 200); [|by eexists].
    destruct body; simpl; try by eexists.
    repeat case_match; by eexists.
  - unfold response_end, load_callback, statusCodeError, cbind, get.
    destruct (JSON_parse text) as [body|]; [|by eexists].
    destruct (status =? 200); [|by eexists].
    destruct body; simpl; try by eexists.
    unfold eventDataToObject. repeat case_match; by eexists.
Qed.

(** A command succeeds exactly when the response body is JSON text of
    an object, the status is 200, and [entityId], [entityVersion] and
    [eventIds] of the body are truthy; the result carries these
    three. *)
Theorem command_response_success (status : Z) (text : string) (v : value) :
  response_end command_callback status text = Normal (Success v)
  <-> exists body,
        JSON_parse text = Some (VObject body) /\
        status = 200 /\
        truthy (field "entityId" body) = true /\
        truthy (field "entityVersion" body) = true /\
        truthy (field "eventIds" body) = true /\
        v = VObject
              [("entityIdTypeAndVersion",
                VObject [("entityId", field "entityId" body);
                         ("entityVersion", field "entityVersion" body)]);
               ("eventIds", field "eventIds" body)].
Proof.
  unfold response_end, command_callback, statusCodeError, cbind, get. split.
  - destruct (JSON_parse text) as [body|]; [|done].
    destruct (status =? 200) eqn:Hs; [|done]. apply Z.eqb_eq in Hs.
    destruct body as [| | | | | |fs]; simpl; try done.
    destruct (truthy (field "entityId" fs)) eqn:H1; simpl; [|done].
    destruct (truthy (field "entityVersion" fs)) eqn:H2; simpl; [|done].
    destruct (truthy (field "eventIds" fs)) eqn:H3; simpl; [|done].
    intros [= <-]. by exists fs.
  - intros (body & -> & -> & H1 & H2 & H3 & ->). simpl. by rewrite H1, H2, H3.
Qed.

(** How a failed exchange is reported: a body that is not JSON text is
    reported as a [SyntaxError], whatever the status was; a JSON body
    under a status other than 200 is reported as a server error with
    the status and the body; a JSON body under status 200 that is
    [null] is reported as the [TypeError] of reading it. *)
Theorem response_failures (status : Z) (text : string) :
  (JSON_parse text = None ->
   response_end command_callback status text = Normal (Failure (Caught SyntaxError)) /\
   response_end load_callback status text = Normal (Failure (Caught SyntaxError))) /\
  (forall body, JSON_parse text = Some body -> status <> 200 ->
   response_end command_callback status text
   = Normal (Failure (ServerError status body)) /\
   response_end load_callback status text
   = Normal (Failure (ServerError status body))) /\
  (JSON_parse text = Some VNull -> status = 200 ->
   response_end command_callback status text = Normal (Failure (Caught TypeError)) /\
   response_end load_callback status text = Normal (Failure (Caught TypeError))).
Proof.
  unfold response_end, command_callback, load_callback, statusCodeError.
  split_and!.
  - by intros ->.
  - intros body -> Hs. by rewrite (proj2 (Z.eqb_neq _ _) Hs).
  - by intros -> ->.
Qed.

(** [loadEvents] succeeds exactly when the response body is JSON text
    of an object whose [events] is an array and the status is 200; the
    result has one decoded event for each event of the body, in
    order.  A body without [events] fails with a [TypeError]. *)
Theorem load_response_success (status : Z) (text : string) (v : value) :
  response_end load_callback status text = Normal (Success v)
  <-> exists body l,
        JSON_parse text = Some (VObject body) /\
        status = 200 /\
        field "events" body = VArray l /\
        v = VArray ((fun e => (eventToObject e).1) <$> l).
Proof.
  unfold response_end, load_callback, statusCodeError, cbind, get. split.
  - destruct (JSON_parse text) as [body|]; [|done].
    destruct (status =? 200) eqn:Hs; [|done]. apply Z.eqb_eq in Hs.
    destruct body as [| | | | | |fs]; simpl; try done.
    destruct (field "events" fs) as [| | | | |l|] eqn:He; simpl; try done.
    intros [= <-]. by exists fs, l.
  - intros (body & l & -> & -> & He & ->). simpl. by rewrite He.
Qed.

End CommandTheorems.

(** The [httpKeepAlive] option of the constructor has no effect: the
    test in [setupKeepAliveAgent] reads a field that is never
    assigned, so no keep-alive agent is built and no request carries
    one. *)
Theorem keep_alive_option_ignored (protocol : string) (option_ : value) :
  Commands.construct protocol option_ = Commands.construct protocol VUndefined /\
  Commands.keepAliveAgent (Commands.construct protocol option_) = None /\
  Commands.request_agent (Commands.construct protocol option_) = None.
Proof. done. Qed.


(** *** The command side on the events of [Examples], with the
    reference host *)

(** The two events of [Examples] pass [checkEvents] and are prepared. *)
Lemma checked_events_are_prepared_witness :
  exists l',
    Commands.prepareEvents (ser := ReferenceStringify.ser) Examples.events
    = Commands.Done (VArray l') /\
    length l' = 2%nat.
Proof.
  destruct (checked_events_are_prepared
              (host := Reference.host) (ser := ReferenceStringify.ser)
              Examples.events)
    as (l & l' & Hl & Hp & Hlen & _).
  - vm_compute. reflexivity.
  - exists l'. split; [exact Hp|]. rewrite Hlen. injection Hl as <-. reflexivity.
Defined.





(** [create] with [null] for the options. *)
Lemma commands_rejected_past_result_witness :
  Commands.create (host := Reference.host) (ser := ReferenceStringify.ser)
    Scenario.c0 (VString "MyEntity") Examples.events VNull
  = Commands.Raise (Commands.Js TypeError).
Proof.
  destruct (commands_rejected_past_result
              (host := Reference.host) (ser := ReferenceStringify.ser)
              Scenario.c0) as (_ & Hnull & _).
  apply Hnull; [reflexivity | vm_compute; reflexivity].
Defined.

(** [create] with an empty entity type, as in the test suite. *)
Lemma commands_validate_input_witness :
  Commands.create (host := Reference.host) (ser := ReferenceStringify.ser)
    Scenario.c0 (VString EmptyString) (VArray []) VUndefined
  = Commands.Done
      (Commands.Failed (Error "Incorrect input parameters for create()")).
Proof.
  destruct (commands_validate_input
              (host := Reference.host) (ser := ReferenceStringify.ser)
              Scenario.c0) as (Hc & _).
  apply Hc. left. reflexivity.
Defined.

(** [loadEvents] with two arguments, as in the test suite, and on a
    client built without [spaceName]. *)
Lemma loadEvents_without_options_witness :
  Commands.loadEvents (host := Reference.host)
    Scenario.c0 (VString "MyEntity") (VString "e1") VUndefined
  = Commands.Done
      (Commands.Requested
         {| Commands.r_path :=
              [Commands.baseUrlPath; "space"; "MyEntity"; "e1"];
            Commands.r_query := Some "?undefined";
            Commands.r_method := Commands.GET; Commands.r_body := None |}) /\
  Commands.loadEvents (host := Reference.host)
    (new_client "login" "passcode" "stomp.example" 61614 VUndefined)
    (VString "MyEntity") (VString "e1") VUndefined
  = Commands.Raise (Commands.Js TypeError).
Proof.
  split.
  - apply (loadEvents_without_options (host := Reference.host)
             Scenario.c0 "MyEntity" "e1" VUndefined); discriminate.
  - apply (loadEvents_without_options (host := Reference.host)
             (new_client "login" "passcode" "stomp.example" 61614 VUndefined)
             "MyEntity" "e1" VUndefined); discriminate.
Defined.

(** The options [{a: '1&b=2'}] and [{a: '1', b: '2'}]. *)
Lemma serialiseObject_does_not_escape_witness :
  Commands.serialiseObject (host := Reference.host)
    (VObject [("a", VString "1&b=2")])
  = Normal (VString "a=1&b=2") /\
  Commands.serialiseObject (host := Reference.host)
    (VObject [("a", VString "1"); ("b", VString "2")])
  = Normal (VString "a=1&b=2").
Proof.
  destruct (serialiseObject_does_not_escape (host := Reference.host)
              "a" "1" "b" "2") as (H1 & H2 & _).
  - discriminate.
  - split; [exact H1 | exact H2].
Defined.

(** Status 200 with the body of [Examples]. *)
Lemma command_response_success_witness :
  exists v,
    Commands.response_end (host := Reference.host) Commands.command_callback
      200 Examples.created_text
    = Normal (Commands.Success v).
Proof.
  eexists. apply (command_response_success (host := Reference.host)).
  exists Examples.created_body.
  split_and!; [vm_compute; reflexivity | reflexivity..].
Defined.

(** Status 502 with a page of HTML. *)
Lemma response_failures_witness :
  Commands.response_end (host := Reference.host) Commands.command_callback
    502 "<html>"
  = Normal (Commands.Failure (Commands.Caught SyntaxError)).
Proof.
  destruct (response_failures (host := Reference.host) 502 "<html>")
    as (Hbad & _).
  destruct Hbad as [Hc _]; [vm_compute; reflexivity | exact Hc].
Defined.

(** Status 200 with the events of [Examples.loaded]. *)
Lemma load_response_success_witness :
  exists v,
    Commands.response_end (host := Reference.host)
      (Commands.load_callback (host := Reference.host)) 200 Examples.loaded_text
    = Normal (Commands.Success v).
Proof.
  eexists. apply (load_response_success (host := Reference.host)).
  exists [("events", VArray Examples.loaded)], Examples.loaded.
  split_and!; [vm_compute; reflexivity | reflexivity..].
Defined.

(** ** The subscription side *)

#[local] Instance closed_kept_preorder : PreOrder closed_kept.
Proof.
  split; [by intros w Hw|].
  intros w1 w2 w3 H12 H23 Hw. destruct (H12 Hw) as (H2 & Hs & Hd).
  destruct (H23 H2) as (H3 & Hs' & Hd'). split_and!; congruence.
Qed.

Lemma connect_closed_kept : stable closed_kept connectToStompServer.
Proof.
  intros w Hw. unfold connectToStompServer, bind, gets. simpl.
  destruct (_connPromise (client w)) as [p|] eqn:Hp; simpl; [done|].
  unfold new_promise, connect_executor, bind, gets, modify. simpl.
  rewrite Hw. unfold settle, modify. simpl.
  repeat case_match; simpl; done.
Qed.

Lemma disconnected_closed_kept {host : Host} p :
  stable closed_kept (on_stomp_event p disconnected).
Proof.
  intros w Hw.
  unfold on_stomp_event, bind, modify_client, modify, gets. simpl.
  by rewrite Hw.
Qed.

Ltac closed_leaf :=
  apply stable_modify; intros ?w ?Hw; simpl;
  repeat case_match; simpl; rewrite ?delays_app; simpl; rewrite ?app_nil_r;
  done.

Lemma perform_closed_kept {host : Host} op : stable closed_kept (perform op).
Proof.
  pose proof connect_closed_kept as Hconnect.
  pose proof (disconnected_closed_kept 0%nat) as Hdisconnected.
  destruct op as [| | | | |s []| |];
    unfold perform, subscribe, observable_subscribe, acknowledge, disconnect,
      reconnect_timer, run_job_caught, run_job, on_stomp_event,
      run_messageCallback, decode_records, addSubscription, addReceipt,
      resubscribe, report, doClientSubscribe, tracker_add, tracker_ack,
      observer_onNext, observer_onError, modify_client;
    stable_structure; closed_leaf.
Qed.

Lemma run_closed_kept {host : Host} ops w : closed_kept w (run ops w).
Proof.
  apply run_stable; [tc_solve | apply perform_closed_kept |].
  intros e. closed_leaf.
Qed.

(** Once [disconnect()] has been called, whatever happens next, the
    client stays closed, builds no further Stomp object and schedules
    no reconnect. *)
Theorem close_is_final {host : Host} (w : World) (ops : list Op) :
  let w' := run (OpDisconnect :: ops) w in
  closed (client w') = true /\
  stomps w' = stomps w /\
  delays (trace w') = delays (trace w).
Proof.
  intros w'. subst w'. change (run (OpDisconnect :: ops) w)
    with (run ops (step w OpDisconnect)).
  assert (Hd : closed (client (step w OpDisconnect)) = true /\
               stomps (step w OpDisconnect) = stomps w /\
               delays (trace (step w OpDisconnect)) = delays (trace w)).
  { unfold step, catch, perform, disconnect, bind, modify_client, modify, gets,
      throw, emit, ret. simpl.
    destruct (_connPromise (client w)); simpl;
      [destruct (stompClient (client w)); simpl|];
      rewrite ?delays_app; simpl; rewrite ?app_nil_r; done. }
  destruct Hd as (Hc & Hs & Hd).
  destruct (run_closed_kept ops _ Hc) as (Hc' & Hs' & Hd').
  split_and!; congruence.
Qed.

#[local] Instance ladder_kept_preorder : PreOrder ladder_kept.
Proof. split; [by intros w Hw | intros w1 w2 w3 H12 H23 Hw; by apply H23, H12]. Qed.

Lemma disconnected_ladder_kept {host : Host} p :
  stable ladder_kept (on_stomp_event p disconnected).
Proof.
  intros w (Hstart & [k Hk] & Hd).
  unfold on_stomp_event, bind, modify_client, modify, gets,
    reconnectStompServer, emit. simpl.
  destruct (closed (client w)); simpl; [by split_and!; [|exists k|]|].
  pose proof (next_interval_backoff k) as Hn. unfold next_interval in Hn.
  rewrite <- Hk in Hn.
  destruct (reconnectInterval (client w) <? 16000) eqn:E; rewrite ?E in Hn;
    unfold on_ladder; simpl;
    (split_and!; [done | exists (S k); congruence |]);
    rewrite delays_app; simpl; apply Forall_app; (split; [done|]);
    repeat constructor; exists k; congruence.
Qed.

Ltac ladder_leaf :=
  apply stable_modify; intros ?w (?Hstart & [?k ?Hk] & ?Hd); unfold on_ladder;
  simpl; repeat case_match; simpl; rewrite ?delays_app; simpl;
  rewrite ?app_nil_r;
  first [ by split_and!; [|eexists|]
        | by split_and!; [|exists 0%nat|] ].

Lemma perform_ladder_kept {host : Host} op : stable ladder_kept (perform op).
Proof.
  pose proof (disconnected_ladder_kept 0%nat) as Hdisconnected.
  destruct op as [| | | | |s []| |]; unfold_methods; unfold resubscribe, report;
    stable_structure; ladder_leaf.
Qed.

Lemma run_ladder_kept {host : Host} ops w : ladder_kept w (run ops w).
Proof.
  apply run_stable; [tc_solve | apply perform_ladder_kept |].
  intros e. ladder_leaf.
Qed.

Lemma backoff_values k :
  backoff k ∈ [500; 1000; 2000; 4000; 8000; 16000] /\
  backoff (S k) ∈ [1000; 2000; 4000; 8000; 16000].
Proof.
  assert (Hhigh : forall n : nat, backoff (5 + n) = 16000).
  { intros n. unfold backoff. rewrite Nat2Z.inj_add, Z.pow_add_r by lia.
    assert (0 < 2 ^ Z.of_nat n) by (apply Z.pow_pos_nonneg; lia).
    change (2 ^ Z.of_nat 5%nat) with 32. lia. }
  do 5 (destruct k as [|k];
        [split; [by repeat constructor | vm_compute; by repeat constructor]|]).
  change (S (S (S (S (S (S k)))))) with (5 + S k)%nat.
  change (S (S (S (S (S k))))) with (5 + k)%nat.
  rewrite (Hhigh k), (Hhigh (S k)). split; by repeat constructor.
Qed.

(** In every run of a client the constructor has built, every delay a
    reconnect is scheduled with is one of 1000, 2000, 4000, 8000 and
    16000 ms, and the reconnect interval is one of these or 500 ms. *)
Theorem reconnect_delays_on_ladder {host : Host}
    (ops : list Op) (id secret h : string) (port : Z) (space : value) :
  let w := run ops (new_world (new_client id secret h port space)) in
  Forall (fun d => d ∈ [1000; 2000; 4000; 8000; 16000]) (delays (trace w)) /\
  reconnectInterval (client w) ∈ [500; 1000; 2000; 4000; 8000; 16000].
Proof.
  intros w.
  destruct (run_ladder_kept ops (new_world (new_client id secret h port space)))
    as (_ & [k Hk] & Hd).
  { split_and!; [done | by exists 0%nat | constructor]. }
  fold w in Hk, Hd. split.
  - eapply Forall_impl; [exact Hd|]. intros d [k' ->]. apply backoff_values.
  - rewrite Hk. apply backoff_values.
Qed.

#[local] Instance subscriptions_kept_preorder : PreOrder subscriptions_kept.
Proof.
  split; [by intros w r|].
  intros w1 w2 w3 H12 H23 r Hr. by apply H23, H12.
Qed.

Ltac subscriptions_leaf :=
  apply stable_modify; intros ?w ?r; simpl;
  repeat case_match; simpl; try done;
  apply TableFacts.lookup_assign_is_Some.

Lemma perform_subscriptions_kept {host : Host} op :
  stable subscriptions_kept (perform op).
Proof.
  destruct op; unfold_methods; unfold resubscribe, report, doClientSubscribe;
    stable_structure; subscriptions_leaf.
Qed.

Lemma run_subscriptions_kept {host : Host} ops w :
  subscriptions_kept w (run ops w).
Proof.
  apply run_stable; [tc_solve | apply perform_subscriptions_kept |].
  intros e. subscriptions_leaf.
Qed.

#[local] Instance no_own_proto_kept_preorder : PreOrder no_own_proto_kept.
Proof. split; [by intros w Hw | intros w1 w2 w3 H12 H23 Hw; by apply H23, H12]. Qed.

Lemma lookup_proto_assign {V} k (v : V) tb :
  Table.lookup "__proto__" tb = None ->
  Table.lookup "__proto__" (Table.assign k v tb) = None.
Proof.
  intros Htb. destruct (String.eqb_spec k "__proto__") as [->|Hk].
  - done.
  - by rewrite TableFacts.lookup_assign_ne.
Qed.

Ltac no_own_proto_leaf :=
  apply stable_modify; intros ?w ?Hw; unfold no_own_proto in *; simpl;
  repeat case_match; simpl; try done;
  try by apply lookup_proto_assign.

Lemma perform_no_own_proto_kept {host : Host} op :
  stable no_own_proto_kept (perform op).
Proof.
  destruct op; unfold_methods; unfold resubscribe, report, doClientSubscribe;
    stable_structure; no_own_proto_leaf.
Qed.

Lemma run_no_own_proto_kept {host : Host} ops w :
  no_own_proto_kept w (run ops w).
Proof.
  apply run_stable; [tc_solve | apply perform_no_own_proto_kept |].
  intros e. no_own_proto_leaf.
Qed.

(** A subscription is registered by subscribing to the event sequence
    under a subscriber id other than [__proto__], and is never taken
    out again: not by a disconnection, not by [disconnect()], not by
    an error.  Under the subscriber id [__proto__] nothing is ever
    registered: the assignment replaces the prototype of the table,
    and the table of a client the constructor has built never has an
    entry of that name. *)
Theorem subscription_never_removed {host : Host}
    (w : World) (h : Handle) (u : string) (ops : list Op) :
  hd_subscriberId h <> "__proto__" ->
  is_Some (Table.lookup (hd_subscriberId h)
             (subscriptions (client (run (OpObservableSubscribe h u :: ops) w)))) /\
  (forall ops' id secret host_ port space,
     Table.lookup "__proto__"
       (subscriptions
          (client (run ops' (new_world (new_client id secret host_ port space)))))
     = None).
Proof.
  intros Hsid. split.
  - change (run (OpObservableSubscribe h u :: ops) w)
      with (run ops (step w (OpObservableSubscribe h u))).
    apply run_subscriptions_kept.
    destruct (observable_subscribe_tables w h u) as [Hsub _]. cbv zeta in Hsub.
    rewrite Hsub, TableFacts.lookup_assign_eq by done. by eexists.
  - intros ops' id secret host_ port space.
    by apply run_no_own_proto_kept.
Qed.

(** A table of unique names answers each of its names with its
    entry. *)
Lemma lookup_in {V} k (v : V) tb :
  NoDup tb.*1 -> (k, v) ∈ tb -> Table.lookup k tb = Some v.
Proof.
  induction tb as [|[k' v'] tb IH]; simpl; [by intros _ ?%elem_of_nil|].
  intros [Hk' Htb]%NoDup_cons [[= -> ->]|Hin]%elem_of_cons.
  - by rewrite String.eqb_refl.
  - destruct (String.eqb_spec k k') as [->|_]; [|by apply IH].
    destruct Hk'. apply list_elem_of_fmap. by exists (k', v).
Qed.

(** The walk over a table of unique names sends one subscribe frame
    for each entry, in the order of [for ... in]. *)
Lemma resubscriptions_for_in s (tb : Table.t Subscription) :
  NoDup tb.*1 ->
  resubscriptions s tb (Table.for_in tb).*1
  = (fun kv => StompSubscribe s (headers kv.2)) <$> Table.for_in tb.
Proof.
  intros Htb. unfold resubscriptions.
  assert (Hin : Forall (fun kv => kv ∈ tb) (Table.for_in tb)).
  { apply Forall_forall. intros kv Hkv. by rewrite <- (TableFacts.for_in_perm tb). }
  induction Hin as [|[k sub] l Hk _ IH]; [done|].
  cbn [fmap list_fmap omap list_omap fst snd].
  rewrite (lookup_in k sub tb Htb Hk). simpl. f_equal. apply IH.
Qed.

(** The first subscription of a client, from the constructor to the
    receipt: subscribing to the event sequence builds the one Stomp
    object and connects it; the subscribe frame is sent when the Stomp
    object reports [connected], not before, with the subscription id
    and the receipt id made from the same unique id; the receipt for
    it calls the subscribe callback with that receipt id.  Two
    subscriber ids never get their subscribe frame: under [__proto__]
    nothing was registered, and [doClientSubscribe] logs that it
    cannot find the subscription; under [hasOwnProperty] the entry
    shadows the method [doClientSubscribe] tests the table with, and
    the call throws. *)
Theorem first_subscription {host : Host}
    (id secret h : string) (port : Z) (space : value) (sid : string) (f : value)
    (o : option Options) (cb : Callback) (u : string) :
  let c := new_client id secret h port space in
  let hd := {| hd_subscriberId := sid; hd_filter := f; hd_options := o;
               hd_callback := cb; hd_tracker := 0%nat |} in
  let sent :=
    StompSubscribe 0
      {| h_id := "subscription-id-" +:+ u; h_receipt := "receipt-id-" +:+ u;
         h_destination :=
           {| d_entityTypesAndEvents := f; d_subscriberId := sid;
              d_space := if truthy space then Some space else None;
              d_options := o |} |} in
  let outcome :=
    if String.eqb sid "__proto__" then LoggedError
    else if String.eqb sid "hasOwnProperty" then Threw TypeError
    else sent in
  let start := [OpSubscribe sid f o cb; OpObservableSubscribe hd u; OpJobs;
                OpStomp 0 socketConnected] in
  stomp_parameters_ok c = true ->
  sid <> EmptyString ->
  (exists k ks, Object_keys f = Normal (k :: ks)) ->
  (subscribe sid f o cb (new_world c)).1 = Normal (Subscribed hd) /\
  trace (run start (new_world c)) = [NewStomp 0; StompConnect 0] /\
  trace (run (start ++ [OpStomp 0 connected; OpJobs]) (new_world c))
  = [NewStomp 0; StompConnect 0; outcome] /\
  trace (run (start ++ [OpStomp 0 connected; OpJobs;
                        OpStomp 0 (receipt ("receipt-id-" +:+ u))])
           (new_world c))
  = [NewStomp 0; StompConnect 0; outcome;
     CallCallback cb (CbReceipt ("receipt-id-" +:+ u))].
Proof.
  intros c hd sent outcome start Hok Hsid (k & ks & Hf).
  split.
  { by rewrite (subscribe_world _ sid f o cb k ks Hsid Hf). }
  assert (H1 : step (new_world c) (OpSubscribe sid f o cb)
               = set_trackers [AckOrderTracker.empty] (new_world c)).
  { unfold step, catch, perform, bind.
    by rewrite (subscribe_world _ sid f o cb k ks Hsid Hf). }
  set (w1 := set_trackers [AckOrderTracker.empty] (new_world c)) in *.
  set (sub := {| subscriberId := sid; entityTypesAndEvents := f;
                 messageCallback := {| mc_tracker := 0; mc_observer := 0 |};
                 headers :=
                   {| h_id := "subscription-id-" +:+ u;
                      h_receipt := "receipt-id-" +:+ u;
                      h_destination :=
                        {| d_entityTypesAndEvents := f; d_subscriberId := sid;
                           d_space := if truthy space then Some space else None;
                           d_options := o |} |} |}).
  assert (H2 : exists w2,
    step w1 (OpObservableSubscribe hd u) = w2 /\
    trace w2 = [NewStomp 0; StompConnect 0] /\ jobs w2 = [] /\
    stomps w2 = [0%nat] /\
    promises w2 = [{| state := Pending; reactions := [RSubscribe sid cb] |}] /\
    stompClient (client w2) = Some 0%nat /\
    subscriptions (client w2) = Table.assign sid sub [] /\
    receipts (client w2)
    = [("receipt-id-" +:+ u, {| clientSubscribeCallback := cb |})]).
  { eexists. split; [reflexivity|].
    unfold step, catch, perform, observable_subscribe, addSubscription, addReceipt,
      bind, modify_client, modify, gets. simpl.
    unfold connectToStompServer, bind, gets. simpl.
    unfold new_promise, connect_executor, bind, gets, modify. simpl.
    unfold stomp_parameters_ok in *. simpl in *. rewrite Hok. simpl.
    unfold then_, modify. simpl. done. }
  destruct H2 as (w2 & H2 & Ht2 & Hj2 & Hs2 & Hp2 & Hc2 & Hsub2 & Hr2).
  assert (H3 : exists w3,
    step (step w2 OpJobs) (OpStomp 0 socketConnected) = w3 /\
    trace w3 = trace w2 /\ jobs w3 = [] /\ stomps w3 = stomps w2 /\
    promises w3 = promises w2 /\ stompClient (client w3) = Some 0%nat /\
    subscriptions (client w3) = subscriptions (client w2) /\
    receipts (client w3) = receipts (client w2)).
  { eexists. split; [reflexivity|].
    rewrite (jobs_world_empty w2 Hj2).
    rewrite (socketConnected_world _ 0%nat 0%nat) by (simpl; by rewrite Hs2).
    simpl. done. }
  destruct H3 as (w3 & H3 & Ht3 & Hj3 & Hs3 & Hp3 & Hc3 & Hsub3 & Hr3).
  assert (Hstart : run start (new_world c) = w3).
  { unfold start, run. cbn [foldl]. by rewrite H1, H2, H3. }
  split; [by rewrite Hstart, Ht3|].
  assert (H5 : exists w5,
    step (step w3 (OpStomp 0 connected)) OpJobs = w5 /\
    trace w5 = trace w3 ++ [outcome] /\ stomps w5 = stomps w3 /\
    receipts (client w5) = receipts (client w3)).
  { eexists. split; [reflexivity|].
    rewrite (connected_world w3 0%nat 0%nat [RSubscribe sid cb]);
      [|by rewrite Hs3, Hs2|by rewrite Hp3, Hp2].
    set (w4 := set_client _ _).
    assert (Hsub4 : subscriptions (client (set_jobs [] w4)) = Table.assign sid sub [])
      by (by rewrite <- Hsub2, <- Hsub3).
    assert (Hj4 : jobs w4
                  = [{| j_reaction := RSubscribe sid cb; j_outcome := Fulfilled |}])
      by (simpl; by rewrite Hj3).
    subst outcome. unfold Table.assign in Hsub4.
    destruct (String.eqb_spec sid "__proto__") as [Hproto|Hproto].
    - erewrite (jobs_world w4); [|exact Hj4|].
      2:{ unfold run_job. cbn [j_reaction j_outcome].
          apply doClientSubscribe_absent; by rewrite Hsub4. }
      done.
    - destruct (String.eqb_spec sid "hasOwnProperty") as [Hmethod|Hmethod].
      + erewrite (jobs_world_thrown w4); [|exact Hj4|].
        2:{ unfold run_job. cbn [j_reaction j_outcome].
            apply doClientSubscribe_shadowed. rewrite Hsub4, Hmethod. by eexists. }
        done.
      + erewrite (jobs_world w4); [|exact Hj4|].
        2:{ unfold run_job. cbn [j_reaction j_outcome].
            apply (doClientSubscribe_run _ sid sub 0%nat);
              [rewrite Hsub4; unfold Table.put, Table.lookup;
               by rewrite (proj2 (String.eqb_neq "hasOwnProperty" sid))
              |rewrite Hsub4; unfold Table.put, Table.lookup;
               by rewrite String.eqb_refl
              |exact Hc3]. }
        done. }
  destruct H5 as (w5 & H5 & Ht5 & Hs5 & Hr5).
  split.
  - unfold run. rewrite foldl_app. fold (run start (new_world c)). rewrite Hstart.
    cbn [foldl]. by rewrite H5, Ht5, Ht3, Ht2.
  - unfold run. rewrite foldl_app. fold (run start (new_world c)). rewrite Hstart.
    cbn [foldl]. rewrite H5.
    rewrite (receipt_step w5 0%nat 0%nat _ {| clientSubscribeCallback := cb |});
      [|by rewrite Hs5, Hs3, Hs2
       |rewrite Hr5, Hr3, Hr2; reflexivity
       |rewrite Hr5, Hr3, Hr2; unfold Table.lookup; by rewrite String.eqb_refl].
    simpl. by rewrite Ht5, Ht3, Ht2.
Qed.

(** A connection that drops comes back with its subscriptions: on a
    connected client that has not been closed, once the Stomp object
    reports [disconnected], the reconnect timer fires and the new
    Stomp object reports [connected], the names of the subscription
    table are walked in the order of [for ... in] and every registered
    subscription is issued again on the new Stomp object, with the
    headers it was registered with, and nothing else is sent; in a
    table of unique names that is one subscribe frame for each entry,
    and in a table without array indices among its names the order is
    the order of registration.
    This is so when the table has no entry named [hasOwnProperty];
    when it has one, the first test of the walk throws and no
    subscription is issued again. *)
Theorem reconnect_resubscribes {host : Host} (w : World) (s p : nat) :
  stompClient (client w) = Some s ->
  stomps w !! s = Some p ->
  closed (client w) = false ->
  stomp_parameters_ok (client w) = true ->
  jobs w = [] ->
  let s' := length (stomps w) in
  let w' := run [OpStomp s disconnected; OpTimer (length (timers w));
                 OpStomp s' connected; OpJobs] w in
  (Table.lookup "hasOwnProperty" (subscriptions (client w)) = None ->
   trace w'
   = trace w
     ++ [SetTimeout (next_interval (reconnectInterval (client w)));
         NewStomp s'; StompConnect s']
     ++ resubscriptions s' (subscriptions (client w))
          (Table.for_in (subscriptions (client w))).*1) /\
  (is_Some (Table.lookup "hasOwnProperty" (subscriptions (client w))) ->
   trace w'
   = trace w
     ++ [SetTimeout (next_interval (reconnectInterval (client w)));
         NewStomp s'; StompConnect s'; Threw TypeError]) /\
  (NoDup (subscriptions (client w)).*1 ->
   resubscriptions s' (subscriptions (client w))
     (Table.for_in (subscriptions (client w))).*1
   = (fun kv => StompSubscribe s' (headers kv.2))
       <$> Table.for_in (subscriptions (client w))) /\
  (Forall (fun kv => Table.array_index kv.1 = None) (subscriptions (client w)) ->
   Table.for_in (subscriptions (client w)) = subscriptions (client w)) /\
  stompClient (client w') = Some s' /\
  subscriptions (client w') = subscriptions (client w).
Proof.
  intros Hs Hp Hc Hok Hj s' w'.
  subst w'. unfold run. cbn [foldl].
  rewrite (disconnected_world w s p Hp Hc). cbv zeta.
  set (d := next_interval (reconnectInterval (client w))).
  set (w1 := set_trace _ _).
  assert (Hok1 : stomp_parameters_ok (client w1) = true) by exact Hok.
  rewrite (timer_world w1 (length (timers w)) d);
    [|by apply list_lookup_middle|done|done|done].
  cbv zeta.
  set (w2 := set_promises _ _).
  rewrite (connected_world w2 s' (length (promises w)) [RReconnect]);
    [|by apply list_lookup_middle..].
  set (w3 := set_client _ _).
  split_and!.
  - intros Hm.
    erewrite (jobs_world w3);
      [|simpl; by rewrite Hj|by apply (reconnect_fulfilled_job _ s')].
    simpl. rewrite <- !app_assoc. done.
  - intros Hm.
    erewrite (jobs_world_thrown w3);
      [|simpl; by rewrite Hj|by apply reconnect_fulfilled_job_shadowed].
    simpl. rewrite <- !app_assoc. done.
  - apply resubscriptions_for_in.
  - apply TableFacts.for_in_named.
  - destruct (Table.lookup "hasOwnProperty" (subscriptions (client w))) eqn:Hm.
    + erewrite (jobs_world_thrown w3);
        [|simpl; by rewrite Hj
         |apply reconnect_fulfilled_job_shadowed; simpl; by rewrite Hm].
      done.
    + erewrite (jobs_world w3);
        [|simpl; by rewrite Hj|by apply (reconnect_fulfilled_job _ s')].
      done.
  - destruct (Table.lookup "hasOwnProperty" (subscriptions (client w))) eqn:Hm.
    + erewrite (jobs_world_thrown w3);
        [|simpl; by rewrite Hj
         |apply reconnect_fulfilled_job_shadowed; simpl; by rewrite Hm].
      done.
    + erewrite (jobs_world w3);
        [|simpl; by rewrite Hj|by apply (reconnect_fulfilled_job _ s')].
      done.
Qed.

(** Subscribing to the event sequence on a closed client whose
    connection is gone: the subscription is registered, unless the
    subscriber id is [__proto__], and so is its receipt; no Stomp
    object is built, nothing is sent, and the subscribe callback is
    called once, with [undefined] for the error and no receipt. *)
Theorem subscribe_on_closed_client {host : Host} (w : World) (h : Handle) (u : string) :
  closed (client w) = true ->
  _connPromise (client w) = None ->
  jobs w = [] ->
  let w' := run [OpObservableSubscribe h u; OpJobs] w in
  trace w' = trace w ++ [CallCallback (hd_callback h) (CbError None)] /\
  stomps w' = stomps w /\
  (hd_subscriberId h <> "__proto__" ->
   is_Some (Table.lookup (hd_subscriberId h) (subscriptions (client w')))) /\
  (hd_subscriberId h = "__proto__" ->
   subscriptions (client w') = subscriptions (client w)) /\
  Table.lookup ("receipt-id-" +:+ u) (receipts (client w'))
  = Some {| clientSubscribeCallback := hd_callback h |}.
Proof.
  intros Hc Hp Hj w'. subst w'. unfold run. cbn [foldl].
  destruct (observable_subscribe_tables w h u) as [Hsub Hrec].
  cbv zeta in Hsub, Hrec.
  assert (Hstep : exists w1,
    step w (OpObservableSubscribe h u) = w1 /\
    jobs w1 = [{| j_reaction := RSubscribe (hd_subscriberId h) (hd_callback h);
                  j_outcome := Rejected None |}] /\
    trace w1 = trace w /\ stomps w1 = stomps w).
  { eexists. split; [reflexivity|].
    unfold step, catch, perform, observable_subscribe, addSubscription, addReceipt,
      bind, modify_client, modify, gets. simpl.
    unfold connectToStompServer, bind, gets. simpl. rewrite Hp.
    unfold new_promise, connect_executor, bind, gets, modify. simpl. rewrite Hc.
    unfold settle, modify. simpl. rewrite list_lookup_middle by done. simpl.
    unfold then_, modify. simpl.
    rewrite insert_app_r_alt by done. rewrite Nat.sub_diag. simpl.
    rewrite list_lookup_middle by done. simpl. rewrite Hj.
    split_and!; done. }
  destruct Hstep as (w1 & Hw1 & Hj1 & Ht1 & Hs1).
  rewrite Hw1 in Hsub, Hrec |- *.
  erewrite (jobs_world w1); [|exact Hj1|reflexivity].
  simpl. rewrite Ht1, Hsub, Hrec. split_and!; try done.
  - intros Hsid. rewrite TableFacts.lookup_assign_eq by done. by eexists.
  - intros Hsid. unfold Table.assign. by rewrite Hsid.
  - by apply TableFacts.lookup_assign_eq.
Qed.

#[local] Instance told_kept_preorder o : PreOrder (told_kept o).
Proof.
  split; [by intros w|]. intros w1 w2 w3 H12 H23. unfold told_kept in *. congruence.
Qed.

(** The message callback of a subscription tells its own observer and
    no other. *)
Lemma run_messageCallback_told_kept {host : Host} mc body tok o :
  o <> mc_observer mc ->
  stable (told_kept o) (run_messageCallback mc body tok).
Proof.
  intros Ho.
  unfold run_messageCallback, decode_records, tracker_add, observer_onNext,
    observer_onError.
  stable_structure;
    apply stable_modify; intros ?w; unfold told_kept; simpl;
    rewrite ?delivered_to_app; simpl;
    rewrite ?(proj2 (Nat.eqb_neq (mc_observer mc) o)) by done;
    by rewrite ?app_nil_r.
Qed.

(** A frame that cannot be routed is dropped: if its ack header is not
    JSON text, or names no receipt handle, the message handler throws;
    if it names a subscriber that is not registered, an error is
    logged; and if the subscription table has an entry named
    [hasOwnProperty], the test of the handler throws a [TypeError],
    whatever subscriber the frame names.  In each case nothing else
    happens: no tracker learns the token, so that it is never
    acknowledged, and no observer is told anything. *)
Theorem unroutable_frames_dropped {host : Host}
    (w : World) (s p : nat) (frame : Frame) :
  stomps w !! s = Some p ->
  (JSON_parse (unEscapeStr (f_ack frame)) = None ->
   step w (OpStomp s (message frame))
   = set_trace (trace w ++ [Threw SyntaxError]) w) /\
  (forall a e,
     JSON_parse (unEscapeStr (f_ack frame)) = Some a ->
     (rh <- get a "receiptHandle" ;; get rh "subscriberId")%cpl = Throw e ->
     step w (OpStomp s (message frame)) = set_trace (trace w ++ [Threw e]) w) /\
  (forall a sid,
     JSON_parse (unEscapeStr (f_ack frame)) = Some a ->
     (rh <- get a "receiptHandle" ;; get rh "subscriberId")%cpl = Normal sid ->
     Table.lookup "hasOwnProperty" (subscriptions (client w)) = None ->
     Table.lookup (to_string sid) (subscriptions (client w)) = None ->
     step w (OpStomp s (message frame)) = set_trace (trace w ++ [LoggedError]) w) /\
  (forall a sid,
     JSON_parse (unEscapeStr (f_ack frame)) = Some a ->
     (rh <- get a "receiptHandle" ;; get rh "subscriberId")%cpl = Normal sid ->
     is_Some (Table.lookup "hasOwnProperty" (subscriptions (client w))) ->
     step w (OpStomp s (message frame))
     = set_trace (trace w ++ [Threw TypeError]) w).
Proof.
  intros Hs. split_and!.
  - intros Ha. unfold step, catch, perform, bind, gets. simpl. rewrite Hs.
    unfold on_stomp_event, bind, lift, gets. simpl. by rewrite Ha.
  - intros a e Ha He. unfold step, catch, perform, bind, gets. simpl. rewrite Hs.
    unfold on_stomp_event, bind, lift, gets. simpl. rewrite Ha. simpl.
    unfold cbind in He. destruct (get a "receiptHandle") as [rh|e']; simpl.
    + by rewrite He.
    + by injection He as ->.
  - intros a sid Ha Hsid Hm Hsub. unfold step, catch, perform, bind, gets. simpl.
    rewrite Hs. unfold on_stomp_event, bind, lift, gets. simpl. rewrite Ha. simpl.
    unfold cbind in Hsid. destruct (get a "receiptHandle") as [rh|e']; [|done].
    simpl. rewrite Hsid. simpl.
    by rewrite (TableFacts.hasOwnProperty_none _ _ Hm Hsub).
  - intros a sid Ha Hsid Hm.
    unfold cbind in Hsid.
    destruct (get a "receiptHandle") as [rh|e'] eqn:Hrh; [|done].
    by apply (message_shadowed w s p frame a rh sid).
Qed.

(** Subscribing to the event sequence under a subscriber id other
    than [__proto__] registers the new observer under the subscriber
    id in place of whatever was registered there: from then on a frame
    for this subscriber id reaches the new observer only, and an
    observer that subscribed before is told nothing. *)
Theorem latest_observer_wins {host : Host}
    (w : World) (h : Handle) (u : string) (s p : nat) (frame : Frame)
    (a rh : value) :
  let w1 := step w (OpObservableSubscribe h u) in
  hd_subscriberId h <> "__proto__" ->
  stomps w1 !! s = Some p ->
  JSON_parse (unEscapeStr (f_ack frame)) = Some a ->
  get a "receiptHandle" = Normal rh ->
  get rh "subscriberId" = Normal (VString (hd_subscriberId h)) ->
  (exists sub,
     Table.lookup (hd_subscriberId h) (subscriptions (client w1)) = Some sub /\
     messageCallback sub
     = {| mc_tracker := hd_tracker h; mc_observer := length (observers w) |}) /\
  (Table.lookup "hasOwnProperty" (subscriptions (client w1)) = None ->
   exists sub,
     Table.lookup (hd_subscriberId h) (subscriptions (client w1)) = Some sub /\
     perform (OpStomp s (message frame)) w1
     = run_messageCallback
         {| mc_tracker := hd_tracker h; mc_observer := length (observers w) |}
         (f_body frame) (f_ack frame) w1) /\
  forall o, (o < length (observers w))%nat ->
    delivered_to o (trace (step w1 (OpStomp s (message frame))))
    = delivered_to o (trace w1).
Proof.
  intros w1 Hproto Hs Ha Hrh Hsid.
  assert (Hsub : exists sub,
    Table.lookup (hd_subscriberId h) (subscriptions (client w1)) = Some sub /\
    messageCallback sub
    = {| mc_tracker := hd_tracker h; mc_observer := length (observers w) |}).
  { destruct (observable_subscribe_tables w h u) as [Hsub _]. cbv zeta in Hsub.
    fold w1 in Hsub. rewrite Hsub, TableFacts.lookup_assign_eq by done.
    by eexists. }
  split; [done|]. destruct Hsub as (sub & Hsub & Hmc).
  assert (Hrouted :
    Table.lookup "hasOwnProperty" (subscriptions (client w1)) = None ->
    perform (OpStomp s (message frame)) w1
    = run_messageCallback
        {| mc_tracker := hd_tracker h; mc_observer := length (observers w) |}
        (f_body frame) (f_ack frame) w1).
  { intros Hm.
    rewrite (message_routed w1 s p frame a rh (VString (hd_subscriberId h)) sub)
      by done.
    by rewrite Hmc. }
  split; [intros Hm; exists sub; by split; [|apply Hrouted]|].
  intros o Ho.
  destruct (Table.lookup "hasOwnProperty" (subscriptions (client w1))) as [m|] eqn:Hm.
  - rewrite (message_shadowed w1 s p frame a rh (VString (hd_subscriberId h)))
      by (rewrite ?Hm; done).
    simpl. rewrite delivered_to_app. simpl. by rewrite app_nil_r.
  - unfold step, catch. rewrite (Hrouted eq_refl).
    pose proof (run_messageCallback_told_kept
                  {| mc_tracker := hd_tracker h; mc_observer := length (observers w) |}
                  (f_body frame) (f_ack frame) o) as Hkept.
    simpl in Hkept. specialize (Hkept ltac:(lia) w1).
    destruct (run_messageCallback _ _ _ w1) as [[[]|e] w2]; simpl in *; [done|].
    unfold emit, modify. simpl. rewrite delivered_to_app. simpl.
    by rewrite app_nil_r.
Qed.

(** *** The life of the subscription of [Scenario], with the reference
    host *)

(** The subscription of the scenario outlives a disconnection and
    [disconnect()]. *)
Lemma subscription_never_removed_witness :
  is_Some
    (Table.lookup "sub1"
       (subscriptions
          (client
             (run (host := Reference.host)
                [OpObservableSubscribe Scenario.h1 "u1"; OpJobs;
                 OpStomp 0 disconnected; OpDisconnect]
                Scenario.w0)))).
Proof.
  destruct (subscription_never_removed (host := Reference.host)
              Scenario.w0 Scenario.h1 "u1"
              [OpJobs; OpStomp 0 disconnected; OpDisconnect])
    as [H _]; [discriminate|].
  exact H.
Defined.

(** The first subscription of the scenario. *)
Lemma first_subscription_witness :
  (subscribe "sub1" Scenario.filter1 None 7%nat
     (new_world
        (new_client "login" "passcode" "stomp.example" 61614 (VString "space")))).1
  = Normal (Subscribed Scenario.h1) /\
  trace (run (host := Reference.host)
           [OpSubscribe "sub1" Scenario.filter1 None 7%nat;
            OpObservableSubscribe Scenario.h1 "u1"; OpJobs;
            OpStomp 0 socketConnected; OpStomp 0 connected; OpJobs;
            OpStomp 0 (receipt "receipt-id-u1")]
           (new_world
              (new_client "login" "passcode" "stomp.example" 61614
                 (VString "space"))))
  = [NewStomp 0; StompConnect 0;
     StompSubscribe 0
       {| h_id := "subscription-id-u1"; h_receipt := "receipt-id-u1";
          h_destination :=
            {| d_entityTypesAndEvents := Scenario.filter1;
               d_subscriberId := "sub1";
               d_space := Some (VString "space");
               d_options := None |} |};
     CallCallback 7%nat (CbReceipt "receipt-id-u1")].
Proof.
  pose proof (first_subscription (host := Reference.host)
                "login" "passcode" "stomp.example" 61614 (VString "space") "sub1"
                Scenario.filter1 None 7%nat "u1") as H.
  cbv zeta in H.
  destruct H as (H1 & _ & _ & H4);
    [reflexivity | discriminate | by eexists _, _ |].
  split; [exact H1 | exact H4].
Defined.

(** The two subscriber ids that never get their subscribe frame. *)
Example first_subscription_special_ids :
  trace (run (host := Reference.host)
           [OpSubscribe "__proto__" Scenario.filter1 None 7%nat;
            OpObservableSubscribe
              {| hd_subscriberId := "__proto__"; hd_filter := Scenario.filter1;
                 hd_options := None; hd_callback := 7%nat; hd_tracker := 0%nat |}
              "u1";
            OpJobs; OpStomp 0 socketConnected; OpStomp 0 connected; OpJobs]
           Scenario.w0)
  = [NewStomp 0; StompConnect 0; LoggedError] /\
  trace (run (host := Reference.host)
           [OpSubscribe "hasOwnProperty" Scenario.filter1 None 7%nat;
            OpObservableSubscribe
              {| hd_subscriberId := "hasOwnProperty"; hd_filter := Scenario.filter1;
                 hd_options := None; hd_callback := 7%nat; hd_tracker := 0%nat |}
              "u1";
            OpJobs; OpStomp 0 socketConnected; OpStomp 0 connected; OpJobs]
           Scenario.w0)
  = [NewStomp 0; StompConnect 0; Threw TypeError].
Proof. split; vm_compute; reflexivity. Qed.

(** The connection of the scenario drops and comes back: the
    subscription of [sub1] is issued again on the new Stomp object. *)
Lemma reconnect_resubscribes_witness :
  trace
    (run (host := Reference.host)
       [OpStomp 0 disconnected; OpTimer (length (timers Scenario.listening));
        OpStomp (length (stomps Scenario.listening)) connected; OpJobs]
       Scenario.listening)
  = trace Scenario.listening
    ++ [SetTimeout 1000; NewStomp 1; StompConnect 1;
        StompSubscribe 1
          {| h_id := "subscription-id-u1"; h_receipt := "receipt-id-u1";
             h_destination :=
               {| d_entityTypesAndEvents := Scenario.filter1;
                  d_subscriberId := "sub1";
                  d_space := Some (VString "space");
                  d_options := None |} |}].
Proof.
  destruct (reconnect_resubscribes (host := Reference.host)
              Scenario.listening 0%nat 0%nat)
    as (Ht & _); [vm_compute; reflexivity..|].
  rewrite Ht; vm_compute; reflexivity.
Defined.

(** Four subscribers registered under the ids [b], [2], [a] and [10]
    in this order: their first subscribe frames go out in the order of
    registration, and after the connection has dropped and come back
    they are subscribed again with the array indices first, in
    ascending order, and the other ids in the order of
    registration. *)
Example resubscription_order :
  subscribed_on 0 (trace Scenario.several_back) = ["b"; "2"; "a"; "10"] /\
  subscribed_on 1 (trace Scenario.several_back) = ["2"; "10"; "b"; "a"].
Proof. split; vm_compute; reflexivity. Qed.

(** The closed client of the scenario is subscribed to once more. *)
Lemma subscribe_on_closed_client_witness :
  trace (run (host := Reference.host)
           [OpObservableSubscribe Scenario.h1 "u2"; OpJobs] Scenario.closed_down)
  = trace Scenario.closed_down
    ++ [CallCallback (hd_callback Scenario.h1) (CbError None)].
Proof.
  destruct (subscribe_on_closed_client (host := Reference.host)
              Scenario.closed_down Scenario.h1 "u2")
    as (Ht & _); [vm_compute; reflexivity..|].
  exact Ht.
Defined.

(** A frame whose ack header is not JSON text reaches the client of
    the scenario. *)
Lemma unroutable_frames_dropped_witness :
  step (host := Reference.host) Scenario.listening
    (OpStomp 0 (message Examples.stray))
  = set_trace (trace Scenario.listening ++ [Threw SyntaxError]) Scenario.listening.
Proof.
  destruct (unroutable_frames_dropped (host := Reference.host)
              Scenario.listening 0%nat 0%nat Examples.stray)
    as (Hbad & _); [vm_compute; reflexivity|].
  apply Hbad. vm_compute. reflexivity.
Defined.

(** A second observer subscribes under [sub1]; the first one is told
    nothing of the next frame. *)
Lemma latest_observer_wins_witness :
  delivered_to 0
    (trace
       (step (host := Reference.host)
          (step (host := Reference.host) Scenario.listening
             (OpObservableSubscribe Scenario.h1 "u2"))
          (OpStomp 0
             (message {| f_ack := Scenario.ack_header "1";
                         f_body := [Scenario.record "e1"] |}))))
  = delivered_to 0
      (trace
         (step (host := Reference.host) Scenario.listening
            (OpObservableSubscribe Scenario.h1 "u2"))).
Proof.
  pose proof (latest_observer_wins (host := Reference.host)
                Scenario.listening Scenario.h1 "u2" 0%nat 0%nat
                {| f_ack := Scenario.ack_header "1";
                   f_body := [Scenario.record "e1"] |}
                (VObject
                   [("receiptHandle",
                     VObject [("subscriberId", VString "sub1");
                              ("n", VNumber {| mantissa := 1; exponent10 := 0 |})])])
                (VObject [("subscriberId", VString "sub1");
                          ("n", VNumber {| mantissa := 1; exponent10 := 0 |})]))
    as H.
  cbv zeta in H.
  destruct H as (_ & _ & H); [discriminate | vm_compute; reflexivity..|].
  apply H. vm_compute. lia.
Defined.
